(** * ChatLab agent executor: a shallow embedding of [Agent.execute] and
    [Agent.executeStream] (electron/main/ai/agent.ts) and the properties of the
    round loop, the streaming tag scanner, the fallback tool-call parser, the
    semantic pipeline and the usage counter.

    Conventions.
    - JavaScript strings are [string]s over 8-bit code units; the texts that
      the theorems range over are ASCII, where [toLowerCase], the [/i] flag,
      [trim], [slice] and [length] agree with the definitions below.
      Non-ASCII literals of the source (the Chinese prompts and trigger
      words) appear as their UTF-8 bytes or as named constants.  On text
      that is not ASCII the definitions depart from the code: [Js.len] and
      [Js.slice] count bytes where the code counts UTF-16 code units,
      [Js.trim] strips the six ASCII white-space characters only, and
      [Js.toLowerCase] maps the letters A to Z only.
    - JavaScript numbers are integers ([Z]); doubles that are not integers,
      NaN and the infinities are outside the model, and so are the scores
      with a fraction that the legacy retrieval formats.
    - [await] is sequencing: every collaborator (model transport, tool
      runtime, abort signal, configuration) is a scripted environment that is
      part of the state, and every call to it is recorded in a trace. *)

From Stdlib Require Import Bool Arith ZArith List Ascii String Lia.
Import ListNotations.
Open Scope string_scope.

Set Implicit Arguments.
Set Warnings "-register-all".

(** ** JavaScript string primitives *)

Module Js.

Definition lowerAscii (c : ascii) : ascii :=
  let n := nat_of_ascii c in
  if (65 <=? n)%nat && (n <=? 90)%nat then ascii_of_nat (n + 32) else c.

(** [String.prototype.toLowerCase] *)
Fixpoint toLowerCase (s : string) : string :=
  match s with
  | EmptyString => EmptyString
  | String c r => String (lowerAscii c) (toLowerCase r)
  end.

(** The code units matched by [\s] and removed by [trim]. *)
Definition isWhiteSpace (c : ascii) : bool :=
  let n := nat_of_ascii c in
  ((9 <=? n)%nat && (n <=? 13)%nat) || (n =? 32)%nat.

Fixpoint trimStart (s : string) : string :=
  match s with
  | EmptyString => EmptyString
  | String c r => if isWhiteSpace c then trimStart r else s
  end.

Fixpoint rev (s : string) : string :=
  match s with
  | EmptyString => EmptyString
  | String c r => rev r ++ String c EmptyString
  end.

Definition trimEnd (s : string) : string := rev (trimStart (rev s)).

(** [String.prototype.trim] *)
Definition trim (s : string) : string := trimEnd (trimStart s).

Fixpoint startsWith (p s : string) : bool :=
  match p, s with
  | EmptyString, _ => true
  | String a p', String b s' => Ascii.eqb a b && startsWith p' s'
  | String _ _, EmptyString => false
  end.

Fixpoint drop (n : nat) (s : string) : string :=
  match n, s with
  | O, _ => s
  | S n', String _ r => drop n' r
  | S _, EmptyString => EmptyString
  end.

Fixpoint take (n : nat) (s : string) : string :=
  match n, s with
  | O, _ => EmptyString
  | S n', String c r => String c (take n' r)
  | S _, EmptyString => EmptyString
  end.

(** Position of the first occurrence of [p] in [s]. *)
Fixpoint find (p s : string) : option nat :=
  if startsWith p s then Some O
  else match s with
       | EmptyString => None
       | String _ r => option_map S (find p r)
       end.

(** [s.indexOf(p)]: [-1] when [p] does not occur. *)
Definition indexOf (s p : string) : Z :=
  match find p s with
  | Some i => Z.of_nat i
  | None => (-1)%Z
  end.

(** [s.includes(p)] *)
Definition includes (s p : string) : bool :=
  match find p s with Some _ => true | None => false end.

(** First occurrence of the lower-case pattern [p] in [s], letter case
    ignored: where a regular expression [/p/i] first matches. *)
Definition findCI (p s : string) : option nat := find p (toLowerCase s).

(** [/p/i.test(s)] for a literal lower-case pattern [p]. *)
Definition testCI (p s : string) : bool :=
  match findCI p s with Some _ => true | None => false end.

(** [s.slice(from, to)] with the clamping of negative and large indices. *)
Definition sliceIndex (len i : Z) : Z :=
  if (i <? 0)%Z then Z.max (len + i) 0 else Z.min i len.

Definition slice (s : string) (from to : Z) : string :=
  let len := Z.of_nat (String.length s) in
  let a := sliceIndex len from in
  let b := sliceIndex len to in
  if (a <? b)%Z then take (Z.to_nat (b - a)) (drop (Z.to_nat a) s) else EmptyString.

(** [s.slice(from)] *)
Definition sliceFrom (s : string) (from : Z) : string :=
  slice s from (Z.of_nat (String.length s)).

(** [s.replace(p, '')] with a string pattern: the first occurrence goes. *)
Definition removeFirst (s p : string) : string :=
  match find p s with
  | Some i => take i s ++ drop (i + String.length p) s
  | None => s
  end.

(** A text cut by a regular expression [/open([\s\S]*?)close/gi]: the pieces
    no match covers, and the matches with their lazy group. *)
Inductive Segment :=
| Plain (text : string)
| Span (whole inner : string).

Fixpoint segments (fuel : nat) (open close s : string) : list Segment :=
  match fuel with
  | O => [Plain s]
  | S fuel' =>
      match findCI open s with
      | None => [Plain s]
      | Some i =>
          let body := drop (i + String.length open) s in
          match findCI close body with
          | None => [Plain s]
          | Some j =>
              Plain (take i s)
              :: Span (take (String.length open + j + String.length close) (drop i s))
                      (take j body)
              :: segments fuel' open close (drop (j + String.length close) body)
          end
      end
  end.

(** [matchAll]: the matches, left to right, as (match[0], match[1]). *)
Definition matchAll (open close s : string) : list (string * string) :=
  flat_map (fun g => match g with Plain _ => [] | Span w i => [(w, i)] end)
           (segments (S (String.length s)) open close s).

(** [s.replace(/open[\s\S]*?close/gi, '')] *)
Definition removeAll (open close s : string) : string :=
  String.concat "" (map (fun g => match g with Plain t => t | Span _ _ => "" end)
                        (segments (S (String.length s)) open close s)).

(** Truthiness of a string: [if (s)]. *)
Definition nonEmpty (s : string) : bool :=
  match s with EmptyString => false | _ => true end.

Definition len (s : string) : Z := Z.of_nat (String.length s).

End Js.

(** ** JavaScript values *)

Inductive JsVal :=
| JUndefined
| JNull
| JBool (b : bool)
| JNum (n : Z)
| JStr (s : string)
| JArr (items : list JsVal)
| JObj (fields : list (string * JsVal)).

Module Val.

(** ToBoolean *)
Definition truthy (v : JsVal) : bool :=
  match v with
  | JUndefined | JNull => false
  | JBool b => b
  | JNum n => negb (n =? 0)%Z
  | JStr s => Js.nonEmpty s
  | JArr _ | JObj _ => true
  end.

(** The last binding of a key wins, as for an object literal or parsed JSON. *)
Fixpoint lookup (k : string) (fields : list (string * JsVal)) : JsVal :=
  match fields with
  | [] => JUndefined
  | (k', v) :: rest =>
      match lookup k rest with
      | JUndefined => if String.eqb k k' then v else JUndefined
      | found => found
      end
  end.

(** [v.k] for the property names the agent reads ([name], [arguments],
    [query], [top_k], [candidate_limit], [results], [score], [message]):
    [None] is the TypeError of reading a property of null or undefined. *)
Definition prop (v : JsVal) (k : string) : option JsVal :=
  match v with
  | JUndefined | JNull => None
  | JObj fields => Some (lookup k fields)
  | _ => Some JUndefined
  end.

(** [v?.k] *)
Definition optProp (v : JsVal) (k : string) : JsVal :=
  match prop v k with Some x => x | None => JUndefined end.

(** [v === s] for a string literal [s]. *)
Definition isStr (v : JsVal) (s : string) : bool :=
  match v with JStr t => String.eqb t s | _ => false end.

Fixpoint digits (fuel : nat) (n : N) (acc : string) : string :=
  match fuel with
  | O => acc
  | S fuel' =>
      let acc' := String (ascii_of_N (48 + n mod 10)) acc in
      if (n / 10 =? 0)%N then acc' else digits fuel' (n / 10) acc'
  end.

(** Number to string, as in a template literal. *)
Definition numberToString (z : Z) : string :=
  (if (z <? 0)%Z then "-" else "")
  ++ digits (S (N.size_nat (Z.abs_N z))) (Z.abs_N z) "".

(** [o[k] = x] on the fields of an object: a key that is present keeps its
    place and takes the new value, a new key goes to the end. *)
Fixpoint setField (k : string) (x : JsVal) (fields : list (string * JsVal))
  : list (string * JsVal) :=
  match fields with
  | [] => [(k, x)]
  | (k', v) :: rest =>
      if String.eqb k k'
      then (k', x) :: filter (fun p => negb (String.eqb k (fst p))) rest
      else (k', v) :: setField k x rest
  end.

Fixpoint indexedFrom (i : nat) (items : list JsVal) : list (string * JsVal) :=
  match items with
  | [] => []
  | v :: rest => (numberToString (Z.of_nat i), v) :: indexedFrom (S i) rest
  end.

(** The own enumerable properties that [{ ...v }] copies: the fields of an
    object, the elements of an array and the characters of a string under
    their indices, nothing for the other values. *)
Definition ownFields (v : JsVal) : list (string * JsVal) :=
  match v with
  | JObj fields => fields
  | JArr items => indexedFrom 0 items
  | JStr s => indexedFrom 0 (map (fun c => JStr (String c EmptyString))
                                 (list_ascii_of_string s))
  | _ => []
  end.

(** [{ ...v, k: x }] *)
Definition spread (v : JsVal) (k : string) (x : JsVal) : JsVal :=
  JObj (setField k x (ownFields v)).

(** [`${v}`] for the values the agent interpolates. *)
Fixpoint display (v : JsVal) : string :=
  match v with
  | JUndefined => "undefined"
  | JNull => "null"
  | JBool true => "true"
  | JBool false => "false"
  | JNum n => numberToString n
  | JStr s => s
  | JArr items =>
      String.concat ","
        (map (fun x => match x with
                       | JUndefined | JNull => ""
                       | _ => display x
                       end) items)
  | JObj _ => "[object Object]"
  end.

End Val.

(** ** A JSON reader and printer

    The agent reaches [JSON.parse] and [JSON.stringify] through the runtime
    record below, over which the general theorems quantify; this reader and
    printer are the instance the examples run on.  Numbers are integer
    literals: the reader refuses a fraction or an exponent, and it refuses a
    [\u] escape in a string, all of which [JSON.parse] accepts.  The printer
    writes the fields of an object in the order of the list, where
    JavaScript puts the keys that are array indices first. *)

Module Json.

Definition isWs (c : ascii) : bool :=
  let n := nat_of_ascii c in
  (n =? 32)%nat || (n =? 9)%nat || (n =? 10)%nat || (n =? 13)%nat.

Fixpoint skipWs (s : string) : string :=
  match s with
  | String c r => if isWs c then skipWs r else s
  | EmptyString => s
  end.

Definition isDigit (c : ascii) : bool :=
  let n := nat_of_ascii c in (48 <=? n)%nat && (n <=? 57)%nat.

Fixpoint readDigits (s : string) (acc : N) : N * string :=
  match s with
  | String c r =>
      if isDigit c then readDigits r (acc * 10 + (N_of_ascii c - 48))%N else (acc, s)
  | EmptyString => (acc, s)
  end.

Definition startsNumberTail (s : string) : bool :=
  match s with
  | String c _ => Ascii.eqb c "." || Ascii.eqb c "e" || Ascii.eqb c "E"
  | EmptyString => false
  end.

Definition readNat (s : string) : option (N * string) :=
  match s with
  | String c r =>
      if Ascii.eqb c "0" then
        match r with
        | String d _ => if isDigit d then None else Some (0%N, r)
        | EmptyString => Some (0%N, r)
        end
      else if isDigit c then Some (readDigits s 0%N) else None
  | EmptyString => None
  end.

Definition readNumber (s : string) : option (JsVal * string) :=
  let '(neg, body) :=
    match s with
    | String c r => if Ascii.eqb c "-" then (true, r) else (false, s)
    | EmptyString => (false, s)
    end in
  match readNat body with
  | Some (n, rest) =>
      if startsNumberTail rest then None
      else Some (JNum (if neg then - Z.of_N n else Z.of_N n), rest)
  | None => None
  end.

Definition unescape (c : ascii) : option ascii :=
  let n := nat_of_ascii c in
  if (n =? 34)%nat || (n =? 92)%nat || (n =? 47)%nat then Some c
  else if Ascii.eqb c "b" then Some (ascii_of_nat 8)
  else if Ascii.eqb c "f" then Some (ascii_of_nat 12)
  else if Ascii.eqb c "n" then Some (ascii_of_nat 10)
  else if Ascii.eqb c "r" then Some (ascii_of_nat 13)
  else if Ascii.eqb c "t" then Some (ascii_of_nat 9)
  else None.

(** The characters of a string literal after its opening quote. *)
Fixpoint readString (s : string) : option (string * string) :=
  match s with
  | EmptyString => None
  | String c r =>
      if (nat_of_ascii c =? 34)%nat then Some (EmptyString, r)
      else if (nat_of_ascii c =? 92)%nat then
        match r with
        | String e r' =>
            match unescape e, readString r' with
            | Some x, Some (t, rest) => Some (String x t, rest)
            | _, _ => None
            end
        | EmptyString => None
        end
      else if (nat_of_ascii c <? 32)%nat then None
      else match readString r with
           | Some (t, rest) => Some (String c t, rest)
           | None => None
           end
  end.

Definition quote : ascii := ascii_of_nat 34.

Fixpoint readValue (fuel : nat) (s : string) : option (JsVal * string) :=
  match fuel with
  | O => None
  | S fuel' =>
      match skipWs s with
      | EmptyString => None
      | String c r as t =>
          if Ascii.eqb c "{" then
            match skipWs r with
            | String d r' =>
                if Ascii.eqb d "}" then Some (JObj [], r') else readMembers fuel' (skipWs r) []
            | EmptyString => None
            end
          else if Ascii.eqb c "[" then
            match skipWs r with
            | String d r' =>
                if Ascii.eqb d "]" then Some (JArr [], r') else readItems fuel' (skipWs r) []
            | EmptyString => None
            end
          else if Ascii.eqb c quote then
            match readString r with
            | Some (x, rest) => Some (JStr x, rest)
            | None => None
            end
          else if Js.startsWith "true" t then Some (JBool true, Js.drop 4 t)
          else if Js.startsWith "false" t then Some (JBool false, Js.drop 5 t)
          else if Js.startsWith "null" t then Some (JNull, Js.drop 4 t)
          else readNumber t
      end
  end

with readItems (fuel : nat) (s : string) (acc : list JsVal) : option (JsVal * string) :=
  match fuel with
  | O => None
  | S fuel' =>
      match readValue fuel' s with
      | Some (v, rest) =>
          match skipWs rest with
          | String c r =>
              if Ascii.eqb c "," then readItems fuel' r (acc ++ [v])
              else if Ascii.eqb c "]" then Some (JArr (acc ++ [v]), r)
              else None
          | EmptyString => None
          end
      | None => None
      end
  end

with readMembers (fuel : nat) (s : string) (acc : list (string * JsVal))
  : option (JsVal * string) :=
  match fuel with
  | O => None
  | S fuel' =>
      match skipWs s with
      | String q r =>
          if Ascii.eqb q quote then
            match readString r with
            | Some (k, rest) =>
                match skipWs rest with
                | String c r' =>
                    if Ascii.eqb c ":" then
                      match readValue fuel' r' with
                      | Some (v, rest') =>
                          match skipWs rest' with
                          | String d r'' =>
                              if Ascii.eqb d "," then readMembers fuel' r'' (Val.setField k v acc)
                              else if Ascii.eqb d "}" then Some (JObj (Val.setField k v acc), r'')
                              else None
                          | EmptyString => None
                          end
                      | None => None
                      end
                    else None
                | EmptyString => None
                end
            | None => None
            end
          else None
      | EmptyString => None
      end
  end.

(** [JSON.parse]: [None] is the SyntaxError. *)
Definition parse (s : string) : option JsVal :=
  match readValue (S (String.length s)) s with
  | Some (v, rest) =>
      match skipWs rest with EmptyString => Some v | _ => None end
  | None => None
  end.

Definition hexDigit (n : nat) : ascii :=
  ascii_of_nat (if (n <? 10)%nat then 48 + n else 87 + n).

(** QuoteJSONString on one character: the quote and the backslash, the five
    short escapes, the other control characters as [\u00XX]. *)
Definition escapeChar (c : ascii) : string :=
  let n := nat_of_ascii c in
  if (n =? 34)%nat then String (ascii_of_nat 92) (String quote EmptyString)
  else if (n =? 92)%nat then String c (String c EmptyString)
  else if (n =? 8)%nat then String (ascii_of_nat 92) "b"
  else if (n =? 12)%nat then String (ascii_of_nat 92) "f"
  else if (n =? 10)%nat then String (ascii_of_nat 92) "n"
  else if (n =? 13)%nat then String (ascii_of_nat 92) "r"
  else if (n =? 9)%nat then String (ascii_of_nat 92) "t"
  else if (n <? 32)%nat then
    String (ascii_of_nat 92)
      ("u00" ++ String (hexDigit (n / 16)) (String (hexDigit (n mod 16)) EmptyString))
  else String c EmptyString.

Fixpoint escape (s : string) : string :=
  match s with
  | EmptyString => EmptyString
  | String c r => escapeChar c ++ escape r
  end.

Definition quoted (s : string) : string :=
  String quote (escape s) ++ String quote EmptyString.

Fixpoint spaces (n : nat) : string :=
  match n with O => EmptyString | S n' => String " " (spaces n') end.

Definition newline : string := String (ascii_of_nat 10) EmptyString.

(** [JSON.stringify(v)] ([pretty = false]) and [JSON.stringify(v, null, 2)]
    ([pretty = true]) at nesting depth [depth]. *)
Fixpoint print (pretty : bool) (depth : nat) (v : JsVal) {struct v} : string :=
  let open := if pretty then newline ++ spaces (2 * S depth) else "" in
  let sep := "," ++ open in
  let close := if pretty then newline ++ spaces (2 * depth) else "" in
  match v with
  | JUndefined | JNull => "null"
  | JBool true => "true"
  | JBool false => "false"
  | JNum n => Val.numberToString n
  | JStr s => quoted s
  | JArr items =>
      match map (print pretty (S depth)) items with
      | [] => "[]"
      | shown => "[" ++ open ++ String.concat sep shown ++ close ++ "]"
      end
  | JObj fields =>
      let shown :=
        (fix members (l : list (string * JsVal)) : list string :=
           match l with
           | [] => []
           | (_, JUndefined) :: rest => members rest
           | (k, x) :: rest =>
               (quoted k ++ (if pretty then ": " else ":") ++ print pretty (S depth) x)
               :: members rest
           end) fields in
      match shown with
      | [] => "{}"
      | _ => "{" ++ open ++ String.concat sep shown ++ close ++ "}"
      end
  end.

Definition stringify (v : JsVal) : string := print false 0 v.
Definition stringifyPretty (v : JsVal) : string := print true 0 v.

End Json.

(** Double quotes are written as single quotes in the example texts. *)
Definition dq (s : string) : string :=
  (fix go (s : string) : string :=
     match s with
     | EmptyString => EmptyString
     | String c r => String (if Ascii.eqb c "'" then Json.quote else c) (go r)
     end) s.

(** ** Data model (llm/types, tools/types, agent.ts) *)

Inductive Role := system | user | assistant | tool.

Definition Role_eqb (a b : Role) : bool :=
  match a, b with
  | system, system | user, user | assistant, assistant | tool, tool => true
  | _, _ => false
  end.

(** [ToolCall]: [{ id, type: 'function', function: { name, arguments } }].
    The name of a call recovered from markup is whatever JSON value the
    block carried, so it is a [JsVal]. *)
Record ToolCall := {
  tc_id : string;
  tc_name : JsVal;
  tc_arguments : string
}.

Record ChatMessage := {
  role : Role;
  content : string;
  tool_calls : option (list ToolCall);
  tool_call_id : option string
}.

Definition plainMessage (r : Role) (text : string) : ChatMessage :=
  {| role := r; content := text; tool_calls := None; tool_call_id := None |}.

Record TokenUsage := {
  promptTokens : Z;
  completionTokens : Z;
  totalTokens : Z
}.

Definition zeroUsage : TokenUsage :=
  {| promptTokens := 0; completionTokens := 0; totalTokens := 0 |}.

Definition plusUsage (a b : TokenUsage) : TokenUsage :=
  {| promptTokens := promptTokens a + promptTokens b;
     completionTokens := completionTokens a + completionTokens b;
     totalTokens := totalTokens a + totalTokens b |}.

(** Reply of the blocking transport [chat]. *)
Record ChatResponse := {
  resp_content : string;
  resp_tool_calls : option (list ToolCall);
  resp_finishReason : string;
  resp_usage : option TokenUsage
}.

(** One delta of the streaming transport [chatStream]; an absent [content]
    and the empty text are both falsy and are both [""]. *)
Record ChatStreamChunk := {
  chunk_content : string;
  chunk_tool_calls : option (list ToolCall);
  chunk_usage : option TokenUsage;
  chunk_isFinished : bool;
  chunk_finishReason : string
}.

Record ToolResult := {
  success : bool;
  result : JsVal;
  error : option string
}.

Record ToolDefinition := { def_name : string }.

Record ToolContext := {
  maxMessagesLimit : option Z;
  timeFilter : option JsVal
}.

Record AgentConfig := { maxToolRounds : option Z }.

(** [AgentStreamChunk]; the usage of a [done] chunk is the agent's usage
    object itself, read here when the chunk is handed over. *)
Inductive AgentStreamChunk :=
| ChunkContent (text : string)
| ChunkToolStart (toolName : JsVal) (toolParams : JsVal)
| ChunkToolResult (toolName : JsVal) (toolResult : JsVal)
| ChunkDone (usage : TokenUsage).

Record AgentResult := {
  res_content : string;
  res_toolsUsed : list JsVal;
  res_toolRounds : Z;
  res_totalUsage : TokenUsage
}.

(** The mutable fields of an [Agent] and what its constructor fixed. *)
Record Agent := {
  context : ToolContext;
  config : AgentConfig;
  historyMessages : list ChatMessage;
  messages : list ChatMessage;
  toolsUsed : list JsVal;
  toolRounds : Z;
  totalUsage : TokenUsage
}.

(** [new Agent(context, config, historyMessages)] *)
Definition newAgent (ctx : ToolContext) (cfg : AgentConfig) (history : list ChatMessage)
  : Agent :=
  {| context := ctx;
     config := {| maxToolRounds := Some (match maxToolRounds cfg with
                                         | Some n => n
                                         | None => 5%Z
                                         end) |};
     historyMessages := history;
     messages := [];
     toolsUsed := [];
     toolRounds := 0;
     totalUsage := zeroUsage |}.

(** [this.config.maxToolRounds ?? 5] *)
Definition roundBudget (a : Agent) : Z :=
  match maxToolRounds (config a) with Some n => n | None => 5%Z end.

(** ** The collaborators *)

(** A streamed reply: its deltas, and whether iteration then throws instead
    of completing. *)
Record StreamScript := {
  deltas : list ChatStreamChunk;
  fails : bool
}.

Record Env := {
  (** [getActiveConfig()?.embeddingModel]; [None] when absent or when the
      lookup throws *)
  embeddingModel : option string;
  (** [getAllToolDefinitions()]; [None] when it rejects *)
  toolCatalog : option (list ToolDefinition);
  (** [executeToolCalls] *)
  toolRuntime : list ToolCall -> list ToolResult;
  (** the replies [chat] will give, [None] for a rejected call; a call
      beyond the script is rejected *)
  chatScript : list (option ChatResponse);
  (** the replies [chatStream] will give *)
  streamScript : list StreamScript;
  (** the successive reads of [abortSignal.aborted]; [false] beyond it *)
  abortScript : list bool;
  (** how many [randomUUID()] were drawn *)
  uuidCounter : nat;
  (** what [buildSystemPrompt] returns *)
  systemPrompt : string
}.

Record Runtime := {
  JSON_parse : string -> option JsVal;
  JSON_stringify : JsVal -> string;
  JSON_stringifyPretty : JsVal -> string;
  randomUUID : nat -> string
}.

(** What the execution did to its collaborators, in order. *)
Inductive Event :=
| EvAbortCheck (aborted : bool) (held : string)
| EvChat (sent : list ChatMessage) (withTools : bool) (reply : option ChatResponse)
| EvStreamOpen (sent : list ChatMessage) (withTools : bool)
| EvDelta (chunk : ChatStreamChunk)
| EvToolExec (calls : list ToolCall) (results : list ToolResult)
| EvUsage (usage : TokenUsage)
| EvEmit (chunk : AgentStreamChunk).

Record St := {
  agent : Agent;
  env : Env;
  trace : list Event
}.

(** ** The execution monad: state, exceptions, and a fuel guard for loops *)

Inductive Outcome (A : Type) :=
| Ok (a : A)
| Throw (e : string)
| OutOfFuel.
Arguments Ok {A} a.
Arguments Throw {A} e.
Arguments OutOfFuel {A}.

Definition M (A : Type) : Type := St -> Outcome A * St.

Definition ret {A} (a : A) : M A := fun st => (Ok a, st).

Definition bind {A B} (m : M A) (f : A -> M B) : M B :=
  fun st =>
    match m st with
    | (Ok a, st') => f a st'
    | (Throw e, st') => (Throw e, st')
    | (OutOfFuel, st') => (OutOfFuel, st')
    end.

Definition throw {A} (e : string) : M A := fun st => (Throw e, st).

Definition outOfFuel {A} : M A := fun st => (OutOfFuel, st).

(** [try { m } catch { h }] *)
Definition tryCatch {A} (m : M A) (h : M A) : M A :=
  fun st =>
    match m st with
    | (Throw _, st') => h st'
    | other => other
    end.

Declare Scope agent_scope.
Delimit Scope agent_scope with agent.
Notation "x <- m ;; k" := (bind m (fun x => k))
  (at level 100, m at next level, right associativity) : agent_scope.
Notation "m ;; k" := (bind m (fun _ => k))
  (at level 100, right associativity) : agent_scope.
Open Scope agent_scope.

(** Early [return] from inside a loop. *)
Inductive Flow (L R : Type) :=
| Continue (l : L)
| Return (r : R).
Arguments Continue {L R} l.
Arguments Return {L R} r.

Definition getAgent : M Agent := fun st => (Ok (agent st), st).
Definition getEnv : M Env := fun st => (Ok (env st), st).

Definition setAgent (f : Agent -> Agent) : M unit :=
  fun st => (Ok tt, {| agent := f (agent st); env := env st; trace := trace st |}).

Definition setEnv (f : Env -> Env) : M unit :=
  fun st => (Ok tt, {| agent := agent st; env := f (env st); trace := trace st |}).

Definition log (e : Event) : M unit :=
  fun st => (Ok tt, {| agent := agent st; env := env st; trace := trace st ++ [e] |}).

Definition withMessages (ms : list ChatMessage) (a : Agent) : Agent :=
  {| context := context a; config := config a; historyMessages := historyMessages a;
     messages := ms; toolsUsed := toolsUsed a; toolRounds := toolRounds a;
     totalUsage := totalUsage a |}.

Definition withToolsUsed (ts : list JsVal) (a : Agent) : Agent :=
  {| context := context a; config := config a; historyMessages := historyMessages a;
     messages := messages a; toolsUsed := ts; toolRounds := toolRounds a;
     totalUsage := totalUsage a |}.

Definition withToolRounds (n : Z) (a : Agent) : Agent :=
  {| context := context a; config := config a; historyMessages := historyMessages a;
     messages := messages a; toolsUsed := toolsUsed a; toolRounds := n;
     totalUsage := totalUsage a |}.

Definition withTotalUsage (u : TokenUsage) (a : Agent) : Agent :=
  {| context := context a; config := config a; historyMessages := historyMessages a;
     messages := messages a; toolsUsed := toolsUsed a; toolRounds := toolRounds a;
     totalUsage := u |}.

Definition withChatScript (s : list (option ChatResponse)) (e : Env) : Env :=
  {| embeddingModel := embeddingModel e; toolCatalog := toolCatalog e;
     toolRuntime := toolRuntime e; chatScript := s; streamScript := streamScript e;
     abortScript := abortScript e; uuidCounter := uuidCounter e;
     systemPrompt := systemPrompt e |}.

Definition withStreamScript (s : list StreamScript) (e : Env) : Env :=
  {| embeddingModel := embeddingModel e; toolCatalog := toolCatalog e;
     toolRuntime := toolRuntime e; chatScript := chatScript e; streamScript := s;
     abortScript := abortScript e; uuidCounter := uuidCounter e;
     systemPrompt := systemPrompt e |}.

Definition withAbortScript (s : list bool) (e : Env) : Env :=
  {| embeddingModel := embeddingModel e; toolCatalog := toolCatalog e;
     toolRuntime := toolRuntime e; chatScript := chatScript e;
     streamScript := streamScript e; abortScript := s; uuidCounter := uuidCounter e;
     systemPrompt := systemPrompt e |}.

Definition withUuidCounter (n : nat) (e : Env) : Env :=
  {| embeddingModel := embeddingModel e; toolCatalog := toolCatalog e;
     toolRuntime := toolRuntime e; chatScript := chatScript e;
     streamScript := streamScript e; abortScript := abortScript e; uuidCounter := n;
     systemPrompt := systemPrompt e |}.

(** *** Calls to the collaborators *)

(** [this.abortSignal?.aborted ?? false]; [held] is the text the execution
    holds in its content variables at the read. *)
Definition isAborted (held : string) : M bool :=
  e <- getEnv ;;
  let b := match abortScript e with b :: _ => b | [] => false end in
  setEnv (withAbortScript (tl (abortScript e))) ;;
  log (EvAbortCheck b held) ;;
  ret b.

(** [await chat(sent, options)] *)
Definition chat (sent : list ChatMessage) (withTools : bool) : M ChatResponse :=
  e <- getEnv ;;
  let reply := match chatScript e with r :: _ => r | [] => None end in
  setEnv (withChatScript (tl (chatScript e))) ;;
  log (EvChat sent withTools reply) ;;
  match reply with
  | Some r => ret r
  | None => throw "chat rejected"
  end.

(** [chatStream(sent, options)] *)
Definition chatStream (sent : list ChatMessage) (withTools : bool) : M StreamScript :=
  e <- getEnv ;;
  let reply := match streamScript e with
               | r :: _ => r
               | [] => {| deltas := []; fails := true |}
               end in
  setEnv (withStreamScript (tl (streamScript e))) ;;
  log (EvStreamOpen sent withTools) ;;
  ret reply.

(** [await executeToolCalls(calls, { ...this.context, locale })] *)
Definition executeToolCalls (calls : list ToolCall) : M (list ToolResult) :=
  e <- getEnv ;;
  let results := toolRuntime e calls in
  log (EvToolExec calls results) ;;
  ret results.

(** [await getAllToolDefinitions()] *)
Definition getAllToolDefinitions : M (list ToolDefinition) :=
  e <- getEnv ;;
  match toolCatalog e with
  | Some defs => ret defs
  | None => throw "getAllToolDefinitions rejected"
  end.

(** [onChunk(chunk)] *)
Definition onChunk (chunk : AgentStreamChunk) : M unit := log (EvEmit chunk).

(** [if (onChunk) onChunk(chunk)] *)
Definition onChunkIf (streaming : bool) (chunk : AgentStreamChunk) : M unit :=
  if streaming then onChunk chunk else ret tt.

Definition pushMessage (m : ChatMessage) : M unit :=
  setAgent (fun a => withMessages (messages a ++ [m]) a).

Definition pushToolUsed (name : JsVal) : M unit :=
  setAgent (fun a => withToolsUsed (toolsUsed a ++ [name]) a).

(** [Agent.addUsage] *)
Definition addUsage (usage : option TokenUsage) : M unit :=
  match usage with
  | Some u =>
      setAgent (fun a => withTotalUsage (plusUsage (totalUsage a) u) a) ;;
      log (EvUsage u)
  | None => ret tt
  end.

(** The result object built at every [return] of [execute] and
    [executeStream] from [this.toolsUsed], [this.toolRounds] and
    [this.totalUsage]. *)
Definition resultWith (text : string) : M AgentResult :=
  a <- getAgent ;;
  ret {| res_content := text; res_toolsUsed := toolsUsed a;
         res_toolRounds := toolRounds a; res_totalUsage := totalUsage a |}.

(** [onChunk({ type: 'done', isFinished: true, usage: this.totalUsage })] *)
Definition emitDone : M unit :=
  a <- getAgent ;;
  onChunk (ChunkDone (totalUsage a)).

(** ** Array helpers *)

Fixpoint findIndexFrom {A} (p : A -> bool) (l : list A) (i : Z) : Z :=
  match l with
  | [] => (-1)%Z
  | x :: r => if p x then i else findIndexFrom p r (i + 1)%Z
  end.

(** [l.findIndex(p)] *)
Definition findIndex {A} (p : A -> bool) (l : list A) : Z := findIndexFrom p l 0%Z.

(** [l.splice(start, 0, x)] *)
Definition spliceIn {A} (l : list A) (start : Z) (x : A) : list A :=
  let k := Z.to_nat (Js.sliceIndex (Z.of_nat (List.length l)) start) in
  firstn k l ++ x :: skipn k l.

(** ** The fallback parsers (agent.ts, lines 13-68) *)

Record Thinking := {
  thinking : string;
  cleanContent : string
}.

(** [extractThinkingContent]: the matches of [/<think>([\s\S]*?)<\/think>/gi]
    are taken on the whole text, then each is removed where it first occurs. *)
Definition extractThinkingContent (text : string) : Thinking :=
  let found := Js.matchAll "<think>" "</think>" text in
  {| thinking :=
       Js.trim (fold_left (fun acc m => acc ++ Js.trim (snd m) ++ Json.newline) found "");
     cleanContent :=
       Js.trim (fold_left (fun acc m => Js.removeFirst acc (fst m)) found text) |}.

(** [hasToolCallTags]: [/<tool_call>/i.test(content)] *)
Definition hasToolCallTags (text : string) : bool := Js.testCI "<tool_call>" text.

(** The texts between the markers of each block matched by
    [/<tool_call>\s*([\s\S]*?)\s*<\/tool_call>/gi].  The group of the
    expression is this text without its outer white space, and the parser
    trims it before use. *)
Definition toolCallBlocks (text : string) : list string :=
  map snd (Js.matchAll "<tool_call>" "</tool_call>" text).

Section AgentCode.

Variable rt : Runtime.

Definition freshUUID : M string :=
  e <- getEnv ;;
  setEnv (withUuidCounter (S (uuidCounter e))) ;;
  ret (randomUUID rt (uuidCounter e)).

(** The body of the [try] in [parseToolCallTags] for one block: the name and
    the argument text of the call it yields; [None] when [JSON.parse] or a
    property read throws, or when [parsed.name && parsed.arguments] is falsy. *)
Definition parseBlock (inner : string) : option (JsVal * string) :=
  match JSON_parse rt (Js.trim inner) with
  | None => None
  | Some parsed =>
      match Val.prop parsed "name", Val.prop parsed "arguments" with
      | Some name, Some args =>
          if Val.truthy name && Val.truthy args then
            Some (name, match args with
                        | JStr s => s
                        | _ => JSON_stringify rt args
                        end)
          else None
      | _, _ => None
      end
  end.

Fixpoint parseBlocks (blocks : list string) : M (list ToolCall) :=
  match blocks with
  | [] => ret []
  | inner :: rest =>
      match parseBlock inner with
      | Some (name, args) =>
          uuid <- freshUUID ;;
          calls <- parseBlocks rest ;;
          ret ({| tc_id := "fallback-" ++ uuid; tc_name := name; tc_arguments := args |}
               :: calls)
      | None => parseBlocks rest
      end
  end.

(** [parseToolCallTags]: [null] is [None]. *)
Definition parseToolCallTags (text : string) : M (option (list ToolCall)) :=
  calls <- parseBlocks (toolCallBlocks text) ;;
  ret (match calls with [] => None | _ => Some calls end).

(** ** Semantic pipeline (agent.ts, lines 358-511) *)

(** [Agent.getEmbeddingModel] *)
Definition getEmbeddingModel : M (option string) :=
  e <- getEnv ;;
  ret (match embeddingModel e with
       | Some m => if Js.nonEmpty (Js.trim m) then Some (Js.trim m) else None
       | None => None
       end).

Definition rewriteSystem : string :=
  "你是一个“检索查询改写器”。只输出 JSON，不要输出任何额外文字。
输出格式：
" ++ dq "{'query': string, 'top_k': number, 'candidate_limit': number}" ++ "
要求：
- query 要尽量覆盖用户意图：关键词 + 同义词 + 可能出现的聊天原话片段（短语）
- top_k 默认 5（可根据问题复杂度 5-20）
- candidate_limit 默认 200（可根据问题复杂度 100-500）
- 如果用户问题很短/含糊，也要把 query 写具体（例如补上“进展/情况/有没有/是否/能恢复”等）
".

Definition rewriteUser (userMessage : string) : string :=
  "用户问题：" ++ userMessage ++ Json.newline ++ "请生成用于语义检索的 JSON：".

Record Plan := {
  query : string;
  top_k : Z;
  candidate_limit : Z
}.

Fixpoint findLast (p s : string) : option nat :=
  match s with
  | EmptyString => if Js.startsWith p s then Some O else None
  | String _ r =>
      match findLast p r with
      | Some i => Some (S i)
      | None => if Js.startsWith p s then Some O else None
      end
  end.

(** [raw.match(/\{[\s\S]*\}/)]: from the first opening brace to the last
    closing one. *)
Definition matchBraces (raw : string) : option string :=
  match Js.find "{" raw with
  | Some i =>
      match findLast "}" (Js.drop (S i) raw) with
      | Some j => Some (Js.take (j + 2) (Js.drop i raw))
      | None => None
      end
  | None => None
  end.

(** [Number.isFinite] on the modelled numbers. *)
Definition Number_isFinite (n : Z) : bool := true.

(** Step 1 of the pipeline: the plan after the [try]/[catch] around the
    rewrite call. *)
Definition rewritePlan (userMessage : string) : M Plan :=
  let fallback := {| query := userMessage; top_k := 5; candidate_limit := 200 |} in
  tryCatch
    (rewriteResp <- chat [plainMessage system rewriteSystem;
                          plainMessage user (rewriteUser userMessage)] false ;;
     addUsage (resp_usage rewriteResp) ;;
     let raw := Js.trim (resp_content rewriteResp) in
     match matchBraces raw with
     | None => ret fallback
     | Some text =>
         match JSON_parse rt text with
         | None => throw "SyntaxError"
         | Some parsed =>
             match Val.prop parsed "query", Val.prop parsed "top_k",
                   Val.prop parsed "candidate_limit" with
             | Some q, Some k, Some c =>
                 ret {| query := match q with
                                 | JStr s => if Js.nonEmpty (Js.trim s) then Js.trim s
                                             else userMessage
                                 | _ => userMessage
                                 end;
                        top_k := match k with JNum n => n | _ => 5%Z end;
                        candidate_limit := match c with JNum n => n | _ => 200%Z end |}
             | _, _, _ => throw "TypeError"
             end
         end
     end)
    (ret fallback).

(** The clamp of lines 429-434. *)
Definition clampPlan (ctx : ToolContext) (p : Plan) : Plan :=
  let k := Z.max 1 (Z.min 50 (if Number_isFinite (top_k p) then top_k p else 5)) in
  let c := Z.max 20 (Z.min 500 (if Number_isFinite (candidate_limit p)
                                then candidate_limit p else 200)) in
  {| query := query p;
     top_k := k;
     candidate_limit :=
       match maxMessagesLimit ctx with
       | Some limit => if (limit =? 0)%Z then c else Z.min c limit
       | None => c
       end |}.

Definition planObject (p : Plan) : JsVal :=
  JObj [("query", JStr (query p)); ("top_k", JNum (top_k p));
        ("candidate_limit", JNum (candidate_limit p))].

Definition hasSemanticSearch (tools : list ToolDefinition) : bool :=
  existsb (fun t => String.eqb (def_name t) "semantic_search_messages") tools.

(** [first?.success ? first.result : first?.error] *)
Definition reported (r : ToolResult) : JsVal :=
  if success r then result r
  else match error r with Some e => JStr e | None => JUndefined end.

Definition reportedFirst (first : option ToolResult) : JsVal :=
  match first with Some r => reported r | None => JUndefined end.

(** [result.success ? JSON.stringify(result.result) : `错误: ${result.error}`] *)
Definition toolText (r : ToolResult) : string :=
  if success r then JSON_stringify rt (result r)
  else "错误: " ++ match error r with Some e => e | None => "undefined" end.

Definition toolTextFirst (first : option ToolResult) : string :=
  match first with Some r => toolText r | None => "错误: undefined" end.

Definition evidenceBlock (p : Plan) (found : JsVal) : string :=
  "【语义检索证据（semantic_search_messages）】
检索query：" ++ query p ++ "
top_k：" ++ Val.numberToString (top_k p) ++ "，candidate_limit："
  ++ Val.numberToString (candidate_limit p) ++ "

检索结果（按相关度）：
" ++ JSON_stringifyPretty rt found ++ "

回答要求：
- 必须优先依据上述证据回答
- 如果证据不足，说明“不足”并给出下一步应检索什么
".

Definition isUser (m : ChatMessage) : bool := Role_eqb (role m) user.

(** Lines 503-505: where the evidence goes. *)
Definition insertEvidence (ms : list ChatMessage) (evidence : ChatMessage)
  : list ChatMessage :=
  let lastUserIdx := findIndex isUser (List.rev ms) in
  let insertIdx :=
    if (lastUserIdx =? -1)%Z then Z.of_nat (List.length ms)
    else (Z.of_nat (List.length ms) - 1 - lastUserIdx)%Z in
  spliceIn ms insertIdx evidence.

(** Lines 429-510 of [runSemanticPipeline]: clamp the plan, force the
    search, write the call and its result to the transcript, insert the
    evidence. *)
Definition forcedSearch (plan0 : Plan) (tools : list ToolDefinition) (streaming : bool)
  : M bool :=
  a <- getAgent ;;
  let plan := clampPlan (context a) plan0 in
  if negb (hasSemanticSearch tools) then ret false
  else
    onChunkIf streaming
      (ChunkToolStart (JStr "semantic_search_messages") (planObject plan)) ;;
    uuid <- freshUUID ;;
    let forcedToolCalls :=
      [{| tc_id := "semantic-" ++ uuid;
          tc_name := JStr "semantic_search_messages";
          tc_arguments := JSON_stringify rt (planObject plan) |}] in
    results <- executeToolCalls forcedToolCalls ;;
    let first := hd_error results in
    onChunkIf streaming
      (ChunkToolResult (JStr "semantic_search_messages") (reportedFirst first)) ;;
    pushMessage {| role := assistant; content := "";
                   tool_calls := Some forcedToolCalls; tool_call_id := None |} ;;
    pushMessage {| role := tool; content := toolTextFirst first;
                   tool_calls := None; tool_call_id := Some ("semantic-" ++ uuid) |} ;;
    pushToolUsed (JStr "semantic_search_messages") ;;
    match first with
    | Some r =>
        if success r && Val.truthy (result r) then
          setAgent (fun a =>
            withMessages
              (insertEvidence (messages a)
                 (plainMessage system (evidenceBlock plan (result r)))) a) ;;
          ret true
        else ret true
    | None => ret true
    end.

(** [Agent.runSemanticPipeline]; [streaming] tells whether [onChunk] was given. *)
Definition runSemanticPipeline (userMessage : string) (tools : list ToolDefinition)
  (streaming : bool) : M bool :=
  embedding <- getEmbeddingModel ;;
  match embedding with
  | None => ret false
  | Some _ =>
      plan0 <- rewritePlan userMessage ;;
      forcedSearch plan0 tools streaming
  end.

(** ** Legacy automatic retrieval (agent.ts, lines 513-587) *)

Definition namesATool (text : string) : bool :=
  Js.testCI "get_recent_messages" text || Js.testCI "search_messages" text
  || Js.testCI "get_conversation_between" text
  || Js.testCI "semantic_search_messages" text.

Definition triggers : list string :=
  ["关系"; "相处"; "进展"; "总结"; "分析"; "洞察"; "怎么"; "为什么"; "发生了什么";
   "线索"; "类似"; "有没有聊过"; "提到过"].

(** [Agent.shouldAutoSemanticSearch] *)
Definition shouldAutoSemanticSearch (userMessage : string) : bool :=
  let text := Js.trim userMessage in
  if negb (Js.nonEmpty text) then false
  else if namesATool text then false
  else if existsb (fun k => Js.includes text k) triggers then true
  else if (15 <=? Js.len text)%Z then true
  else false.

(** One line of the evidence list; [None] is the TypeError of reading
    [x.score] on null or undefined. *)
Definition formatItem (i : nat) (x : JsVal) : option string :=
  match Val.prop x "score", Val.prop x "message" with
  | Some score, Some message =>
      let s := match score with
               | JNum n => Val.numberToString (n * 100) ++ ".0%"
               | _ => ""
               end in
      Some (Js.trim (Val.numberToString (Z.of_nat (S i)) ++ ". " ++ s ++ " "
                     ++ (if Val.truthy message then Val.display message else "")))
  | _, _ => None
  end.

Fixpoint formatItems (i : nat) (items : list JsVal) : option (list string) :=
  match items with
  | [] => Some []
  | x :: rest =>
      match formatItem i x, formatItems (S i) rest with
      | Some line, Some lines => Some (line :: lines)
      | _, _ => None
      end
  end.

Definition autoEvidence (userMessage : string) (data : JsVal) (lines : list string)
  : string :=
  "【语义检索结果】" ++ Json.newline ++ "查询："
  ++ (if Val.truthy (Val.optProp data "query") then Val.display (Val.optProp data "query")
      else userMessage)
  ++ Json.newline ++ String.concat Json.newline lines ++ Json.newline
  ++ "（以上为系统自动从聊天记录中检索到的高相关消息，请基于这些证据回答。）".

(** [Agent.runAutoSemanticSearch]: [null] is [None]. *)
Definition runAutoSemanticSearch (userMessage : string) : M (option string) :=
  tryCatch
    (tools <- getAllToolDefinitions ;;
     if negb (hasSemanticSearch tools) then ret None
     else
       uuid <- freshUUID ;;
       let toolCalls :=
         [{| tc_id := "auto-" ++ uuid;
             tc_name := JStr "semantic_search_messages";
             tc_arguments :=
               JSON_stringify rt (JObj [("query", JStr userMessage); ("top_k", JNum 8);
                                        ("candidate_limit", JNum 200)]) |}] in
       results <- executeToolCalls toolCalls ;;
       match hd_error results with
       | None => ret None
       | Some r0 =>
           if negb (success r0) then ret None
           else
             let data := result r0 in
             match Val.optProp data "results" with
             | JArr ((_ :: _) as items) =>
                 match formatItems 0 (firstn 8 items) with
                 | Some lines => ret (Some (autoEvidence userMessage data lines))
                 | None => throw "TypeError"
                 end
             | _ => ret None
             end
       end)
    (ret None).

(** Lines 613-619 and 711-717: the legacy retrieval and the splice of its
    evidence before the last message. *)
Definition autoSemanticStep (userMessage : string) (ranPipeline : bool) : M unit :=
  if negb ranPipeline && shouldAutoSemanticSearch userMessage then
    evidence <- runAutoSemanticSearch userMessage ;;
    match evidence with
    | Some text =>
        if Js.nonEmpty text then
          setAgent (fun a =>
            withMessages (spliceIn (messages a) (Z.of_nat (List.length (messages a)) - 1)
                                   (plainMessage system text)) a)
        else ret tt
    | None => ret tt
    end
  else ret tt.

(** ** Tool dispatch (agent.ts, lines 906-948) *)

Fixpoint recordResults (streaming : bool) (calls : list ToolCall)
  (results : list ToolResult) : M unit :=
  match calls with
  | [] => ret tt
  | tc :: calls' =>
      pushToolUsed (tc_name tc) ;;
      match results with
      | [] => throw "TypeError: cannot read properties of undefined (reading 'success')"
      | r :: results' =>
          onChunkIf streaming (ChunkToolResult (tc_name tc) (reported r)) ;;
          pushMessage {| role := tool; content := toolText r;
                         tool_calls := None; tool_call_id := Some (tc_id tc) |} ;;
          recordResults streaming calls' results'
      end
  end.

(** [Agent.handleToolCalls] *)
Definition handleToolCalls (toolCalls : list ToolCall) (streaming : bool) : M unit :=
  pushMessage {| role := assistant; content := "";
                 tool_calls := Some toolCalls; tool_call_id := None |} ;;
  results <- executeToolCalls toolCalls ;;
  recordResults streaming toolCalls results.

(** ** [Agent.execute] (agent.ts, lines 589-683) *)

Definition finalInstruction : string := "请根据已获取的信息给出回答，不要再调用工具。".

(** Lines 599-606: the transcript and the counters at the start. *)
Definition resetForTurn (userMessage : string) : M unit :=
  e <- getEnv ;;
  setAgent (fun a =>
    withToolRounds 0
      (withToolsUsed []
         (withMessages (plainMessage system (systemPrompt e)
                        :: historyMessages a ++ [plainMessage user userMessage]) a))).

Definition incrementToolRounds : M unit :=
  setAgent (fun a => withToolRounds (toolRounds a + 1) a).

(** The result of lines 596 and 693: literal [[]] and [0]. *)
Definition abortedAtEntry : M AgentResult :=
  a <- getAgent ;;
  ret {| res_content := ""; res_toolsUsed := []; res_toolRounds := 0;
         res_totalUsage := totalUsage a |}.

(** Lines 639-665: the calls to process ([Continue]) or the final answer
    ([Return]). *)
Definition callsOrAnswer (response : ChatResponse)
  : M (Flow (list ToolCall) AgentResult) :=
  let native := resp_tool_calls response in
  if negb (String.eqb (resp_finishReason response) "tool_calls")
     || match native with None => true | Some _ => false end
  then
    if hasToolCallTags (resp_content response) then
      let clean := cleanContent (extractThinkingContent (resp_content response)) in
      fallbackToolCalls <- parseToolCallTags (resp_content response) ;;
      match fallbackToolCalls with
      | Some ((_ :: _) as calls) => ret (Continue calls)
      | _ => r <- resultWith clean ;; ret (Return r)
      end
    else r <- resultWith (resp_content response) ;; ret (Return r)
  else ret (Continue (match native with Some calls => calls | None => [] end)).

(** The [while] loop of lines 621-669: [Continue] when the budget ends it. *)
Fixpoint executeRounds (fuel : nat) (tools : list ToolDefinition)
  : M (Flow unit AgentResult) :=
  match fuel with
  | O => outOfFuel
  | S fuel' =>
      a <- getAgent ;;
      if (toolRounds a <? roundBudget a)%Z then
        aborted <- isAborted "" ;;
        if aborted then r <- resultWith "" ;; ret (Return r)
        else
          a <- getAgent ;;
          response <- chat (messages a) true ;;
          addUsage (resp_usage response) ;;
          decided <- callsOrAnswer response ;;
          match decided with
          | Return r => ret (Return r)
          | Continue toolCallsToProcess =>
              handleToolCalls toolCallsToProcess false ;;
              incrementToolRounds ;;
              executeRounds fuel' tools
          end
      else ret (Continue tt)
  end.

(** Lines 599-619 (and 696-717): the transcript and counters of the turn,
    the tool catalogue, the pipeline and the legacy retrieval. *)
Definition prepareTurn (userMessage : string) (streaming : bool)
  : M (list ToolDefinition) :=
  resetForTurn userMessage ;;
  tools <- getAllToolDefinitions ;;
  ranPipeline <- runSemanticPipeline userMessage tools streaming ;;
  autoSemanticStep userMessage ranPipeline ;;
  ret tools.

(** Lines 671-682: the answer forced when the budget is spent. *)
Definition forcedAnswer : M AgentResult :=
  pushMessage (plainMessage user finalInstruction) ;;
  a <- getAgent ;;
  finalResponse <- chat (messages a) false ;;
  addUsage (resp_usage finalResponse) ;;
  resultWith (resp_content finalResponse).

Definition execute (userMessage : string) : M AgentResult :=
  aborted <- isAborted "" ;;
  if aborted then abortedAtEntry
  else
    tools <- prepareTurn userMessage false ;;
    e <- getEnv ;;
    flow <- executeRounds (S (List.length (chatScript e))) tools ;;
    match flow with
    | Return r => ret r
    | Continue _ => forcedAnswer
    end.

(** ** [Agent.executeStream] (agent.ts, lines 685-904) *)

(** The variables of one round (lines 731-735). *)
Record Scan := {
  accumulatedContent : string;
  displayedContent : string;
  toolCalls : option (list ToolCall);
  isBufferingToolCall : bool;
  isBufferingThink : bool
}.

Definition scanStart : Scan :=
  {| accumulatedContent := ""; displayedContent := ""; toolCalls := None;
     isBufferingToolCall := false; isBufferingThink := false |}.

Definition withAccumulated (text : string) (s : Scan) : Scan :=
  {| accumulatedContent := text; displayedContent := displayedContent s;
     toolCalls := toolCalls s; isBufferingToolCall := isBufferingToolCall s;
     isBufferingThink := isBufferingThink s |}.

Definition withDisplayed (text : string) (s : Scan) : Scan :=
  {| accumulatedContent := accumulatedContent s; displayedContent := text;
     toolCalls := toolCalls s; isBufferingToolCall := isBufferingToolCall s;
     isBufferingThink := isBufferingThink s |}.

Definition withToolCalls (calls : option (list ToolCall)) (s : Scan) : Scan :=
  {| accumulatedContent := accumulatedContent s; displayedContent := displayedContent s;
     toolCalls := calls; isBufferingToolCall := isBufferingToolCall s;
     isBufferingThink := isBufferingThink s |}.

Definition withBufferingToolCall (b : bool) (s : Scan) : Scan :=
  {| accumulatedContent := accumulatedContent s; displayedContent := displayedContent s;
     toolCalls := toolCalls s; isBufferingToolCall := b;
     isBufferingThink := isBufferingThink s |}.

Definition withBufferingThink (b : bool) (s : Scan) : Scan :=
  {| accumulatedContent := accumulatedContent s; displayedContent := displayedContent s;
     toolCalls := toolCalls s; isBufferingToolCall := isBufferingToolCall s;
     isBufferingThink := b |}.

(** Lines 758-764 and 779-785: forward the text before a marker at [start]. *)
Definition forwardBefore (start : Z) (s : Scan) : M Scan :=
  if (Js.len (displayedContent s) <? start)%Z then
    let newContent := Js.slice (accumulatedContent s) (Js.len (displayedContent s)) start in
    if Js.nonEmpty newContent then
      onChunk (ChunkContent newContent) ;;
      ret (withDisplayed (Js.slice (accumulatedContent s) 0 start) s)
    else ret s
  else ret s.

(** Lines 755-765 *)
Definition scanThinkOpen (s : Scan) : M Scan :=
  if negb (isBufferingThink s) && Js.testCI "<think>" (accumulatedContent s) then
    let s := withBufferingThink true s in
    let thinkStart := Js.indexOf (Js.toLowerCase (accumulatedContent s)) "<think>" in
    forwardBefore thinkStart s
  else ret s.

(** Lines 767-771 *)
Definition scanThinkClose (s : Scan) : Scan :=
  if isBufferingThink s && Js.testCI "</think>" (accumulatedContent s) then
    let s := withBufferingThink false s in
    let thinkEnd :=
      (Js.indexOf (Js.toLowerCase (accumulatedContent s)) "</think>" + Js.len "</think>")%Z in
    withDisplayed (Js.slice (accumulatedContent s) 0 thinkEnd) s
  else s.

(** Lines 775-793 *)
Definition scanToolCall (s : Scan) : M Scan :=
  if negb (isBufferingToolCall s) then
    if Js.testCI "<tool_call>" (accumulatedContent s) then
      let s := withBufferingToolCall true s in
      let tagStart := Js.indexOf (accumulatedContent s) "<tool_call>" in
      forwardBefore tagStart s
    else
      let newContent := Js.sliceFrom (accumulatedContent s) (Js.len (displayedContent s)) in
      if Js.nonEmpty newContent then
        onChunk (ChunkContent newContent) ;;
        ret (withDisplayed (accumulatedContent s) s)
      else ret s
  else ret s.

(** Lines 752-794, the body of [if (chunk.content)]: the scan after one
    delta, and whether it left the iteration by [continue]. *)
Definition scanDelta (text : string) (s : Scan) : M (Scan * bool) :=
  let s := withAccumulated (accumulatedContent s ++ text) s in
  s <- scanThinkOpen s ;;
  let s := scanThinkClose s in
  if isBufferingThink s then ret (s, true)
  else s <- scanToolCall s ;; ret (s, false).

(** Lines 804-837: what a finishing delta does. *)
Definition finishDelta (chunk : ChatStreamChunk) (s : Scan)
  : M (Flow Scan AgentResult) :=
  if negb (String.eqb (chunk_finishReason chunk) "tool_calls")
     || match toolCalls s with None => true | Some _ => false end
  then
    if hasToolCallTags (accumulatedContent s) then
      let clean := cleanContent (extractThinkingContent (accumulatedContent s)) in
      fallbackToolCalls <- parseToolCallTags (accumulatedContent s) ;;
      match fallbackToolCalls with
      | Some ((_ :: _) as calls) =>
          ret (Continue
                 (withAccumulated
                    (Js.trim (Js.removeAll "<tool_call>" "</tool_call>" clean))
                    (withToolCalls (Some calls) s)))
      | _ =>
          let remainingContent := Js.sliceFrom clean (Js.len (displayedContent s)) in
          (if Js.nonEmpty remainingContent then onChunk (ChunkContent remainingContent)
           else ret tt) ;;
          emitDone ;;
          r <- resultWith clean ;;
          ret (Return r)
      end
    else
      let finalContent := cleanContent (extractThinkingContent (accumulatedContent s)) in
      emitDone ;;
      r <- resultWith finalContent ;;
      ret (Return r)
  else ret (Continue s).

(** Lines 796-837: the part of an iteration that [continue] skips. *)
Definition settleDelta (chunk : ChatStreamChunk) (s : Scan)
  : M (Flow Scan AgentResult) :=
  let s := match chunk_tool_calls chunk with
           | Some calls => withToolCalls (Some calls) s
           | None => s
           end in
  addUsage (chunk_usage chunk) ;;
  if chunk_isFinished chunk then finishDelta chunk s else ret (Continue s).

(** The [for await] of lines 737-838 over the deltas of one reply. *)
Fixpoint consumeDeltas (chunks : list ChatStreamChunk) (s : Scan)
  : M (Flow Scan AgentResult) :=
  match chunks with
  | [] => ret (Continue s)
  | chunk :: rest =>
      log (EvDelta chunk) ;;
      aborted <- isAborted (accumulatedContent s) ;;
      if aborted then
        emitDone ;;
        r <- resultWith ("" ++ accumulatedContent s) ;;
        ret (Return r)
      else
        scanned <- (if Js.nonEmpty (chunk_content chunk)
                    then scanDelta (chunk_content chunk) s
                    else ret (s, false)) ;;
        let '(s, skipped) := scanned in
        if skipped then consumeDeltas rest s
        else
          settled <- settleDelta chunk s ;;
          match settled with
          | Return r => ret (Return r)
          | Continue s => consumeDeltas rest s
          end
  end.

Definition toolsWithLimit : list string :=
  ["search_messages"; "get_recent_messages"; "get_conversation_between"].

(** Lines 842-859: the parameters shown in a [tool_start] chunk. *)
Definition shownParams (ctx : ToolContext) (tc : ToolCall) : JsVal :=
  match JSON_parse rt (if Js.nonEmpty (tc_arguments tc) then tc_arguments tc else "{}") with
  | None => JUndefined
  | Some params =>
      let params :=
        match maxMessagesLimit ctx with
        | Some limit =>
            if negb (limit =? 0)%Z
               && existsb (fun n => Val.isStr (tc_name tc) n) toolsWithLimit
            then Val.spread params "limit" (JNum limit)
            else params
        | None => params
        end in
      match timeFilter ctx with
      | Some filter =>
          if Val.truthy filter
             && (Val.isStr (tc_name tc) "search_messages"
                 || Val.isStr (tc_name tc) "get_recent_messages")
          then Val.spread params "_timeFilter" filter
          else params
      | None => params
      end
  end.

Fixpoint announceCalls (ctx : ToolContext) (calls : list ToolCall) : M unit :=
  match calls with
  | [] => ret tt
  | tc :: rest =>
      onChunk (ChunkToolStart (tc_name tc) (shownParams ctx tc)) ;;
      announceCalls ctx rest
  end.

(** Lines 840-865: announce and dispatch the calls the round ended with. *)
Definition dispatchStreamed (found : option (list ToolCall)) : M unit :=
  match found with
  | Some ((_ :: _) as calls) =>
      a <- getAgent ;;
      announceCalls (context a) calls ;;
      handleToolCalls calls true ;;
      incrementToolRounds
  | _ => ret tt
  end.

(** The [while] loop of lines 720-866: [Continue] when the budget ends it. *)
Fixpoint streamRounds (fuel : nat) (tools : list ToolDefinition)
  : M (Flow unit AgentResult) :=
  match fuel with
  | O => outOfFuel
  | S fuel' =>
      a <- getAgent ;;
      if (toolRounds a <? roundBudget a)%Z then
        aborted <- isAborted "" ;;
        if aborted then
          emitDone ;;
          r <- resultWith "" ;;
          ret (Return r)
        else
          a <- getAgent ;;
          reply <- chatStream (messages a) true ;;
          consumed <- consumeDeltas (deltas reply) scanStart ;;
          match consumed with
          | Return r => ret (Return r)
          | Continue s =>
              (if fails reply then throw "chatStream rejected" else ret tt) ;;
              dispatchStreamed (toolCalls s) ;;
              streamRounds fuel' tools
          end
      else ret (Continue tt)
  end.

(** The [for await] of lines 882-896: the text collected, and whether the
    loop was left by [break]. *)
Fixpoint consumeFinal (chunks : list ChatStreamChunk) (finalContent : string)
  : M (string * bool) :=
  match chunks with
  | [] => ret (finalContent, false)
  | chunk :: rest =>
      log (EvDelta chunk) ;;
      aborted <- isAborted finalContent ;;
      if aborted then
        emitDone ;;
        ret (finalContent, true)
      else
        let finalContent := if Js.nonEmpty (chunk_content chunk)
                            then finalContent ++ chunk_content chunk
                            else finalContent in
        (if Js.nonEmpty (chunk_content chunk)
         then onChunk (ChunkContent (chunk_content chunk)) else ret tt) ;;
        addUsage (chunk_usage chunk) ;;
        (if chunk_isFinished chunk then emitDone else ret tt) ;;
        consumeFinal rest finalContent
  end.

(** Lines 870-903: the streamed answer forced when the budget is spent. *)
Definition forcedStream : M AgentResult :=
  aborted <- isAborted "" ;;
  if aborted then
    emitDone ;;
    resultWith ""
  else
    pushMessage (plainMessage user finalInstruction) ;;
    a <- getAgent ;;
    reply <- chatStream (messages a) false ;;
    collected <- consumeFinal (deltas reply) "" ;;
    let '(finalContent, broke) := collected in
    (if negb broke && fails reply then throw "chatStream rejected" else ret tt) ;;
    resultWith finalContent.

Definition executeStream (userMessage : string) : M AgentResult :=
  aborted <- isAborted "" ;;
  if aborted then
    emitDone ;;
    abortedAtEntry
  else
    tools <- prepareTurn userMessage true ;;
    e <- getEnv ;;
    flow <- streamRounds (S (List.length (streamScript e))) tools ;;
    match flow with
    | Return r => ret r
    | Continue _ => forcedStream
    end.

End AgentCode.

(** ** The convenience functions (agent.ts, lines 951-978) *)

(** [runAgent(userMessage, context, config, historyMessages, chatType)]: a
    new agent, then [execute].  An omitted [config] is a configuration without
    [maxToolRounds], an omitted history is the empty list; [chatType] only
    reaches the system prompt, which the environment supplies. *)
Definition runAgent (rt : Runtime) (userMessage : string) (ctx : ToolContext)
  (cfg : AgentConfig) (history : list ChatMessage) (e : Env)
  : Outcome AgentResult * St :=
  execute rt userMessage {| agent := newAgent ctx cfg history; env := e; trace := [] |}.

(** [runAgentStream(userMessage, context, onChunk, config, historyMessages,
    chatType)] *)
Definition runAgentStream (rt : Runtime) (userMessage : string) (ctx : ToolContext)
  (cfg : AgentConfig) (history : list ChatMessage) (e : Env)
  : Outcome AgentResult * St :=
  executeStream rt userMessage {| agent := newAgent ctx cfg history; env := e; trace := [] |}.

(** * The vocabulary of the properties *)

Open Scope list_scope.

Class Frame (R : St -> St -> Prop) : Prop := {
  frame_refl : forall st, R st st;
  frame_trans : forall a b c, R a b -> R b c -> R a c
}.

Definition preserves (R : St -> St -> Prop) {A} (m : M A) : Prop :=
  forall st, R st (snd (m st)).

Definition total {A} (m : M A) : Prop := forall st, fst (m st) <> OutOfFuel.

Definition usageOf (e : Event) : TokenUsage :=
  match e with EvUsage u => u | _ => zeroUsage end.

(** The usage added to the total over a stretch of the trace. *)
Fixpoint usageSum (events : list Event) : TokenUsage :=
  match events with
  | [] => zeroUsage
  | e :: rest => plusUsage (usageOf e) (usageSum rest)
  end.

(** The usage records the model transport handed over, replies and deltas. *)
Fixpoint deliveredUsage (events : list Event) : TokenUsage :=
  match events with
  | [] => zeroUsage
  | EvChat _ _ (Some r) :: rest =>
      plusUsage (match resp_usage r with Some u => u | None => zeroUsage end)
                (deliveredUsage rest)
  | EvDelta c :: rest =>
      plusUsage (match chunk_usage c with Some u => u | None => zeroUsage end)
                (deliveredUsage rest)
  | _ :: rest => deliveredUsage rest
  end.

Definition isAbortCheck (e : Event) : bool :=
  match e with EvAbortCheck _ _ => true | _ => false end.

Definition isAbortSeen (e : Event) : bool :=
  match e with EvAbortCheck true _ => true | _ => false end.

Definition isDoneEmit (e : Event) : bool :=
  match e with EvEmit (ChunkDone _) => true | _ => false end.

(** A call to the model transport or to the tool runtime. *)
Definition isCall (e : Event) : bool :=
  match e with
  | EvChat _ _ _ | EvStreamOpen _ _ | EvDelta _ | EvToolExec _ _ => true
  | _ => false
  end.

Record Quiet (st st' : St) : Prop := {
  q_trace :
    exists events,
      trace st' = trace st ++ events
      /\ Forall (fun e => isAbortCheck e = false) events
      /\ totalUsage (agent st') = plusUsage (totalUsage (agent st)) (usageSum events);
  q_config : config (agent st') = config (agent st);
  q_rounds : toolRounds (agent st') = toolRounds (agent st);
  q_chatScript :
    (List.length (chatScript (env st')) <= List.length (chatScript (env st)))%nat;
  q_streamScript :
    (List.length (streamScript (env st')) <= List.length (streamScript (env st)))%nat
}.

(** The trace grows by events that are not reads of the abort signal, the
    total grows by the usage among them, the configuration stays. *)
Record Mild (st st' : St) : Prop := {
  m_trace :
    exists events,
      trace st' = trace st ++ events
      /\ Forall (fun e => isAbortCheck e = false) events
      /\ totalUsage (agent st') = plusUsage (totalUsage (agent st)) (usageSum events);
  m_config : config (agent st') = config (agent st)
}.

(** The configuration and the round counter stay, the scripts only shrink. *)
Record Steady (st st' : St) : Prop := {
  s_config : config (agent st') = config (agent st);
  s_rounds : toolRounds (agent st') = toolRounds (agent st);
  s_chatScript :
    (List.length (chatScript (env st')) <= List.length (chatScript (env st)))%nat;
  s_streamScript :
    (List.length (streamScript (env st')) <= List.length (streamScript (env st)))%nat
}.

(** The total grows by the usage of the replies and deltas in the trace. *)
Definition Counted (st st' : St) : Prop :=
  exists events,
    trace st' = trace st ++ events
    /\ totalUsage (agent st') = plusUsage (totalUsage (agent st)) (deliveredUsage events).

(** What the rewrite call leaves alone. *)
Record Aside (st st' : St) : Prop := {
  a_messages : messages (agent st') = messages (agent st);
  a_toolsUsed : toolsUsed (agent st') = toolsUsed (agent st);
  a_toolRounds : toolRounds (agent st') = toolRounds (agent st);
  a_context : context (agent st') = context (agent st);
  a_runtime : toolRuntime (env st') = toolRuntime (env st);
  a_catalog : toolCatalog (env st') = toolCatalog (env st)
}.

(** Steps that leave the agent alone. *)
Record Untouched (st st' : St) : Prop := {
  u_agent : agent st' = agent st;
  u_runtime : toolRuntime (env st') = toolRuntime (env st);
  u_catalog : toolCatalog (env st') = toolCatalog (env st)
}.

Definition nextAbort (st : St) : bool :=
  match abortScript (env st) with b :: _ => b | [] => false end.

Definition afterAbortCheck (held : string) (st : St) : St :=
  {| agent := agent st;
     env := withAbortScript (tl (abortScript (env st))) (env st);
     trace := trace st ++ [EvAbortCheck (nextAbort st) held] |}.

Definition afterReset (userMessage : string) (st : St) : St :=
  {| agent :=
       withToolRounds 0
         (withToolsUsed []
            (withMessages (plainMessage system (systemPrompt (env st))
                           :: historyMessages (agent st)
                              ++ [plainMessage user userMessage]) (agent st)));
     env := env st;
     trace := trace st |}.

Definition budgetBound (st : St) : Z := Z.max 0 (roundBudget (agent st)).

Definition Faithful {L} (o : Outcome (Flow L AgentResult)) (st : St) : Prop :=
  match o with
  | Ok (Return r) =>
      res_toolsUsed r = toolsUsed (agent st)
      /\ res_toolRounds r = toolRounds (agent st)
      /\ res_totalUsage r = totalUsage (agent st)
  | _ => True
  end.

Definition faithful {L} (m : M (Flow L AgentResult)) : Prop :=
  forall st, Faithful (fst (m st)) (snd (m st)).

(** Since [st0] no read of the signal gave [true]. *)
Definition Calm (st0 st : St) : Prop :=
  exists events,
    trace st = trace st0 ++ events
    /\ Forall (fun e => isAbortSeen e = false) events
    /\ totalUsage (agent st) = plusUsage (totalUsage (agent st0)) (usageSum events).

(** Since [st0] one read gave [true], with [held] in the content variables;
    nothing but [done] chunks followed, and the total is what it was then. *)
Definition Stopped (st0 st : St) (held : string) : Prop :=
  exists before after,
    trace st = trace st0 ++ before ++ EvAbortCheck true held :: after
    /\ Forall (fun e => isAbortSeen e = false) before
    /\ Forall (fun e => isDoneEmit e = true) after
    /\ totalUsage (agent st) = plusUsage (totalUsage (agent st0)) (usageSum before).

Definition Halted (st0 st : St) (r : AgentResult) : Prop :=
  Stopped st0 st (res_content r) /\ res_totalUsage r = totalUsage (agent st).

Definition Shape (st0 : St) {L} (o : Outcome (Flow L AgentResult)) (st : St) : Prop :=
  match o with
  | Ok (Return r) => Calm st0 st \/ Halted st0 st r
  | _ => Calm st0 st
  end.

Definition shaped {L} (m : M (Flow L AgentResult)) : Prop :=
  forall st0 st, Calm st0 st -> Shape st0 (fst (m st)) (snd (m st)).

Definition TopShape (st0 : St) (o : Outcome AgentResult) (st : St) : Prop :=
  match o with
  | Ok r => Calm st0 st \/ Halted st0 st r
  | _ => Calm st0 st
  end.

(** The text chunks handed to the consumer, in order. *)
Definition forwarded (events : list Event) : list string :=
  flat_map (fun e => match e with EvEmit (ChunkContent t) => [t] | _ => [] end) events.

(** The buffer without its completed thinking spans and tool-call spans. *)
Definition visibleText (buffer : string) : string :=
  Js.removeAll "<tool_call>" "</tool_call>" (Js.removeAll "<think>" "</think>" buffer).

Section Vocabulary.

Variable rt : Runtime.

Definition forcedCall (plan : Plan) (uuid : string) : ToolCall :=
  {| tc_id := "semantic-" ++ uuid;
     tc_name := JStr "semantic_search_messages";
     tc_arguments := JSON_stringify rt (planObject plan) |}.

Definition forcedAssistant (plan : Plan) (uuid : string) : ChatMessage :=
  {| role := assistant; content := ""; tool_calls := Some [forcedCall plan uuid];
     tool_call_id := None |}.

Definition forcedToolMessage (uuid : string) (first : option ToolResult) : ChatMessage :=
  {| role := tool; content := toolTextFirst rt first; tool_calls := None;
     tool_call_id := Some ("semantic-" ++ uuid)%string |}.

Definition assistantWith (calls : list ToolCall) : ChatMessage :=
  {| role := assistant; content := ""; tool_calls := Some calls; tool_call_id := None |}.

Definition toolMessage (tc : ToolCall) (r : ToolResult) : ChatMessage :=
  {| role := tool; content := toolText rt r; tool_calls := None;
     tool_call_id := Some (tc_id tc) |}.

Definition autoCall (userMessage uuid : string) : ToolCall :=
  {| tc_id := "auto-" ++ uuid;
     tc_name := JStr "semantic_search_messages";
     tc_arguments :=
       JSON_stringify rt (JObj [("query", JStr userMessage); ("top_k", JNum 8);
                                ("candidate_limit", JNum 200)]) |}.

(** What the blocks of a text contribute to the calls of the fallback
    parser: the name and the argument text of every block that yields a
    call, in the order of the blocks. *)
Definition validBlocks (blocks : list string) : list (JsVal * string) :=
  flat_map (fun b => match parseBlock rt b with Some x => [x] | None => [] end) blocks.

End Vocabulary.

(** ** Texts, calls and transcripts *)

(** The characters of [s] are white space. *)
Fixpoint allWhite (s : string) : bool :=
  match s with
  | EmptyString => true
  | String c r => Js.isWhiteSpace c && allWhite r
  end.

(** Every character of [s] is a 7-bit character. *)
Fixpoint allAscii (s : string) : bool :=
  match s with
  | EmptyString => true
  | String c r => (nat_of_ascii c <? 128)%nat && allAscii r
  end.

(** [c] occurs in [s]. *)
Fixpoint occurs (c : ascii) (s : string) : bool :=
  match s with
  | EmptyString => false
  | String d r => Ascii.eqb c d || occurs c r
  end.

(** The two messages of the rewrite call (lines 404-407). *)
Definition rewriteMessages (userMessage : string) : list ChatMessage :=
  [plainMessage system rewriteSystem; plainMessage user (rewriteUser userMessage)].

(** The plan before the rewrite call (lines 398-400). *)
Definition fallbackPlan (userMessage : string) : Plan :=
  {| query := userMessage; top_k := 5; candidate_limit := 200 |}.

(** The reply the next blocking model call gets; [None] is a rejection. *)
Definition nextReply (st : St) : option ChatResponse :=
  match chatScript (env st) with r :: _ => r | [] => None end.

(** What [addUsage] adds for a reply. *)
Definition replyUsage (reply : option ChatResponse) : TokenUsage :=
  match reply with
  | Some r => match resp_usage r with Some u => u | None => zeroUsage end
  | None => zeroUsage
  end.

(** The trace of that addition. *)
Definition usageEvents (reply : option ChatResponse) : list Event :=
  match reply with
  | Some r => match resp_usage r with Some u => [EvUsage u] | None => [] end
  | None => []
  end.

(** The state after a blocking model call. *)
Definition afterChat (sent : list ChatMessage) (withTools : bool) (st : St) : St :=
  {| agent := agent st;
     env := withChatScript (tl (chatScript (env st))) (env st);
     trace := trace st ++ [EvChat sent withTools (nextReply st)] |}.

(** Whether [getEmbeddingModel] gives a model. *)
Definition pipelineEnabled (st : St) : bool :=
  match embeddingModel (env st) with
  | Some m => Js.nonEmpty (Js.trim m)
  | None => false
  end.

(** The trace of [if (onChunk) onChunk(chunk)]. *)
Definition bracket (streaming : bool) (chunk : AgentStreamChunk) : list Event :=
  if streaming then [EvEmit chunk] else [].

(** The [tool_result] chunks of a dispatch, one per call that got a result. *)
Definition resultChunks (streaming : bool) (calls : list ToolCall)
  (results : list ToolResult) : list Event :=
  if streaming
  then map (fun p => EvEmit (ChunkToolResult (tc_name (fst p)) (reported (snd p))))
           (combine calls results)
  else [].

(** A blocking model call, a tool run, a stream opened. *)
Definition isChat (e : Event) : bool :=
  match e with EvChat _ _ _ => true | _ => false end.

Definition isToolRun (e : Event) : bool :=
  match e with EvToolExec _ _ => true | _ => false end.

Definition isStreamOpen (e : Event) : bool :=
  match e with EvStreamOpen _ _ => true | _ => false end.

(** The blocking model calls and the tool runs over a stretch of the trace. *)
Definition chatCalls (events : list Event) : nat := List.length (filter isChat events).
Definition toolRuns (events : list Event) : nat := List.length (filter isToolRun events).

(** The trace grows by at most [c] model calls and [t] tool runs. *)
Definition Spent (c t : nat) (st st' : St) : Prop :=
  exists events,
    trace st' = trace st ++ events
    /\ (chatCalls events <= c)%nat /\ (toolRuns events <= t)%nat.

(** Steps that call neither the model nor the tools and keep the
    configuration and the round counter. *)
Record Internal (st st' : St) : Prop := {
  i_trace : exists events,
      trace st' = trace st ++ events /\ Forall (fun e => isCall e = false) events;
  i_config : config (agent st') = config (agent st);
  i_rounds : toolRounds (agent st') = toolRounds (agent st)
}.

(** The rounds the budget still allows. *)
Definition roundsLeft (st : St) : nat :=
  Z.to_nat (roundBudget (agent st) - toolRounds (agent st)).

(** The text of the deltas of a reply, in order. *)
Definition textOf (chunks : list ChatStreamChunk) : string :=
  String.concat "" (map chunk_content chunks).

(** The reply the next streaming model call gets. *)
Definition nextStream (st : St) : StreamScript :=
  match streamScript (env st) with
  | r :: _ => r
  | [] => {| deltas := []; fails := true |}
  end.

(** The state after a stream was opened. *)
Definition afterStream (sent : list ChatMessage) (withTools : bool) (st : St) : St :=
  {| agent := agent st;
     env := withStreamScript (tl (streamScript (env st))) (env st);
     trace := trace st ++ [EvStreamOpen sent withTools] |}.

(** The scan between two deltas of a reply without markers: all of the
    buffer was forwarded and no span is open. *)
Definition settled (s : Scan) : Prop :=
  displayedContent s = accumulatedContent s
  /\ isBufferingThink s = false /\ isBufferingToolCall s = false.

(** Such a scan after one more delta with text. *)
Definition scanAfter (text : string) (s : Scan) : Scan :=
  {| accumulatedContent := accumulatedContent s ++ text;
     displayedContent := accumulatedContent s ++ text;
     toolCalls := toolCalls s;
     isBufferingToolCall := false;
     isBufferingThink := false |}.

(** The agent is as it was, up to the usage total. *)
Definition sameButUsage (a b : Agent) : Prop :=
  b = withTotalUsage (totalUsage b) a.

(** Steps that make no blocking model call and run no tool, and keep the
    configuration and the round counter. *)
Record Offline (st st' : St) : Prop := {
  o_trace : exists events,
      trace st' = trace st ++ events
      /\ Forall (fun e => isChat e = false /\ isToolRun e = false) events;
  o_config : config (agent st') = config (agent st);
  o_rounds : toolRounds (agent st') = toolRounds (agent st)
}.

(** The transcript starts with [head] and holds [u] after it. *)
Definition headed (head : list ChatMessage) (u : ChatMessage) (st : St) : Prop :=
  exists tail, messages (agent st) = head ++ tail /\ In u tail.

(** A head of the transcript that is followed by a user message stays. *)
Definition Keeps (st st' : St) : Prop :=
  forall head u, isUser u = true -> headed head u st -> headed head u st'.

(** The rounds a configuration allows: [maxToolRounds ?? 5], no round when
    it is negative. *)
Definition allowedRounds (cfg : AgentConfig) : nat :=
  match maxToolRounds cfg with
  | Some n => Z.to_nat (Z.max 0 n)
  | None => 5
  end.

(** A returned result comes right after a [done] chunk that carries its
    usage total. *)
Definition Closing {L} (o : Outcome (Flow L AgentResult)) (st : St) : Prop :=
  match o with
  | Ok (Return r) =>
      exists before, trace st = before ++ [EvEmit (ChunkDone (res_totalUsage r))]
  | _ => True
  end.

Definition closing {L} (m : M (Flow L AgentResult)) : Prop :=
  forall st, Closing (fst (m st)) (snd (m st)).

(** * Sample collaborators *)

Definition nodeRuntime : Runtime :=
  {| JSON_parse := Json.parse;
     JSON_stringify := Json.stringify;
     JSON_stringifyPretty := Json.stringifyPretty;
     randomUUID := fun n => ("uuid-" ++ Val.numberToString (Z.of_nat n))%string |}.

Definition tokens (p c : Z) : TokenUsage :=
  {| promptTokens := p; completionTokens := c; totalTokens := p + c |}.

(** A blocking reply that ends the turn. *)
Definition answer (text : string) (u : option TokenUsage) : ChatResponse :=
  {| resp_content := text; resp_tool_calls := None; resp_finishReason := "stop";
     resp_usage := u |}.

(** A blocking reply that asks for one native tool call. *)
Definition askRecent (u : option TokenUsage) : ChatResponse :=
  {| resp_content := "";
     resp_tool_calls :=
       Some [{| tc_id := "call-1"; tc_name := JStr "get_recent_messages";
                tc_arguments := dq "{'limit':10}" |}];
     resp_finishReason := "tool_calls";
     resp_usage := u |}.

Definition delta (text : string) : ChatStreamChunk :=
  {| chunk_content := text; chunk_tool_calls := None; chunk_usage := None;
     chunk_isFinished := false; chunk_finishReason := "" |}.

Definition deltaWithUsage (text : string) (u : TokenUsage) : ChatStreamChunk :=
  {| chunk_content := text; chunk_tool_calls := None; chunk_usage := Some u;
     chunk_isFinished := false; chunk_finishReason := "" |}.

Definition stopDelta (u : option TokenUsage) : ChatStreamChunk :=
  {| chunk_content := ""; chunk_tool_calls := None; chunk_usage := u;
     chunk_isFinished := true; chunk_finishReason := "stop" |}.

Definition streamed (chunks : list ChatStreamChunk) : StreamScript :=
  {| deltas := chunks; fails := false |}.

Definition foundMessages : ToolResult :=
  {| success := true;
     result := JObj [("query", JStr "trip");
                     ("results", JArr [JObj [("score", JNum 1);
                                             ("message", JStr "see you at nine")]])];
     error := None |}.

Definition quietEnv : Env :=
  {| embeddingModel := None;
     toolCatalog := Some [{| def_name := "get_recent_messages" |};
                          {| def_name := "semantic_search_messages" |}];
     toolRuntime := fun calls => map (fun _ => foundMessages) calls;
     chatScript := [];
     streamScript := [];
     abortScript := [];
     uuidCounter := 0;
     systemPrompt := "You analyse chat records." |}.

Definition noContext : ToolContext := {| maxMessagesLimit := None; timeFilter := None |}.

(** A state with a newly constructed agent. *)
Definition freshState (budget : option Z) (e : Env) : St :=
  {| agent := newAgent noContext {| maxToolRounds := budget |} [];
     env := e;
     trace := [] |}.

Definition embeddingEnv : Env :=
  {| embeddingModel := Some "text-embedding-3-small";
     toolCatalog := toolCatalog quietEnv;
     toolRuntime := toolRuntime quietEnv;
     chatScript := [Some (answer (dq "{'query':'trip plans','top_k':100}")
                             (Some (tokens 40 12)))];
     streamScript := [];
     abortScript := [];
     uuidCounter := 0;
     systemPrompt := systemPrompt quietEnv |}.

Definition cancelledState : St :=
  freshState None
    (withAbortScript [false; false; false; true]
       (withStreamScript
          [streamed [delta "Hello "; delta "world"; stopDelta None]] quietEnv)).

Definition thinkingState : St :=
  freshState None
    (withStreamScript
       [streamed [delta "<think>a</think>"; delta "b"; delta "c"; stopDelta None]]
       quietEnv).

Definition usageInThinkingState : St :=
  freshState None
    (withStreamScript
       [streamed [deltaWithUsage "<think>plan" (tokens 7 0);
                  delta "</think>ok";
                  stopDelta (Some (tokens 0 3))]]
       quietEnv).

Definition thinkingReplyState : St :=
  freshState None
    (withChatScript [Some (answer "<think>reasoning</think>Here is the answer." None)]
       quietEnv).

Definition twoTurnsState : St :=
  freshState None
    (withChatScript [Some (answer "one" (Some (tokens 10 5)));
                     Some (answer "two" (Some (tokens 20 7)))]
       quietEnv).

(** A streamed reply that asks for one native tool call. *)
Definition askRecentDelta : ChatStreamChunk :=
  {| chunk_content := "";
     chunk_tool_calls :=
       Some [{| tc_id := "call-1"; tc_name := JStr "get_recent_messages";
                tc_arguments := dq "{'limit':10}" |}];
     chunk_usage := None; chunk_isFinished := true; chunk_finishReason := "tool_calls" |}.

(** A budget of one round, and an abort signal raised while the tools of
    that round run: the two reads [execute] makes up to there give [false],
    any later read gives [true]. *)
Definition lateCancelState : St :=
  freshState (Some 1%Z)
    (withAbortScript [false; false; true]
       (withChatScript [Some (askRecent None); Some (answer "late" None)] quietEnv)).

(** The same on the streaming path, which reads the signal once more, on the
    delta of the round. *)
Definition lateCancelStreamState : St :=
  freshState (Some 1%Z)
    (withAbortScript [false; false; false; true]
       (withStreamScript [streamed [askRecentDelta]; streamed [delta "late"; stopDelta None]]
          quietEnv)).

(** * Examples of the primitives *)

Example toLowerCase_mixed : Js.toLowerCase "<THINK>a</Think>" = "<think>a</think>".
Proof. reflexivity. Qed.

Example trim_both : Js.trim "  a b
 " = "a b".
Proof. reflexivity. Qed.

Example slice_tail : Js.sliceFrom "<think>a</think>bc" 16 = "bc".
Proof. reflexivity. Qed.

Example matchAll_two :
  Js.matchAll "<think>" "</think>" "x<think>a</think>y<THINK>b</think>z"
  = [("<think>a</think>", "a"); ("<THINK>b</think>", "b")].
Proof. reflexivity. Qed.

Example removeAll_two :
  Js.removeAll "<think>" "</think>" "x<think>a</think>y<THINK>b</think>z" = "xyz".
Proof. reflexivity. Qed.

Example parse_call :
  Json.parse (dq "{'name':'get_recent_messages','arguments':{'limit':10}}")
  = Some (JObj [("name", JStr "get_recent_messages"); ("arguments", JObj [("limit", JNum 10)])]).
Proof. reflexivity. Qed.

Example parse_garbage : Json.parse "garbage" = None.
Proof. reflexivity. Qed.

Example stringify_args :
  Json.stringify (JObj [("limit", JNum 10); ("q", JStr "a b")]) = dq "{'limit':10,'q':'a b'}".
Proof. reflexivity. Qed.

Example extractThinking_scenario :
  cleanContent (extractThinkingContent "<think>reasoning</think>Here is the answer.")
  = "Here is the answer.".
Proof. reflexivity. Qed.


(** * Reasoning about executions *)

(** ** Relations that every step of a computation keeps *)

Lemma bind_run {A B} (m : M A) (f : A -> M B) (st : St) :
  bind m f st =
  match m st with
  | (Ok a, st') => f a st'
  | (Throw e, st') => (Throw e, st')
  | (OutOfFuel, st') => (OutOfFuel, st')
  end.
Proof. reflexivity. Qed.

Section FrameRules.

Context {R : St -> St -> Prop} {FR : Frame R}.

Lemma preserves_ret {A} (a : A) : preserves R (ret a).
Proof. intro st. apply frame_refl. Qed.

Lemma preserves_throw {A} (e : string) : preserves R (@throw A e).
Proof. intro st. apply frame_refl. Qed.

Lemma preserves_outOfFuel {A} : preserves R (@outOfFuel A).
Proof. intro st. apply frame_refl. Qed.

Lemma preserves_getAgent : preserves R getAgent.
Proof. intro st. apply frame_refl. Qed.

Lemma preserves_getEnv : preserves R getEnv.
Proof. intro st. apply frame_refl. Qed.

Lemma preserves_bind {A B} (m : M A) (f : A -> M B) :
  preserves R m -> (forall a, preserves R (f a)) -> preserves R (bind m f).
Proof.
  intros Hm Hf st. rewrite bind_run. specialize (Hm st).
  destruct (m st) as [[a | e |] st1]; simpl in *; auto.
  eapply frame_trans; [exact Hm | apply Hf].
Qed.

Lemma preserves_tryCatch {A} (m h : M A) :
  preserves R m -> preserves R h -> preserves R (tryCatch m h).
Proof.
  intros Hm Hh st. unfold tryCatch. specialize (Hm st).
  destruct (m st) as [[a | e |] st1]; simpl in *; auto.
  eapply frame_trans; [exact Hm | apply Hh].
Qed.

End FrameRules.

Create HintDb frame.

Ltac frame_step :=
  lazymatch goal with
  | |- preserves _ (bind _ _) => apply preserves_bind; [ | intros ]
  | |- preserves _ (ret _) => apply preserves_ret
  | |- preserves _ (throw _) => apply preserves_throw
  | |- preserves _ outOfFuel => apply preserves_outOfFuel
  | |- preserves _ getAgent => apply preserves_getAgent
  | |- preserves _ getEnv => apply preserves_getEnv
  | |- preserves _ (tryCatch _ _) => apply preserves_tryCatch
  | |- preserves _ (let _ := _ in _) => cbv zeta
  | |- preserves _ (match ?x with _ => _ end) => destruct x
  end.

Ltac frame := repeat (first [ solve [eauto with frame] | frame_step ]).

(** ** Usage arithmetic *)

Lemma plusUsage_zero_r (a : TokenUsage) : plusUsage a zeroUsage = a.
Proof. destruct a; unfold plusUsage; simpl; f_equal; lia. Qed.

Lemma plusUsage_zero_l (a : TokenUsage) : plusUsage zeroUsage a = a.
Proof. destruct a; unfold plusUsage; simpl; f_equal. Qed.

Lemma plusUsage_assoc (a b c : TokenUsage) :
  plusUsage (plusUsage a b) c = plusUsage a (plusUsage b c).
Proof. unfold plusUsage; simpl; f_equal; lia. Qed.

Lemma usageSum_app (a b : list Event) :
  usageSum (a ++ b) = plusUsage (usageSum a) (usageSum b).
Proof.
  induction a as [| e a IH]; simpl.
  - now rewrite plusUsage_zero_l.
  - now rewrite IH, plusUsage_assoc.
Qed.

(** ** Steps that neither read the abort signal nor count a round *)

#[export] Instance Quiet_Frame : Frame Quiet.
Proof.
  split.
  - intro st. split; auto.
    exists []. rewrite app_nil_r. simpl. rewrite plusUsage_zero_r. auto.
  - intros a b c [[e1 [T1 [F1 U1]]] C1 R1 L1 S1] [[e2 [T2 [F2 U2]]] C2 R2 L2 S2].
    split; try congruence; try lia.
    exists (e1 ++ e2). repeat split.
    + now rewrite T2, T1, app_assoc.
    + apply Forall_app; auto.
    + now rewrite U2, U1, usageSum_app, plusUsage_assoc.
Qed.

(** A step that only appends events which are not reads of the signal and
    carry no usage. *)
Lemma Quiet_log (e : Event) (st : St) :
  isAbortCheck e = false -> usageOf e = zeroUsage ->
  Quiet st (snd (log e st)).
Proof.
  intros He Hu. split; simpl; auto.
  exists [e]. repeat split; auto. simpl. rewrite Hu.
  now rewrite plusUsage_zero_l, plusUsage_zero_r.
Qed.

Lemma quiet_onChunk (c : AgentStreamChunk) : preserves Quiet (onChunk c).
Proof. intro st. now apply Quiet_log. Qed.

Lemma quiet_onChunkIf (b : bool) (c : AgentStreamChunk) : preserves Quiet (onChunkIf b c).
Proof. destruct b; [apply quiet_onChunk | apply preserves_ret]. Qed.

Lemma quiet_logDelta (c : ChatStreamChunk) : preserves Quiet (log (EvDelta c)).
Proof. intro st. now apply Quiet_log. Qed.

Lemma Quiet_steady (st st' : St) :
  trace st' = trace st ->
  totalUsage (agent st') = totalUsage (agent st) ->
  config (agent st') = config (agent st) ->
  toolRounds (agent st') = toolRounds (agent st) ->
  (List.length (chatScript (env st')) <= List.length (chatScript (env st)))%nat ->
  (List.length (streamScript (env st')) <= List.length (streamScript (env st)))%nat ->
  Quiet st st'.
Proof.
  intros T U C R L S. split; auto.
  exists []. rewrite app_nil_r. simpl. rewrite plusUsage_zero_r. auto.
Qed.

Lemma quiet_pushMessage (m : ChatMessage) : preserves Quiet (pushMessage m).
Proof. intro st. apply Quiet_steady; simpl; auto. Qed.

Lemma quiet_pushToolUsed (n : JsVal) : preserves Quiet (pushToolUsed n).
Proof. intro st. apply Quiet_steady; simpl; auto. Qed.

Lemma quiet_setMessages (f : Agent -> list ChatMessage) :
  preserves Quiet (setAgent (fun a => withMessages (f a) a)).
Proof. intro st. apply Quiet_steady; simpl; auto. Qed.

Lemma quiet_emitDone : preserves Quiet emitDone.
Proof. unfold emitDone. apply preserves_bind; [apply preserves_getAgent | intro; apply quiet_onChunk]. Qed.

Lemma quiet_resultWith (text : string) : preserves Quiet (resultWith text).
Proof. unfold resultWith. frame. Qed.

Lemma quiet_addUsage (u : option TokenUsage) : preserves Quiet (addUsage u).
Proof.
  destruct u as [u |]; [| apply preserves_ret].
  intro st. split; simpl; auto.
  exists [EvUsage u]. repeat split; auto. simpl. now rewrite plusUsage_zero_r.
Qed.

Lemma tl_length_le {A} (l : list A) : (List.length (tl l) <= List.length l)%nat.
Proof. destruct l; simpl; lia. Qed.

Lemma quiet_chat (sent : list ChatMessage) (withTools : bool) :
  preserves Quiet (chat sent withTools).
Proof.
  intro st. unfold chat. cbn.
  destruct (match chatScript (env st) with r :: _ => r | [] => None end); cbn;
    (split; simpl; auto using tl_length_le;
     eexists [_]; repeat split; auto; simpl;
     now rewrite plusUsage_zero_l, plusUsage_zero_r).
Qed.

Lemma quiet_chatStream (sent : list ChatMessage) (withTools : bool) :
  preserves Quiet (chatStream sent withTools).
Proof.
  intro st. unfold chatStream. cbn.
  split; simpl; auto using tl_length_le.
  eexists [_]. repeat split; auto. simpl.
  now rewrite plusUsage_zero_l, plusUsage_zero_r.
Qed.

Lemma quiet_executeToolCalls (calls : list ToolCall) :
  preserves Quiet (executeToolCalls calls).
Proof.
  intro st. unfold executeToolCalls. cbn.
  split; simpl; auto.
  eexists [_]. repeat split; auto. simpl.
  now rewrite plusUsage_zero_l, plusUsage_zero_r.
Qed.

Lemma quiet_getAllToolDefinitions : preserves Quiet getAllToolDefinitions.
Proof. unfold getAllToolDefinitions. frame. Qed.

Lemma quiet_freshUUID (rt : Runtime) : preserves Quiet (freshUUID rt).
Proof. intro st. apply Quiet_steady; simpl; auto. Qed.

#[export] Hint Resolve quiet_onChunk quiet_onChunkIf quiet_logDelta quiet_pushMessage
  quiet_pushToolUsed quiet_setMessages quiet_emitDone quiet_resultWith quiet_addUsage
  quiet_chat quiet_chatStream quiet_executeToolCalls quiet_getAllToolDefinitions
  quiet_freshUUID : frame.

Section QuietCode.

Variable rt : Runtime.

Lemma quiet_parseBlocks (blocks : list string) : preserves Quiet (parseBlocks rt blocks).
Proof. induction blocks as [| b blocks IH]; simpl; frame. Qed.

Lemma quiet_parseToolCallTags (text : string) :
  preserves Quiet (parseToolCallTags rt text).
Proof. unfold parseToolCallTags. pose proof quiet_parseBlocks. frame. Qed.

Lemma quiet_getEmbeddingModel : preserves Quiet getEmbeddingModel.
Proof. unfold getEmbeddingModel. frame. Qed.

Lemma quiet_rewritePlan (userMessage : string) :
  preserves Quiet (rewritePlan rt userMessage).
Proof. unfold rewritePlan. frame. Qed.

Lemma quiet_runSemanticPipeline (userMessage : string) (tools : list ToolDefinition)
  (streaming : bool) :
  preserves Quiet (runSemanticPipeline rt userMessage tools streaming).
Proof.
  unfold runSemanticPipeline, forcedSearch.
  pose proof quiet_getEmbeddingModel. pose proof quiet_rewritePlan. frame.
Qed.

Lemma quiet_runAutoSemanticSearch (userMessage : string) :
  preserves Quiet (runAutoSemanticSearch rt userMessage).
Proof. unfold runAutoSemanticSearch. frame. Qed.

Lemma quiet_autoSemanticStep (userMessage : string) (ran : bool) :
  preserves Quiet (autoSemanticStep rt userMessage ran).
Proof. unfold autoSemanticStep. pose proof quiet_runAutoSemanticSearch. frame. Qed.

Lemma quiet_recordResults (streaming : bool) (calls : list ToolCall)
  (results : list ToolResult) :
  preserves Quiet (recordResults rt streaming calls results).
Proof.
  revert results. induction calls as [| tc calls IH]; intro results; simpl; frame.
Qed.

Lemma quiet_handleToolCalls (calls : list ToolCall) (streaming : bool) :
  preserves Quiet (handleToolCalls rt calls streaming).
Proof. unfold handleToolCalls. pose proof quiet_recordResults. frame. Qed.

Lemma quiet_callsOrAnswer (response : ChatResponse) :
  preserves Quiet (callsOrAnswer rt response).
Proof. unfold callsOrAnswer. pose proof quiet_parseToolCallTags. frame. Qed.

Lemma quiet_announceCalls (ctx : ToolContext) (calls : list ToolCall) :
  preserves Quiet (announceCalls rt ctx calls).
Proof. induction calls as [| tc calls IH]; simpl; frame. Qed.

Lemma quiet_forwardBefore (start : Z) (s : Scan) : preserves Quiet (forwardBefore start s).
Proof. unfold forwardBefore. frame. Qed.

Lemma quiet_scanDelta (text : string) (s : Scan) : preserves Quiet (scanDelta text s).
Proof.
  unfold scanDelta, scanThinkOpen, scanToolCall.
  pose proof quiet_forwardBefore. frame.
Qed.

Lemma quiet_finishDelta (chunk : ChatStreamChunk) (s : Scan) :
  preserves Quiet (finishDelta rt chunk s).
Proof. unfold finishDelta. pose proof quiet_parseToolCallTags. frame. Qed.

Lemma quiet_settleDelta (chunk : ChatStreamChunk) (s : Scan) :
  preserves Quiet (settleDelta rt chunk s).
Proof. unfold settleDelta. pose proof quiet_finishDelta. frame. Qed.

End QuietCode.

#[export] Hint Resolve quiet_parseToolCallTags quiet_runSemanticPipeline
  quiet_autoSemanticStep quiet_handleToolCalls quiet_callsOrAnswer quiet_announceCalls
  quiet_scanDelta quiet_settleDelta : frame.

(** ** Two weaker relations: one for the trace, one for the counters *)

#[export] Instance Mild_Frame : Frame Mild.
Proof.
  split.
  - intro st. split; auto.
    exists []. rewrite app_nil_r. simpl. rewrite plusUsage_zero_r. auto.
  - intros a b c [[e1 [T1 [F1 U1]]] C1] [[e2 [T2 [F2 U2]]] C2].
    split; try congruence.
    exists (e1 ++ e2). repeat split.
    + now rewrite T2, T1, app_assoc.
    + apply Forall_app; auto.
    + now rewrite U2, U1, usageSum_app, plusUsage_assoc.
Qed.

#[export] Instance Steady_Frame : Frame Steady.
Proof.
  split.
  - intro st. split; auto.
  - intros a b c [C1 R1 L1 S1] [C2 R2 L2 S2]. split; try congruence; lia.
Qed.

Lemma Quiet_Mild (st st' : St) : Quiet st st' -> Mild st st'.
Proof. intros [T C _ _ _]. split; auto. Qed.

Lemma Quiet_Steady (st st' : St) : Quiet st st' -> Steady st st'.
Proof. intros [_ C R L S]. split; auto. Qed.

Lemma mild_of_quiet {A} (m : M A) : preserves Quiet m -> preserves Mild m.
Proof. intros H st. apply Quiet_Mild, H. Qed.

Lemma steady_of_quiet {A} (m : M A) : preserves Quiet m -> preserves Steady m.
Proof. intros H st. apply Quiet_Steady, H. Qed.

#[export] Hint Resolve mild_of_quiet steady_of_quiet : frame.

Lemma mild_incrementToolRounds : preserves Mild incrementToolRounds.
Proof.
  intro st. split; simpl; auto.
  exists []. rewrite app_nil_r. simpl. rewrite plusUsage_zero_r. auto.
Qed.

Lemma mild_resetForTurn (userMessage : string) : preserves Mild (resetForTurn userMessage).
Proof.
  intro st. split; simpl; auto.
  exists []. rewrite app_nil_r. simpl. rewrite plusUsage_zero_r. auto.
Qed.

(** *** Reads of the abort signal *)

Lemma isAborted_run (held : string) (st : St) :
  isAborted held st = (Ok (nextAbort st), afterAbortCheck held st).
Proof. reflexivity. Qed.

Lemma steady_isAborted (held : string) : preserves Steady (isAborted held).
Proof. intro st. rewrite isAborted_run. split; simpl; auto. Qed.

#[export] Hint Resolve mild_incrementToolRounds mild_resetForTurn steady_isAborted : frame.

Section SteadyCode.

Variable rt : Runtime.

Lemma steady_consumeDeltas (chunks : list ChatStreamChunk) (s : Scan) :
  preserves Steady (consumeDeltas rt chunks s).
Proof.
  revert s. induction chunks as [| c chunks IH]; intro s; simpl; frame.
Qed.

Lemma steady_consumeFinal (chunks : list ChatStreamChunk) (text : string) :
  preserves Steady (consumeFinal chunks text).
Proof.
  revert text. induction chunks as [| c chunks IH]; intro text; simpl; frame.
Qed.

Lemma mild_dispatchStreamed (found : option (list ToolCall)) :
  preserves Mild (dispatchStreamed rt found).
Proof. unfold dispatchStreamed. frame. Qed.

End SteadyCode.

#[export] Hint Resolve steady_consumeDeltas steady_consumeFinal mild_dispatchStreamed
  : frame.

(** ** The fuel guard is never what ends a computation *)

Lemma total_bind {A B} (m : M A) (f : A -> M B) :
  total m -> (forall a, total (f a)) -> total (bind m f).
Proof.
  intros Hm Hf st. rewrite bind_run. specialize (Hm st).
  destruct (m st) as [[a | e |] st1]; simpl in *; try discriminate; auto.
  apply Hf.
Qed.

Lemma total_tryCatch {A} (m h : M A) : total m -> total h -> total (tryCatch m h).
Proof.
  intros Hm Hh st. unfold tryCatch. specialize (Hm st).
  destruct (m st) as [[a | e |] st1]; simpl in *; try discriminate; auto.
Qed.

Ltac total_step :=
  lazymatch goal with
  | |- total (bind _ _) => apply total_bind; [ | intros ]
  | |- total (tryCatch _ _) => apply total_tryCatch
  | |- total (let _ := _ in _) => cbv zeta
  | |- total (match ?x with _ => _ end) => destruct x
  | |- total _ => solve [ intro; cbn; discriminate ]
  end.

Ltac totality := repeat (first [ solve [eauto with total] | total_step ]).

Create HintDb total.

Lemma total_isAborted (held : string) : total (isAborted held).
Proof. intro st. rewrite isAborted_run. discriminate. Qed.

Lemma total_chat (sent : list ChatMessage) (withTools : bool) : total (chat sent withTools).
Proof.
  intro st. unfold chat. cbn.
  destruct (match chatScript (env st) with r :: _ => r | [] => None end); cbn; discriminate.
Qed.

Lemma total_chatStream (sent : list ChatMessage) (withTools : bool) :
  total (chatStream sent withTools).
Proof. intro st. unfold chatStream. cbn. discriminate. Qed.

Lemma total_addUsage (u : option TokenUsage) : total (addUsage u).
Proof. destruct u; intro; cbn; discriminate. Qed.

Lemma total_onChunkIf (b : bool) (c : AgentStreamChunk) : total (onChunkIf b c).
Proof. destruct b; intro; cbn; discriminate. Qed.

Lemma total_getAllToolDefinitions : total getAllToolDefinitions.
Proof. intro st. unfold getAllToolDefinitions. cbn. destruct (toolCatalog (env st)); discriminate. Qed.

#[export] Hint Resolve total_isAborted total_chat total_chatStream total_addUsage total_onChunkIf
  total_getAllToolDefinitions : total.

Section TotalCode.

Variable rt : Runtime.

Lemma total_parseBlocks (blocks : list string) : total (parseBlocks rt blocks).
Proof. induction blocks as [| b blocks IH]; simpl; totality. Qed.

Lemma total_parseToolCallTags (text : string) : total (parseToolCallTags rt text).
Proof. unfold parseToolCallTags. pose proof total_parseBlocks. totality. Qed.

Lemma total_rewritePlan (userMessage : string) : total (rewritePlan rt userMessage).
Proof. unfold rewritePlan. totality. Qed.

Lemma total_runSemanticPipeline (userMessage : string) (tools : list ToolDefinition)
  (streaming : bool) :
  total (runSemanticPipeline rt userMessage tools streaming).
Proof.
  unfold runSemanticPipeline, forcedSearch. pose proof total_rewritePlan. totality.
Qed.

Lemma total_runAutoSemanticSearch (userMessage : string) :
  total (runAutoSemanticSearch rt userMessage).
Proof. unfold runAutoSemanticSearch. totality. Qed.

Lemma total_autoSemanticStep (userMessage : string) (ran : bool) :
  total (autoSemanticStep rt userMessage ran).
Proof. unfold autoSemanticStep. pose proof total_runAutoSemanticSearch. totality. Qed.

Lemma total_recordResults (streaming : bool) (calls : list ToolCall)
  (results : list ToolResult) :
  total (recordResults rt streaming calls results).
Proof.
  revert results. induction calls as [| tc calls IH]; intro results; simpl; totality.
Qed.

Lemma total_handleToolCalls (calls : list ToolCall) (streaming : bool) :
  total (handleToolCalls rt calls streaming).
Proof. unfold handleToolCalls. pose proof total_recordResults. totality. Qed.

Lemma total_callsOrAnswer (response : ChatResponse) : total (callsOrAnswer rt response).
Proof. unfold callsOrAnswer. pose proof total_parseToolCallTags. totality. Qed.

Lemma total_announceCalls (ctx : ToolContext) (calls : list ToolCall) :
  total (announceCalls rt ctx calls).
Proof. induction calls as [| tc calls IH]; simpl; totality. Qed.

Lemma total_scanDelta (text : string) (s : Scan) : total (scanDelta text s).
Proof. unfold scanDelta, scanThinkOpen, scanToolCall, forwardBefore. totality. Qed.

Lemma total_settleDelta (chunk : ChatStreamChunk) (s : Scan) :
  total (settleDelta rt chunk s).
Proof. unfold settleDelta, finishDelta. pose proof total_parseToolCallTags. totality. Qed.

Lemma total_consumeDeltas (chunks : list ChatStreamChunk) (s : Scan) :
  total (consumeDeltas rt chunks s).
Proof.
  pose proof total_scanDelta. pose proof total_settleDelta.
  revert s. induction chunks as [| c chunks IH]; intro s; simpl; totality.
Qed.

Lemma total_dispatchStreamed (found : option (list ToolCall)) :
  total (dispatchStreamed rt found).
Proof.
  unfold dispatchStreamed.
  pose proof total_handleToolCalls. pose proof total_announceCalls. totality.
Qed.

Lemma total_consumeFinal (chunks : list ChatStreamChunk) (text : string) :
  total (consumeFinal chunks text).
Proof.
  revert text. induction chunks as [| c chunks IH]; intro text; simpl; totality.
Qed.

End TotalCode.

#[export] Hint Resolve total_runSemanticPipeline total_autoSemanticStep
  total_handleToolCalls total_callsOrAnswer total_announceCalls total_consumeDeltas
  total_consumeFinal total_dispatchStreamed : total.

(** ** A returned result shows the counters of the state it returns in *)

Lemma faithful_answer {L} (text : string) :
  faithful (L := L) (r <- resultWith text ;; ret (Return r)).
Proof. intro st. cbn. auto. Qed.

Lemma faithful_continue {L} (l : L) : faithful (ret (Continue l)).
Proof. intro st. exact I. Qed.

Lemma faithful_throw {L} (e : string) : faithful (L := L) (throw e).
Proof. intro st. exact I. Qed.

Lemma faithful_outOfFuel {L} : faithful (L := L) outOfFuel.
Proof. intro st. exact I. Qed.

Lemma faithful_bind {A L} (m : M A) (f : A -> M (Flow L AgentResult)) :
  (forall a, faithful (f a)) -> faithful (bind m f).
Proof.
  intros Hf st. rewrite bind_run.
  destruct (m st) as [[a | e |] st1]; simpl; auto. apply Hf.
Qed.

Lemma faithful_flow {L L'} (m : M (Flow L AgentResult))
  (k : L -> M (Flow L' AgentResult)) :
  faithful m -> (forall l, faithful (k l)) ->
  faithful (bind m (fun x => match x with
                             | Continue l => k l
                             | Return r => ret (Return r)
                             end)).
Proof.
  intros Hm Hk st. rewrite bind_run. specialize (Hm st).
  destruct (m st) as [[[l | r] | e |] st1]; simpl in *; auto. apply Hk.
Qed.

Ltac faithful_step :=
  lazymatch goal with
  | |- faithful (bind (resultWith _) (fun r => ret (Return r))) => apply faithful_answer
  | |- faithful (bind _ (fun x => match x with Continue _ => _ | Return _ => _ end)) =>
      apply faithful_flow; [ | intros ]
  | |- faithful (bind _ _) => apply faithful_bind; intros
  | |- faithful (ret (Continue _)) => apply faithful_continue
  | |- faithful (throw _) => apply faithful_throw
  | |- faithful outOfFuel => apply faithful_outOfFuel
  | |- faithful (let _ := _ in _) => cbv zeta
  | |- faithful (match ?x with _ => _ end) => destruct x
  end.

Ltac faithfulness := repeat (first [ assumption | faithful_step ]).

Section FaithfulCode.

Variable rt : Runtime.

Lemma faithful_callsOrAnswer (response : ChatResponse) :
  faithful (callsOrAnswer rt response).
Proof. unfold callsOrAnswer. faithfulness. Qed.

Lemma faithful_executeRounds (fuel : nat) (tools : list ToolDefinition) :
  faithful (executeRounds rt fuel tools).
Proof.
  induction fuel as [| fuel IH]; simpl; [apply faithful_outOfFuel |].
  pose proof faithful_callsOrAnswer. faithfulness; auto.
Qed.

Lemma faithful_settleDelta (chunk : ChatStreamChunk) (s : Scan) :
  faithful (settleDelta rt chunk s).
Proof. unfold settleDelta, finishDelta. faithfulness. Qed.

Lemma faithful_consumeDeltas (chunks : list ChatStreamChunk) (s : Scan) :
  faithful (consumeDeltas rt chunks s).
Proof.
  pose proof faithful_settleDelta.
  revert s. induction chunks as [| c chunks IH]; intro s; simpl; faithfulness; auto.
Qed.

Lemma faithful_streamRounds (fuel : nat) (tools : list ToolDefinition) :
  faithful (streamRounds rt fuel tools).
Proof.
  induction fuel as [| fuel IH]; simpl; [apply faithful_outOfFuel |].
  pose proof faithful_consumeDeltas. faithfulness; auto.
Qed.

End FaithfulCode.

(** ** Stepping through a run *)

Lemma bind_getAgent {B} (f : Agent -> M B) (st : St) :
  bind getAgent f st = f (agent st) st.
Proof. reflexivity. Qed.

Lemma bind_getEnv {B} (f : Env -> M B) (st : St) :
  bind getEnv f st = f (env st) st.
Proof. reflexivity. Qed.

Lemma bind_isAborted {B} (held : string) (f : bool -> M B) (st : St) :
  bind (isAborted held) f st = f (nextAbort st) (afterAbortCheck held st).
Proof. reflexivity. Qed.

Lemma bind_ret {A B} (a : A) (f : A -> M B) (st : St) : bind (ret a) f st = f a st.
Proof. reflexivity. Qed.

Lemma bind_getAllToolDefinitions {B} (f : list ToolDefinition -> M B) (st : St) :
  bind getAllToolDefinitions f st =
  match toolCatalog (env st) with
  | Some defs => f defs st
  | None => (Throw "getAllToolDefinitions rejected", st)
  end.
Proof.
  rewrite bind_run. unfold getAllToolDefinitions. rewrite bind_getEnv.
  destruct (toolCatalog (env st)); reflexivity.
Qed.

Lemma bind_freshUUID {B} (rt : Runtime) (f : string -> M B) (st : St) :
  bind (freshUUID rt) f st =
  f (randomUUID rt (uuidCounter (env st)))
    {| agent := agent st;
       env := withUuidCounter (S (uuidCounter (env st))) (env st);
       trace := trace st |}.
Proof. reflexivity. Qed.

Lemma bind_executeToolCalls {B} (calls : list ToolCall) (f : list ToolResult -> M B)
  (st : St) :
  bind (executeToolCalls calls) f st =
  f (toolRuntime (env st) calls)
    {| agent := agent st; env := env st;
       trace := trace st ++ [EvToolExec calls (toolRuntime (env st) calls)] |}.
Proof. reflexivity. Qed.

(** Split a run [bind m f st = (o, st')] on the outcome of [m]. *)
Tactic Notation "bind_in" hyp(H) "as" ident(a) ident(s) ident(E) :=
  rewrite bind_run in H;
  lazymatch type of H with
  | (match ?m ?st with _ => _ end) = _ =>
      destruct (m st) as [[a | ? |] s] eqn:E
  end.

Lemma roundBudget_config (a b : Agent) : config a = config b -> roundBudget a = roundBudget b.
Proof. unfold roundBudget. now intros ->. Qed.

Lemma budgetBound_Steady (st st' : St) : Steady st st' -> budgetBound st' = budgetBound st.
Proof. intros [C _ _ _]. unfold budgetBound. now rewrite (roundBudget_config _ _ C). Qed.

Lemma chat_shrinks (sent : list ChatMessage) (withTools : bool) (st st' : St)
  (r : ChatResponse) :
  chat sent withTools st = (Ok r, st') ->
  (List.length (chatScript (env st')) < List.length (chatScript (env st)))%nat.
Proof.
  unfold chat. cbn. destruct (chatScript (env st)) as [| [x |] rest]; cbn; intro H;
    inversion H; subst; simpl; lia.
Qed.

Lemma chatStream_shrinks (sent : list ChatMessage) (withTools : bool) (st st' : St)
  (reply : StreamScript) :
  chatStream sent withTools st = (Ok reply, st') ->
  (List.length (streamScript (env st')) < List.length (streamScript (env st)))%nat
  \/ (deltas reply = [] /\ fails reply = true).
Proof.
  unfold chatStream. cbn. destruct (streamScript (env st)) as [| x rest]; cbn; intro H;
    inversion H; subst; simpl; auto.
Qed.

Lemma chatStream_ok (sent : list ChatMessage) (withTools : bool) (st : St) :
  exists reply st', chatStream sent withTools st = (Ok reply, st').
Proof. unfold chatStream. cbn. do 2 eexists. reflexivity. Qed.

(** Facts about one step of a run, from the frame lemmas. *)
Ltac advance E S :=
  lazymatch type of E with
  | ?m ?cur = (_, ?new) =>
      let S' := fresh "S" in
      assert (S' : Steady cur new) by
        (let P := fresh in
         assert (P : preserves Steady m) by eauto with frame;
         specialize (P cur); rewrite E in P; exact P);
      apply (frame_trans _ _ _ S) in S'; clear S; rename S' into S
  end.

Ltac total_of E :=
  first
    [ discriminate E
    | lazymatch type of E with
      | ?m ?st = (OutOfFuel, _) =>
          exfalso;
          let T := fresh in
          assert (T : total m) by eauto with total;
          apply (T st); rewrite E; reflexivity
      end ].

Lemma Steady_afterAbortCheck (held : string) (st : St) :
  Steady st (afterAbortCheck held st).
Proof. split; simpl; auto. Qed.

Lemma Steady_bound (st st' : St) :
  Steady st st' -> (toolRounds (agent st) <= budgetBound st)%Z ->
  config (agent st') = config (agent st) /\ (toolRounds (agent st') <= budgetBound st)%Z.
Proof. intros [C R _ _] H. split; auto. now rewrite R. Qed.

Ltac thrown H S Hb :=
  inversion H; subst; clear H;
  destruct (Steady_bound S Hb); repeat split; auto; discriminate.

Section Budget.

Variable rt : Runtime.

Lemma executeRounds_bound (fuel : nat) :
  forall (tools : list ToolDefinition) (st st' : St) (o : Outcome (Flow unit AgentResult)),
    executeRounds rt fuel tools st = (o, st') ->
    (List.length (chatScript (env st)) < fuel)%nat ->
    (toolRounds (agent st) <= budgetBound st)%Z ->
    config (agent st') = config (agent st)
    /\ (toolRounds (agent st') <= budgetBound st)%Z /\ o <> OutOfFuel.
Proof.
  induction fuel as [| fuel IH]; intros tools st st' o H Hf Hb; [lia |].
  cbn [executeRounds] in H. rewrite bind_getAgent in H.
  destruct (toolRounds (agent st) <? roundBudget (agent st))%Z eqn:G.
  2: { inversion H; subst. repeat split; auto. discriminate. }
  rewrite bind_isAborted in H. destruct (nextAbort st).
  { cbn in H. inversion H; subst; simpl. repeat split; auto. discriminate. }
  pose proof (Steady_afterAbortCheck "" st) as S0.
  set (st1 := afterAbortCheck "" st) in *. rewrite bind_getAgent in H.
  bind_in H as response st2 E1; [ | advance E1 S0; thrown H S0 Hb | total_of E1 ].
  pose proof (chat_shrinks _ _ _ E1) as Hs. advance E1 S0.
  pose proof (frame_refl (R := Steady) st2) as S2.
  assert (Hthrow : forall cur e, Steady st2 cur -> (Throw e, cur) = (o, st') ->
            config (agent st') = config (agent st)
            /\ (toolRounds (agent st') <= budgetBound st)%Z /\ o <> OutOfFuel).
  { intros cur e Sc Hc. pose proof (frame_trans _ _ _ S0 Sc) as Sa. thrown Hc Sa Hb. }
  bind_in H as u st3 E2; [ | advance E2 S2; eauto | total_of E2 ].
  advance E2 S2.
  bind_in H as decided st4 E3; [ | advance E3 S2; eauto | total_of E3 ].
  advance E3 S2.
  destruct decided as [calls | r].
  2: { pose proof (frame_trans _ _ _ S0 S2) as Sa. thrown H Sa Hb. }
  bind_in H as u2 st5 E4; [ | advance E4 S2; eauto | total_of E4 ].
  advance E4 S2.
  rewrite bind_run in H. cbn [incrementToolRounds setAgent] in H.
  pose proof (frame_trans _ _ _ S0 S2) as Sa.
  destruct Sa as [Ca Ra La _]. destruct S2 as [_ _ L2 _]. destruct S0 as [_ _ L0 _].
  apply IH in H; simpl.
  - simpl in H. destruct H as [Hc [Hr Ho]]. repeat split; auto; try congruence.
    unfold budgetBound, roundBudget in *. simpl in Hr. rewrite Ca in Hr. exact Hr.
  - subst st1. simpl in *. lia.
  - unfold budgetBound, roundBudget in *. simpl. rewrite Ca, Ra.
    apply Z.ltb_lt in G. lia.
Qed.

Lemma dispatchStreamed_rounds (found : option (list ToolCall)) (st st' : St)
  (o : Outcome unit) :
  dispatchStreamed rt found st = (o, st') ->
  config (agent st') = config (agent st)
  /\ (toolRounds (agent st') <= toolRounds (agent st) + 1)%Z
  /\ (List.length (streamScript (env st')) <= List.length (streamScript (env st)))%nat
  /\ o <> OutOfFuel.
Proof.
  unfold dispatchStreamed. intro H.
  assert (Hsame : forall o0, (o0, st) = (o, st') -> o0 <> OutOfFuel ->
            config (agent st') = config (agent st)
            /\ (toolRounds (agent st') <= toolRounds (agent st) + 1)%Z
            /\ (List.length (streamScript (env st'))
                <= List.length (streamScript (env st)))%nat
            /\ o <> OutOfFuel).
  { intros o0 Hc Hn. inversion Hc; subst. repeat split; auto; lia. }
  destruct found as [[| c calls] |]; try (eapply Hsame; [exact H | discriminate]).
  clear Hsame. rewrite bind_getAgent in H.
  pose proof (frame_refl (R := Steady) st) as S.
  assert (Hthrow : forall cur e, Steady st cur -> (Throw e, cur) = (o, st') ->
            config (agent st') = config (agent st)
            /\ (toolRounds (agent st') <= toolRounds (agent st) + 1)%Z
            /\ (List.length (streamScript (env st'))
                <= List.length (streamScript (env st)))%nat
            /\ o <> OutOfFuel).
  { intros cur e [C R _ L] Hc. inversion Hc; subst. repeat split; auto; try lia.
    discriminate. }
  bind_in H as u1 st1 E1; [ | advance E1 S; eauto | total_of E1 ].
  advance E1 S.
  bind_in H as u2 st2 E2; [ | advance E2 S; eauto | total_of E2 ].
  advance E2 S.
  cbn in H. inversion H; subst; simpl. destruct S as [C R _ L].
  repeat split; auto; try lia. discriminate.
Qed.

Lemma streamRounds_bound (fuel : nat) :
  forall (tools : list ToolDefinition) (st st' : St) (o : Outcome (Flow unit AgentResult)),
    streamRounds rt fuel tools st = (o, st') ->
    (List.length (streamScript (env st)) < fuel)%nat ->
    (toolRounds (agent st) <= budgetBound st)%Z ->
    config (agent st') = config (agent st)
    /\ (toolRounds (agent st') <= budgetBound st)%Z /\ o <> OutOfFuel.
Proof.
  induction fuel as [| fuel IH]; intros tools st st' o H Hf Hb; [lia |].
  cbn [streamRounds] in H. rewrite bind_getAgent in H.
  destruct (toolRounds (agent st) <? roundBudget (agent st))%Z eqn:G.
  2: { inversion H; subst. repeat split; auto. discriminate. }
  rewrite bind_isAborted in H. destruct (nextAbort st).
  { cbn in H. inversion H; subst; simpl. repeat split; auto. discriminate. }
  pose proof (Steady_afterAbortCheck "" st) as S0.
  set (st1 := afterAbortCheck "" st) in *. rewrite bind_getAgent in H.
  bind_in H as reply st2 E1; [ | advance E1 S0; thrown H S0 Hb | total_of E1 ].
  pose proof (chatStream_shrinks E1) as Hs. advance E1 S0.
  pose proof (frame_refl (R := Steady) st2) as S2.
  assert (Hthrow : forall cur e, Steady st2 cur -> (Throw e, cur) = (o, st') ->
            config (agent st') = config (agent st)
            /\ (toolRounds (agent st') <= budgetBound st)%Z /\ o <> OutOfFuel).
  { intros cur e Sc Hc. pose proof (frame_trans _ _ _ S0 Sc) as Sa. thrown Hc Sa Hb. }
  bind_in H as consumed st3 E2; [ | advance E2 S2; eauto | total_of E2 ].
  advance E2 S2.
  destruct consumed as [s | r].
  2: { pose proof (frame_trans _ _ _ S0 S2) as Sa. thrown H Sa Hb. }
  rewrite bind_run in H.
  destruct (fails reply) eqn:Hfail.
  { cbn in H. eauto. }
  cbn [ret] in H.
  destruct Hs as [Hs | [_ Hs]]; [ | congruence ].
  bind_in H as u st4 E3.
  - apply dispatchStreamed_rounds in E3. destruct E3 as [C3 [R3 [L3 _]]].
    pose proof (frame_trans _ _ _ S0 S2) as Sa.
    destruct Sa as [Ca Ra _ La]. destruct S2 as [_ _ _ L2]. destruct S0 as [_ _ _ L0].
    apply IH in H.
    + destruct H as [Hc [Hr Ho]]. repeat split; auto; try congruence.
      unfold budgetBound, roundBudget in *. rewrite C3, Ca in Hr. exact Hr.
    + subst st1. simpl in *. lia.
    + unfold budgetBound, roundBudget in *. rewrite C3, Ca.
      apply Z.ltb_lt in G. lia.
  - apply dispatchStreamed_rounds in E3. destruct E3 as [C3 [R3 [L3 _]]].
    pose proof (frame_trans _ _ _ S0 S2) as Sa. destruct Sa as [Ca Ra _ La].
    inversion H; subst. repeat split; try congruence; try discriminate.
    unfold budgetBound, roundBudget in *. apply Z.ltb_lt in G. lia.
  - apply dispatchStreamed_rounds in E3. tauto.
Qed.

End Budget.

(** ** The turn's prelude and the forced answers *)

Section Turn.

Variable rt : Runtime.

Lemma resetForTurn_run (userMessage : string) (st : St) :
  resetForTurn userMessage st = (Ok tt, afterReset userMessage st).
Proof. reflexivity. Qed.

Lemma prepareTurn_rounds (userMessage : string) (streaming : bool) (st st' : St)
  (o : Outcome (list ToolDefinition)) :
  prepareTurn rt userMessage streaming st = (o, st') ->
  config (agent st') = config (agent st) /\ toolRounds (agent st') = 0%Z
  /\ o <> OutOfFuel.
Proof.
  unfold prepareTurn. intro H.
  rewrite bind_run, resetForTurn_run in H.
  pose proof (frame_refl (R := Steady) (afterReset userMessage st)) as S.
  set (st0 := afterReset userMessage st) in *.
  assert (Hend : forall (o0 : Outcome (list ToolDefinition)) cur,
            Steady st0 cur -> (o0, cur) = (o, st') -> o0 <> OutOfFuel ->
            config (agent st') = config (agent st) /\ toolRounds (agent st') = 0%Z
            /\ o <> OutOfFuel).
  { intros o0 cur [C R _ _] Hc Hn. inversion Hc; subst. auto. }
  bind_in H as tools st1 E1; [ | advance E1 S; eapply Hend; eauto; discriminate
                             | total_of E1 ].
  advance E1 S.
  bind_in H as ran st2 E2; [ | advance E2 S; eapply Hend; eauto; discriminate
                           | total_of E2 ].
  advance E2 S.
  bind_in H as u st3 E3; [ | advance E3 S; eapply Hend; eauto; discriminate
                         | total_of E3 ].
  advance E3 S.
  eapply Hend; eauto. discriminate.
Qed.

Lemma forcedAnswer_rounds (st st' : St) (o : Outcome AgentResult) :
  forcedAnswer st = (o, st') ->
  Steady st st' /\ o <> OutOfFuel
  /\ forall r, o = Ok r ->
       res_toolRounds r = toolRounds (agent st')
       /\ res_totalUsage r = totalUsage (agent st').
Proof.
  unfold forcedAnswer. intro H.
  pose proof (frame_refl (R := Steady) st) as S.
  assert (Hthrow : forall cur e, Steady st cur -> (Throw e, cur) = (o, st') ->
            Steady st st' /\ o <> OutOfFuel
            /\ forall r, o = Ok r ->
                 res_toolRounds r = toolRounds (agent st')
                 /\ res_totalUsage r = totalUsage (agent st')).
  { intros cur e Sc Hc. inversion Hc; subst.
    split; [exact Sc | split; discriminate]. }
  bind_in H as u1 st1 E1; [ | advance E1 S; eauto | total_of E1 ].
  advance E1 S. rewrite bind_getAgent in H.
  bind_in H as resp st2 E2; [ | advance E2 S; eauto | total_of E2 ].
  advance E2 S.
  bind_in H as u3 st3 E3; [ | advance E3 S; eauto | total_of E3 ].
  advance E3 S.
  cbn in H. inversion H; subst.
  split; [exact S | split; [discriminate |]].
  intros r Hr. inversion Hr; subst. split; reflexivity.
Qed.

Lemma forcedStream_rounds (st st' : St) (o : Outcome AgentResult) :
  forcedStream st = (o, st') ->
  Steady st st' /\ o <> OutOfFuel
  /\ forall r, o = Ok r ->
       res_toolRounds r = toolRounds (agent st')
       /\ res_totalUsage r = totalUsage (agent st').
Proof.
  unfold forcedStream. intro H.
  rewrite bind_isAborted in H.
  pose proof (Steady_afterAbortCheck "" st) as S.
  set (st0 := afterAbortCheck "" st) in *.
  destruct (nextAbort st).
  { cbn in H. inversion H; subst; simpl.
    split; [split; simpl; auto | split; [discriminate |]].
    intros r Hr. inversion Hr; subst. split; reflexivity. }
  assert (Hthrow : forall cur e, Steady st cur -> (Throw e, cur) = (o, st') ->
            Steady st st' /\ o <> OutOfFuel
            /\ forall r, o = Ok r ->
                 res_toolRounds r = toolRounds (agent st')
                 /\ res_totalUsage r = totalUsage (agent st')).
  { intros cur e Sc Hc. inversion Hc; subst.
    split; [exact Sc | split; discriminate]. }
  bind_in H as u1 st1 E1; [ | advance E1 S; eauto | total_of E1 ].
  advance E1 S. rewrite bind_getAgent in H.
  bind_in H as reply st2 E2; [ | advance E2 S; eauto | total_of E2 ].
  advance E2 S.
  bind_in H as collected st3 E3; [ | advance E3 S; eauto | total_of E3 ].
  advance E3 S. destruct collected as [finalContent broke].
  rewrite bind_run in H.
  destruct (negb broke && fails reply); cbn in H.
  - eauto.
  - inversion H; subst.
    split; [exact S | split; [discriminate |]].
    intros r Hr. inversion Hr; subst. split; reflexivity.
Qed.

End Turn.

(** ** The round counter of a result *)

Section Rounds.

Variable rt : Runtime.

Lemma execute_rounds (userMessage : string) (st st' : St) (o : Outcome AgentResult) :
  execute rt userMessage st = (o, st') ->
  o <> OutOfFuel
  /\ forall r, o = Ok r -> (res_toolRounds r <= Z.max 0 (roundBudget (agent st)))%Z.
Proof.
  unfold execute. intro H. rewrite bind_isAborted in H.
  destruct (nextAbort st).
  { cbn in H. inversion H; subst. split; [discriminate |].
    intros r Hr. inversion Hr; subst. simpl. lia. }
  set (st0 := afterAbortCheck "" st) in *.
  bind_in H as tools st1 E1.
  2: { inversion H; subst. split; discriminate. }
  2: { apply prepareTurn_rounds in E1. tauto. }
  apply prepareTurn_rounds in E1. destruct E1 as [C1 [R1 _]].
  rewrite bind_getEnv in H.
  assert (B1 : budgetBound st1 = Z.max 0 (roundBudget (agent st))).
  { unfold budgetBound, roundBudget. now rewrite C1. }
  bind_in H as flow st2 E2.
  - pose proof (faithful_executeRounds rt (S (List.length (chatScript (env st1)))) tools st1)
      as F.
    rewrite E2 in F. simpl in F.
    apply executeRounds_bound in E2; [ | lia | rewrite R1; unfold budgetBound; lia ].
    destruct E2 as [C2 [R2 _]]. rewrite B1 in R2.
    destruct flow as [[] | r0].
    + apply forcedAnswer_rounds in H. destruct H as [[_ R3 _ _] [N3 F3]].
      split; auto. intros r Hr. destruct (F3 r Hr) as [-> _]. now rewrite R3.
    + inversion H; subst. split; [discriminate |].
      intros r Hr. inversion Hr; subst. destruct F as [_ [F _]]. now rewrite F.
  - inversion H; subst. split; discriminate.
  - apply executeRounds_bound in E2; [ tauto | lia | rewrite R1; unfold budgetBound; lia ].
Qed.

Lemma executeStream_rounds (userMessage : string) (st st' : St) (o : Outcome AgentResult) :
  executeStream rt userMessage st = (o, st') ->
  o <> OutOfFuel
  /\ forall r, o = Ok r -> (res_toolRounds r <= Z.max 0 (roundBudget (agent st)))%Z.
Proof.
  unfold executeStream. intro H. rewrite bind_isAborted in H.
  destruct (nextAbort st).
  { cbn in H. inversion H; subst. split; [discriminate |].
    intros r Hr. inversion Hr; subst. simpl. lia. }
  set (st0 := afterAbortCheck "" st) in *.
  bind_in H as tools st1 E1.
  2: { inversion H; subst. split; discriminate. }
  2: { apply prepareTurn_rounds in E1. tauto. }
  apply prepareTurn_rounds in E1. destruct E1 as [C1 [R1 _]].
  rewrite bind_getEnv in H.
  assert (B1 : budgetBound st1 = Z.max 0 (roundBudget (agent st))).
  { unfold budgetBound, roundBudget. now rewrite C1. }
  bind_in H as flow st2 E2.
  - pose proof (faithful_streamRounds rt (S (List.length (streamScript (env st1)))) tools st1)
      as F.
    rewrite E2 in F. simpl in F.
    apply streamRounds_bound in E2; [ | lia | rewrite R1; unfold budgetBound; lia ].
    destruct E2 as [C2 [R2 _]]. rewrite B1 in R2.
    destruct flow as [[] | r0].
    + apply forcedStream_rounds in H. destruct H as [[_ R3 _ _] [N3 F3]].
      split; auto. intros r Hr. destruct (F3 r Hr) as [-> _]. now rewrite R3.
    + inversion H; subst. split; [discriminate |].
      intros r Hr. inversion Hr; subst. destruct F as [_ [F _]]. now rewrite F.
  - inversion H; subst. split; discriminate.
  - apply streamRounds_bound in E2; [ tauto | lia | rewrite R1; unfold budgetBound; lia ].
Qed.

End Rounds.

(** ** Where the abort signal was seen *)

Lemma Calm_refl (st : St) : Calm st st.
Proof.
  exists []. rewrite app_nil_r. simpl. rewrite plusUsage_zero_r. auto.
Qed.

Lemma notCheck_notSeen (e : Event) : isAbortCheck e = false -> isAbortSeen e = false.
Proof. destruct e as [[] | | | | | |]; simpl; auto. Qed.

Lemma Calm_Mild (st0 st st' : St) : Calm st0 st -> Mild st st' -> Calm st0 st'.
Proof.
  intros [e1 [T1 [F1 U1]]] [[e2 [T2 [F2 U2]]] _].
  exists (e1 ++ e2). repeat split.
  - now rewrite T2, T1, app_assoc.
  - apply Forall_app. split; auto.
    eapply Forall_impl; [ | exact F2 ]. apply notCheck_notSeen.
  - now rewrite U2, U1, usageSum_app, plusUsage_assoc.
Qed.

Lemma Calm_check_false (st0 st : St) (held : string) :
  Calm st0 st -> nextAbort st = false -> Calm st0 (afterAbortCheck held st).
Proof.
  intros [e1 [T1 [F1 U1]]] Hn.
  exists (e1 ++ [EvAbortCheck false held]). repeat split; simpl.
  - now rewrite Hn, T1, app_assoc.
  - apply Forall_app. split; auto.
  - rewrite U1, usageSum_app. simpl. now rewrite !plusUsage_zero_r.
Qed.

Lemma Stopped_check_true (st0 st : St) (held : string) :
  Calm st0 st -> nextAbort st = true -> Stopped st0 (afterAbortCheck held st) held.
Proof.
  intros [e1 [T1 [F1 U1]]] Hn.
  exists e1, []. repeat split; simpl; auto.
  now rewrite Hn, T1, app_assoc.
Qed.

Lemma Stopped_emitDone (st0 st : St) (held : string) :
  Stopped st0 st held -> Stopped st0 (snd (emitDone st)) held.
Proof.
  intros [b [a [T [Fb [Fa U]]]]].
  exists b, (a ++ [EvEmit (ChunkDone (totalUsage (agent st)))]). cbn. repeat split; auto.
  - rewrite T. rewrite <- !app_assoc. reflexivity.
  - apply Forall_app. split; auto.
Qed.

(** *** Loops that may leave by [return] *)

Lemma Shape_Calm (st0 st : St) {L} (o : Outcome (Flow L AgentResult)) :
  Calm st0 st -> Shape st0 o st.
Proof. destruct o as [[l | r] | e |]; simpl; auto. Qed.

Lemma shaped_of_mild {L} (m : M (Flow L AgentResult)) : preserves Mild m -> shaped m.
Proof. intros Hm st0 st C. apply Shape_Calm. eapply Calm_Mild; [exact C | apply Hm]. Qed.

Lemma shaped_bind {A L} (m : M A) (f : A -> M (Flow L AgentResult)) :
  preserves Mild m -> (forall a, shaped (f a)) -> shaped (bind m f).
Proof.
  intros Hm Hf st0 st C. rewrite bind_run.
  pose proof (Calm_Mild C (Hm st)) as C1.
  destruct (m st) as [[a | e |] st1]; simpl in *; auto.
  apply Hf. exact C1.
Qed.

Lemma shaped_flow {L L'} (m : M (Flow L AgentResult))
  (k : L -> M (Flow L' AgentResult)) :
  shaped m -> (forall l, shaped (k l)) ->
  shaped (bind m (fun x => match x with
                           | Continue l => k l
                           | Return r => ret (Return r)
                           end)).
Proof.
  intros Hm Hk st0 st C. rewrite bind_run. specialize (Hm st0 st C).
  destruct (m st) as [[[l | r] | e |] st1]; simpl in *; auto.
  apply Hk. exact Hm.
Qed.

Lemma shaped_abort {L} (held text : string) (k : M (Flow L AgentResult)) :
  text = held -> shaped k ->
  shaped (bind (isAborted held)
               (fun b => if b then r <- resultWith text ;; ret (Return r) else k)).
Proof.
  intros -> Hk st0 st C. rewrite bind_isAborted.
  destruct (nextAbort st) eqn:Hn.
  - cbn. right. split; [ | reflexivity ]. simpl.
    apply (Stopped_check_true held C Hn).
  - apply Hk. now apply Calm_check_false.
Qed.

Lemma shaped_abort_done {L} (held text : string) (k : M (Flow L AgentResult)) :
  text = held -> shaped k ->
  shaped (bind (isAborted held)
               (fun b => if b then emitDone ;; r <- resultWith text ;; ret (Return r)
                         else k)).
Proof.
  intros -> Hk st0 st C. rewrite bind_isAborted.
  destruct (nextAbort st) eqn:Hn.
  - pose proof (Stopped_emitDone (Stopped_check_true held C Hn)) as S.
    cbn in *. right. split; [ exact S | reflexivity ].
  - apply Hk. now apply Calm_check_false.
Qed.

Lemma mild_getAgent : preserves Mild getAgent.
Proof. apply preserves_getAgent. Qed.

Lemma mild_getEnv : preserves Mild getEnv.
Proof. apply preserves_getEnv. Qed.

Lemma mild_ret {A} (a : A) : preserves Mild (ret a).
Proof. apply preserves_ret. Qed.

Lemma mild_throw {A} (e : string) : preserves Mild (@throw A e).
Proof. apply preserves_throw. Qed.

#[export] Hint Resolve mild_getAgent mild_getEnv mild_ret mild_throw : frame.

Ltac shaped_step :=
  lazymatch goal with
  | |- shaped (bind (isAborted _) (fun b => if b then bind emitDone _ else _)) =>
      apply shaped_abort_done; [ reflexivity | ]
  | |- shaped (bind (isAborted _) _) => apply shaped_abort; [ reflexivity | ]
  | |- shaped (bind _ (fun x => match x with Continue _ => _ | Return _ => _ end)) =>
      apply shaped_flow; [ | intros ]
  | |- shaped (bind _ _) => apply shaped_bind; [ solve [frame] | intros ]
  | |- shaped (let _ := _ in _) => cbv zeta
  | |- shaped (match ?x with _ => _ end) => destruct x
  | |- shaped _ => apply shaped_of_mild; solve [frame]
  end.

Ltac shaping := repeat (first [ assumption | solve [auto] | shaped_step ]).

Section ShapedCode.

Variable rt : Runtime.

Lemma shaped_executeRounds (fuel : nat) (tools : list ToolDefinition) :
  shaped (executeRounds rt fuel tools).
Proof.
  induction fuel as [| fuel IH]; simpl.
  - apply shaped_of_mild. apply preserves_outOfFuel.
  - shaping.
Qed.

Lemma shaped_consumeDeltas (chunks : list ChatStreamChunk) (s : Scan) :
  shaped (consumeDeltas rt chunks s).
Proof.
  revert s. induction chunks as [| c chunks IH]; intro s; simpl; shaping.
Qed.

Lemma shaped_streamRounds (fuel : nat) (tools : list ToolDefinition) :
  shaped (streamRounds rt fuel tools).
Proof.
  pose proof shaped_consumeDeltas.
  induction fuel as [| fuel IH]; simpl.
  - apply shaped_of_mild. apply preserves_outOfFuel.
  - shaping.
Qed.

End ShapedCode.

(** *** Whole executions *)

Ltac calm_advance E C :=
  lazymatch type of E with
  | ?m ?cur = (_, ?new) =>
      let C' := fresh "C" in
      assert (C' : Mild cur new) by
        (let P := fresh in
         assert (P : preserves Mild m) by (solve [frame]);
         specialize (P cur); rewrite E in P; exact P);
      apply (Calm_Mild C) in C'; clear C; rename C' into C
  end.

Section Executions.

Variable rt : Runtime.

Lemma consumeFinal_shape (chunks : list ChatStreamChunk) :
  forall (text : string) (st0 st st' : St) (o : Outcome (string * bool)),
    Calm st0 st ->
    consumeFinal chunks text st = (o, st') ->
    match o with
    | Ok (t, true) => Stopped st0 st' t
    | _ => Calm st0 st'
    end.
Proof.
  induction chunks as [| c chunks IH]; intros text st0 st st' o C H; simpl in H.
  { inversion H; subst. exact C. }
  bind_in H as u1 st1 E1; try discriminate E1.
  calm_advance E1 C. rewrite bind_isAborted in H.
  destruct (nextAbort st1) eqn:Hn.
  { pose proof (Stopped_emitDone (Stopped_check_true text C Hn)) as S.
    cbn in H. inversion H; subst. exact S. }
  apply (Calm_check_false text) in C; [ | exact Hn ].
  bind_in H as u2 st2 E2;
    [ | calm_advance E2 C; inversion H; subst; exact C
      | calm_advance E2 C; inversion H; subst; exact C ].
  calm_advance E2 C.
  bind_in H as u3 st3 E3;
    [ | calm_advance E3 C; inversion H; subst; exact C
      | calm_advance E3 C; inversion H; subst; exact C ].
  calm_advance E3 C.
  bind_in H as u4 st4 E4;
    [ | calm_advance E4 C; inversion H; subst; exact C
      | calm_advance E4 C; inversion H; subst; exact C ].
  calm_advance E4 C.
  eapply IH; eauto.
Qed.

Lemma forcedAnswer_shape (st0 st st' : St) (o : Outcome AgentResult) :
  Calm st0 st -> forcedAnswer st = (o, st') -> TopShape st0 o st'.
Proof.
  intros C H.
  assert (P : preserves Mild forcedAnswer) by (unfold forcedAnswer; frame).
  specialize (P st). rewrite H in P. simpl in P.
  pose proof (Calm_Mild C P). destruct o; simpl; auto.
Qed.

Lemma forcedStream_shape (st0 st st' : St) (o : Outcome AgentResult) :
  Calm st0 st -> forcedStream st = (o, st') -> TopShape st0 o st'.
Proof.
  unfold forcedStream. intros C H. rewrite bind_isAborted in H.
  destruct (nextAbort st) eqn:Hn.
  { pose proof (Stopped_emitDone (Stopped_check_true "" C Hn)) as S.
    cbn in H. inversion H; subst. right. split; [ exact S | reflexivity ]. }
  apply (Calm_check_false "") in C; [ | exact Hn ].
  assert (Hend : forall (o0 : Outcome AgentResult) cur,
            Calm st0 cur -> (o0, cur) = (o, st') ->
            match o0 with Ok _ => False | _ => True end -> TopShape st0 o st').
  { intros o0 cur Cc Hc Hn0. inversion Hc; subst. destruct o; simpl; tauto. }
  bind_in H as u1 st1 E1; [ | calm_advance E1 C; eapply Hend; eauto; exact I
                          | calm_advance E1 C; eapply Hend; eauto; exact I ].
  calm_advance E1 C. rewrite bind_getAgent in H.
  bind_in H as reply st2 E2; [ | calm_advance E2 C; eapply Hend; eauto; exact I
                             | calm_advance E2 C; eapply Hend; eauto; exact I ].
  calm_advance E2 C.
  bind_in H as collected st3 E3.
  - pose proof (consumeFinal_shape _ _ C E3) as S. destruct collected as [text broke].
    destruct broke; cbn in H.
    + inversion H; subst. right. split; [ exact S | reflexivity ].
    + destruct (fails reply); cbn in H; inversion H; subst; simpl; auto.
  - pose proof (consumeFinal_shape _ _ C E3) as S. inversion H; subst. exact S.
  - pose proof (consumeFinal_shape _ _ C E3) as S. inversion H; subst. exact S.
Qed.

Lemma mild_prepareTurn (userMessage : string) (streaming : bool) :
  preserves Mild (prepareTurn rt userMessage streaming).
Proof. unfold prepareTurn. frame. Qed.

Lemma execute_shape (userMessage : string) (st st' : St) (o : Outcome AgentResult) :
  execute rt userMessage st = (o, st') -> TopShape st o st'.
Proof.
  unfold execute. intro H. rewrite bind_isAborted in H.
  destruct (nextAbort st) eqn:Hn.
  { cbn in H. inversion H; subst. right. split; [ | reflexivity ].
    exists [], []. simpl. rewrite Hn. repeat split; auto.
    now rewrite plusUsage_zero_r. }
  pose proof (Calm_check_false "" (Calm_refl st) Hn) as C.
  pose proof (mild_prepareTurn userMessage false (afterAbortCheck "" st)) as P.
  bind_in H as tools st1 E1; simpl in P; pose proof (Calm_Mild C P) as C1;
    [ | inversion H; subst; exact C1 | inversion H; subst; exact C1 ].
  rewrite bind_getEnv in H.
  pose proof (shaped_executeRounds rt (S (List.length (chatScript (env st1)))) tools C1)
    as Sh.
  bind_in H as flow st2 E2; simpl in Sh;
    [ | inversion H; subst; exact Sh | inversion H; subst; exact Sh ].
  destruct flow as [[] | r].
  - eapply forcedAnswer_shape; eauto.
  - inversion H; subst. exact Sh.
Qed.

Lemma executeStream_shape (userMessage : string) (st st' : St) (o : Outcome AgentResult) :
  executeStream rt userMessage st = (o, st') -> TopShape st o st'.
Proof.
  unfold executeStream. intro H. rewrite bind_isAborted in H.
  destruct (nextAbort st) eqn:Hn.
  { cbn in H. inversion H; subst. right. split; [ | reflexivity ].
    exists [], [EvEmit (ChunkDone (totalUsage (agent st)))]. simpl. rewrite Hn.
    repeat split; auto.
    - now rewrite <- app_assoc.
    - now rewrite plusUsage_zero_r. }
  pose proof (Calm_check_false "" (Calm_refl st) Hn) as C.
  pose proof (mild_prepareTurn userMessage true (afterAbortCheck "" st)) as P.
  bind_in H as tools st1 E1; simpl in P; pose proof (Calm_Mild C P) as C1;
    [ | inversion H; subst; exact C1 | inversion H; subst; exact C1 ].
  rewrite bind_getEnv in H.
  pose proof (shaped_streamRounds rt (S (List.length (streamScript (env st1)))) tools C1)
    as Sh.
  bind_in H as flow st2 E2; simpl in Sh;
    [ | inversion H; subst; exact Sh | inversion H; subst; exact Sh ].
  destruct flow as [[] | r].
  - eapply forcedStream_shape; eauto.
  - inversion H; subst. exact Sh.
Qed.

End Executions.

Lemma Calm_not_seen (st st' : St) (before after : list Event) (held : string) :
  Calm st st' ->
  trace st' = trace st ++ before ++ EvAbortCheck true held :: after -> False.
Proof.
  intros [events [T [F _]]] H. rewrite T in H. apply app_inv_head in H. subst events.
  apply Forall_app in F. destruct F as [_ F]. inversion F; subst. discriminate.
Qed.

Lemma first_seen_unique (b1 a1 b2 a2 : list Event) (h1 h2 : string) :
  b1 ++ EvAbortCheck true h1 :: a1 = b2 ++ EvAbortCheck true h2 :: a2 ->
  Forall (fun e => isAbortSeen e = false) b1 ->
  Forall (fun e => isAbortSeen e = false) a1 ->
  b1 = b2 /\ h1 = h2 /\ a1 = a2.
Proof.
  revert b2. induction b1 as [| e b1 IH]; intros [| e2 b2] H Fb Fa; simpl in H.
  - inversion H; subst. auto.
  - inversion H; subst. apply Forall_app in Fa. destruct Fa as [_ Fa].
    inversion Fa; subst. discriminate.
  - inversion H; subst. inversion Fb; subst. discriminate.
  - inversion H; subst. inversion Fb; subst.
    destruct (IH b2 H2 H4 Fa) as [-> [-> ->]]. auto.
Qed.

Lemma done_not_seen (e : Event) : isDoneEmit e = true -> isAbortSeen e = false.
Proof. destruct e as [[] | | | | | |]; simpl; auto; discriminate. Qed.

Lemma done_not_call (e : Event) : isDoneEmit e = true -> isCall e = false.
Proof. destruct e; simpl; auto; discriminate. Qed.

(** ** Where the evidence lands *)


Lemma findIndexFrom_first {A} (p : A -> bool) (l r : list A) (x : A) (i : Z) :
  Forall (fun y => p y = false) l -> p x = true ->
  findIndexFrom p (l ++ x :: r) i = (i + Z.of_nat (List.length l))%Z.
Proof.
  revert i. induction l as [| y l IH]; intros i F Hx; simpl.
  - rewrite Hx. lia.
  - inversion F; subst. rewrite H1, IH; auto. lia.
Qed.

Lemma spliceIn_at {A} (a b : list A) (x : A) :
  spliceIn (a ++ b) (Z.of_nat (List.length a)) x = a ++ x :: b.
Proof.
  unfold spliceIn, Js.sliceIndex. rewrite length_app.
  replace (Z.of_nat (List.length a) <? 0)%Z with false by (symmetry; apply Z.ltb_ge; lia).
  rewrite Z.min_l by lia. rewrite Nat2Z.id.
  rewrite firstn_app, Nat.sub_diag, firstn_all. simpl. rewrite app_nil_r.
  rewrite skipn_app, Nat.sub_diag, skipn_all. reflexivity.
Qed.

(** With a user message in the transcript, the evidence goes right before
    the last one. *)
Lemma insertEvidence_last_user (before after : list ChatMessage) (u ev : ChatMessage) :
  isUser u = true -> Forall (fun m => isUser m = false) after ->
  insertEvidence (before ++ u :: after) ev = before ++ ev :: u :: after.
Proof.
  intros Hu Fa. unfold insertEvidence.
  rewrite rev_app_distr. simpl. rewrite <- app_assoc. simpl.
  unfold findIndex. rewrite findIndexFrom_first; auto.
  2: { apply Forall_rev. exact Fa. }
  rewrite length_rev, length_app, Z.add_0_l. simpl List.length.
  destruct (Z.eqb_spec (Z.of_nat (List.length after)) (-1)%Z) as [E | E]; [lia |].
  replace (Z.of_nat (List.length before + S (List.length after)) - 1
           - Z.of_nat (List.length after))%Z
    with (Z.of_nat (List.length before)) by lia.
  apply spliceIn_at.
Qed.


(** A transcript has no user message, or it has a last one. *)
Lemma last_user_split (ms : list ChatMessage) :
  Forall (fun m => isUser m = false) ms
  \/ exists before u after,
       ms = before ++ u :: after /\ isUser u = true
       /\ Forall (fun m => isUser m = false) after.
Proof.
  induction ms as [| m ms IH].
  - left. constructor.
  - destruct IH as [F | [before [u [after [E [Hu Fa]]]]]].
    + destruct (isUser m) eqn:Hm.
      * right. exists [], m, ms. auto.
      * left. constructor; auto.
    + right. exists (m :: before), u, after. subst. auto.
Qed.

(** ** The transcript after the pipeline *)

#[export] Instance Aside_Frame : Frame Aside.
Proof.
  split.
  - intro st. split; auto.
  - intros a b c [M1 U1 R1 C1 T1 G1] [M2 U2 R2 C2 T2 G2]. split; congruence.
Qed.

Lemma aside_chat (sent : list ChatMessage) (withTools : bool) :
  preserves Aside (chat sent withTools).
Proof.
  intro st. unfold chat. cbn.
  destruct (match chatScript (env st) with r :: _ => r | [] => None end); cbn;
    split; reflexivity.
Qed.

Lemma aside_addUsage (u : option TokenUsage) : preserves Aside (addUsage u).
Proof. destruct u; intro st; split; reflexivity. Qed.

#[export] Hint Resolve aside_chat aside_addUsage : frame.

Section Transcript.

Variable rt : Runtime.

Lemma aside_rewritePlan (userMessage : string) :
  preserves Aside (rewritePlan rt userMessage).
Proof. unfold rewritePlan. frame. Qed.

Lemma tryCatch_ret_caught {A} (m : M A) (a : A) (st : St) (e : string) :
  fst (tryCatch m (ret a) st) <> Throw e.
Proof.
  unfold tryCatch. destruct (m st) as [[x | e' |] st1]; simpl; discriminate.
Qed.

(** The rewrite step always yields a plan: its failures are caught. *)
Lemma rewritePlan_ok (userMessage : string) (st : St) :
  exists plan st', rewritePlan rt userMessage st = (Ok plan, st').
Proof.
  pose proof (total_rewritePlan rt userMessage st) as T.
  assert (C : forall e, fst (rewritePlan rt userMessage st) <> Throw e)
    by (intro e; apply tryCatch_ret_caught).
  destruct (rewritePlan rt userMessage st) as [[p | e |] st1]; simpl in *; eauto.
  - exfalso. now apply (C e).
  - congruence.
Qed.

(** The transcript after the forced search, step by step. *)
Lemma forcedSearch_messages (plan0 : Plan) (tools : list ToolDefinition)
  (streaming : bool) (st : St) :
  hasSemanticSearch tools = true ->
  let plan := clampPlan (context (agent st)) plan0 in
  let uuid := randomUUID rt (uuidCounter (env st)) in
  let first := hd_error (toolRuntime (env st) [forcedCall rt plan uuid]) in
  let written := messages (agent st) ++ [forcedAssistant rt plan uuid; forcedToolMessage rt uuid first] in
  exists st',
    forcedSearch rt plan0 tools streaming st = (Ok true, st')
    /\ toolsUsed (agent st') = toolsUsed (agent st) ++ [JStr "semantic_search_messages"]
    /\ messages (agent st') =
       match first with
       | Some r =>
           if success r && Val.truthy (result r)
           then insertEvidence written (plainMessage system (evidenceBlock rt plan (result r)))
           else written
       | None => written
       end.
Proof.
  intros Ht plan uuid first written. unfold forcedSearch.
  rewrite bind_getAgent. cbv zeta. rewrite Ht. simpl negb. cbv iota.
  subst plan uuid first written. unfold forcedAssistant, forcedToolMessage, forcedCall.
  destruct streaming;
    cbn -[String.append evidenceBlock insertEvidence clampPlan planObject
          toolTextFirst reportedFirst hd_error];
    (destruct (hd_error _) as [r |];
     [ destruct (success r && Val.truthy (result r)) | ];
     cbn -[String.append evidenceBlock insertEvidence clampPlan planObject
           toolTextFirst reportedFirst hd_error];
     eexists; (split; [ reflexivity | split; [ reflexivity | ] ]);
     rewrite <- ?app_assoc; reflexivity).
Qed.

Lemma getEmbeddingModel_run (st : St) :
  getEmbeddingModel st =
  (Ok (match embeddingModel (env st) with
       | Some m => if Js.nonEmpty (Js.trim m) then Some (Js.trim m) else None
       | None => None
       end), st).
Proof. reflexivity. Qed.


(** *** Tool dispatch *)






End Transcript.

(** ** The legacy retrieval *)

#[export] Instance Untouched_Frame : Frame Untouched.
Proof.
  split.
  - intro st. split; auto.
  - intros a b c [A1 R1 C1] [A2 R2 C2]. split; congruence.
Qed.

Lemma untouched_getAllToolDefinitions : preserves Untouched getAllToolDefinitions.
Proof. unfold getAllToolDefinitions. frame. Qed.

Lemma untouched_freshUUID (rt : Runtime) : preserves Untouched (freshUUID rt).
Proof. intro st. split; reflexivity. Qed.

Lemma untouched_executeToolCalls (calls : list ToolCall) :
  preserves Untouched (executeToolCalls calls).
Proof. intro st. split; reflexivity. Qed.

#[export] Hint Resolve untouched_getAllToolDefinitions untouched_freshUUID
  untouched_executeToolCalls : frame.

Section Legacy.

Variable rt : Runtime.

Lemma untouched_runAutoSemanticSearch (userMessage : string) :
  preserves Untouched (runAutoSemanticSearch rt userMessage).
Proof. unfold runAutoSemanticSearch. frame. Qed.

Lemma runAutoSemanticSearch_ok (userMessage : string) (st : St) :
  exists found st', runAutoSemanticSearch rt userMessage st = (Ok found, st').
Proof.
  pose proof (total_runAutoSemanticSearch rt userMessage st) as T.
  assert (C : forall e, fst (runAutoSemanticSearch rt userMessage st) <> Throw e)
    by (intro e; apply tryCatch_ret_caught).
  destruct (runAutoSemanticSearch rt userMessage st) as [[p | e |] st1]; simpl in *; eauto.
  - exfalso. now apply (C e).
  - congruence.
Qed.

(** Evidence comes only from a successful retrieval whose [results] is an
    array that is not empty. *)
Lemma runAutoSemanticSearch_found (userMessage text : string) (st st' : St) :
  runAutoSemanticSearch rt userMessage st = (Ok (Some text), st') ->
  exists uuid r0 rest item items lines,
    toolRuntime (env st) [autoCall rt userMessage uuid] = r0 :: rest
    /\ success r0 = true
    /\ Val.optProp (result r0) "results" = JArr (item :: items)
    /\ text = autoEvidence userMessage (result r0) lines.
Proof.
  unfold runAutoSemanticSearch, tryCatch. intro H.
  match type of H with
  | (match ?m st with _ => _ end) = _ => destruct (m st) as [[found | e |] st1] eqn:E
  end; try discriminate H.
  inversion H; subst found st1. clear H.
  rewrite bind_getAllToolDefinitions in E.
  destruct (toolCatalog (env st)) as [tools |]; [ | discriminate E ].
  destruct (hasSemanticSearch tools); cbn [negb] in E; [ | discriminate E ].
  rewrite bind_freshUUID in E. cbv zeta in E. rewrite bind_executeToolCalls in E.
  simpl env in E. simpl toolRuntime in E.
  match type of E with
  | context [hd_error ?l] => destruct l as [| r0 rest] eqn:R
  end; cbn [hd_error] in E; [ discriminate E |].
  destruct (success r0) eqn:Hs; cbn [negb] in E; [ | discriminate E ].
  cbv zeta in E.
  destruct (Val.optProp (result r0) "results") as [ | | | | | [| item items] | ] eqn:Hr;
    try discriminate E.
  destruct (formatItems 0 (firstn 8 (item :: items))) as [lines |] eqn:Hl;
    [ | discriminate E ].
  inversion E; subst. simpl in R.
  exists (randomUUID rt (uuidCounter (env st))), r0, rest, item, items, lines.
  unfold autoCall. auto.
Qed.

Lemma autoEvidence_nonEmpty (userMessage : string) (data : JsVal) (lines : list string) :
  Js.nonEmpty (autoEvidence userMessage data lines) = true.
Proof. reflexivity. Qed.

(** When the legacy retrieval does insert: the tool is in the catalogue, the
    call succeeds, [results] is an array that is not empty, and each of its
    first eight items can be read. *)
Lemma legacy_search_inserts (userMessage : string) (st : St)
  (catalog : list ToolDefinition) (r0 : ToolResult) (rest : list ToolResult)
  (item : JsVal) (items : list JsVal) (lines : list string)
  (before : list ChatMessage) (u : ChatMessage) :
  shouldAutoSemanticSearch userMessage = true ->
  toolCatalog (env st) = Some catalog ->
  hasSemanticSearch catalog = true ->
  toolRuntime (env st) [autoCall rt userMessage (randomUUID rt (uuidCounter (env st)))]
  = r0 :: rest ->
  success r0 = true ->
  Val.optProp (result r0) "results" = JArr (item :: items) ->
  formatItems 0 (firstn 8 (item :: items)) = Some lines ->
  messages (agent st) = before ++ [u] ->
  exists st',
    autoSemanticStep rt userMessage false st = (Ok tt, st')
    /\ messages (agent st') =
       before ++ [plainMessage system (autoEvidence userMessage (result r0) lines); u].
Proof.
  intros Hs Hc Ht Hr Hok Hres Hl Hm.
  unfold autoSemanticStep. simpl negb. rewrite andb_true_l, Hs.
  assert (E : runAutoSemanticSearch rt userMessage st
              = (Ok (Some (autoEvidence userMessage (result r0) lines)),
                 {| agent := agent st;
                    env := withUuidCounter (S (uuidCounter (env st))) (env st);
                    trace := trace st
                             ++ [EvToolExec
                                   [autoCall rt userMessage
                                             (randomUUID rt (uuidCounter (env st)))]
                                   (r0 :: rest)] |})).
  { unfold runAutoSemanticSearch, tryCatch.
    rewrite bind_getAllToolDefinitions, Hc, Ht. cbn [negb].
    rewrite bind_freshUUID. cbv zeta. rewrite bind_executeToolCalls.
    cbn [env toolRuntime withUuidCounter]. unfold autoCall in Hr. rewrite Hr.
    cbn [hd_error]. rewrite Hok. cbn [negb]. cbv zeta. rewrite Hres, Hl. reflexivity. }
  rewrite bind_run, E. rewrite autoEvidence_nonEmpty.
  eexists. split; [ reflexivity |]. simpl. rewrite Hm, length_app. simpl List.length.
  replace (Z.of_nat (List.length before + 1) - 1)%Z with (Z.of_nat (List.length before))
    by lia.
  apply spliceIn_at.
Qed.

End Legacy.

(** ** The fallback parser *)

Lemma parseBlocks_none (rt : Runtime) (blocks : list string) (st : St) :
  Forall (fun b => parseBlock rt b = None) blocks ->
  parseBlocks rt blocks st = (Ok [], st).
Proof.
  induction 1 as [| b blocks Hb _ IH]; simpl; [ reflexivity |].
  now rewrite Hb.
Qed.

Lemma blocks_need_marker (text : string) :
  toolCallBlocks text <> [] -> hasToolCallTags text = true.
Proof.
  unfold toolCallBlocks, Js.matchAll, hasToolCallTags, Js.testCI.
  cbn [Js.segments].
  destruct (Js.findCI "<tool_call>" text); [ reflexivity |].
  simpl. intro H. now contradiction H.
Qed.

Lemma toLowerCase_drop (n : nat) (s : string) :
  Js.toLowerCase (Js.drop n s) = Js.drop n (Js.toLowerCase s).
Proof.
  revert s. induction n as [| n IH]; intros [| c s]; simpl; auto.
Qed.

Lemma toLowerCase_app (a b : string) :
  Js.toLowerCase (a ++ b) = (Js.toLowerCase a ++ Js.toLowerCase b)%string.
Proof. induction a as [| c a IH]; simpl; [ reflexivity | now rewrite IH ]. Qed.

Lemma find_none_tail (p : string) (c : ascii) (s : string) :
  Js.find p (String c s) = None -> Js.find p s = None.
Proof.
  simpl. destruct (Js.startsWith p (String c s)); [ discriminate |].
  destruct (Js.find p s); [ discriminate | auto ].
Qed.

Lemma find_none_drop (p : string) (n : nat) (s : string) :
  Js.find p s = None -> Js.find p (Js.drop n s) = None.
Proof.
  revert s. induction n as [| n IH]; intros [| c s] H; simpl; auto.
  apply IH. eapply find_none_tail. exact H.
Qed.

Lemma startsWith_self_app (p b : string) : Js.startsWith p (p ++ b) = true.
Proof.
  induction p as [| c p IH]; simpl; [ reflexivity |].
  now rewrite Ascii.eqb_refl, IH.
Qed.

Lemma find_here (p s : string) : Js.startsWith p s = true -> Js.find p s = Some O.
Proof. intro H. destruct s; simpl; now rewrite H. Qed.

(** A pattern is found in every text that holds it. *)
Lemma find_in_app (p a b : string) : Js.find p (a ++ p ++ b) <> None.
Proof.
  induction a as [| c a IH]; simpl.
  - rewrite find_here by apply startsWith_self_app. discriminate.
  - destruct (Js.startsWith p (String c (a ++ p ++ b))); [ discriminate |].
    destruct (Js.find p (a ++ p ++ b)); [ discriminate | contradiction ].
Qed.

(** Without a closing marker there is no block. *)
Lemma blocks_need_closing (text : string) :
  Js.testCI "</tool_call>" text = false -> toolCallBlocks text = [].
Proof.
  unfold toolCallBlocks, Js.matchAll, Js.testCI, Js.findCI. cbn [Js.segments].
  intro H.
  destruct (Js.find "</tool_call>" (Js.toLowerCase text)) eqn:F; [ discriminate H |].
  unfold Js.findCI.
  destruct (Js.find "<tool_call>" (Js.toLowerCase text)) as [i |]; [ | reflexivity ].
  rewrite toLowerCase_drop, (@find_none_drop _ _ _ F). reflexivity.
Qed.

(** The opening marker is all that [hasToolCallTags] looks for. *)
Lemma opening_marker_is_enough (pre post : string) :
  hasToolCallTags (pre ++ "<tool_call>" ++ post) = true.
Proof.
  unfold hasToolCallTags, Js.testCI, Js.findCI. rewrite !toLowerCase_app.
  change (Js.toLowerCase "<tool_call>") with "<tool_call>".
  pose proof (find_in_app "<tool_call>" (Js.toLowerCase pre) (Js.toLowerCase post)) as N.
  destruct (Js.find "<tool_call>" _); [ reflexivity | contradiction ].
Qed.

Lemma parseBlocks_run (rt : Runtime) (blocks : list string) :
  forall st, exists calls st',
    parseBlocks rt blocks st = (Ok calls, st')
    /\ map (fun c => (tc_name c, tc_arguments c)) calls = validBlocks rt blocks.
Proof.
  induction blocks as [| b blocks IH]; intro st; simpl.
  - exists [], st. auto.
  - unfold validBlocks. cbn [flat_map].
    destruct (parseBlock rt b) as [[name args] |].
    + rewrite bind_freshUUID.
      match goal with
      | |- context [bind (parseBlocks rt blocks) _ ?s] =>
          destruct (IH s) as [calls [st' [E M]]]
      end.
      rewrite bind_run, E. cbn [ret]. do 2 eexists. split; [ reflexivity |].
      simpl. now rewrite M.
    + destruct (IH st) as [calls [st' [E M]]]. exists calls, st'. auto.
Qed.

Lemma validBlocks_nil (rt : Runtime) (blocks : list string) :
  validBlocks rt blocks = [] -> Forall (fun b => parseBlock rt b = None) blocks.
Proof.
  induction blocks as [| b blocks IH]; [ constructor |].
  unfold validBlocks. cbn [flat_map].
  destruct (parseBlock rt b) as [x |] eqn:E; [ discriminate |].
  intro H. constructor; auto.
Qed.

(** ** The total of [execute] is the sum of what its model calls reported *)

Lemma deliveredUsage_app (a b : list Event) :
  deliveredUsage (a ++ b) = plusUsage (deliveredUsage a) (deliveredUsage b).
Proof.
  induction a as [| e a IH]; simpl.
  - now rewrite plusUsage_zero_l.
  - destruct e as [ | s w [r |] | | c | | | ]; rewrite IH; auto;
      now rewrite plusUsage_assoc.
Qed.

#[export] Instance Counted_Frame : Frame Counted.
Proof.
  split.
  - intro st. exists []. rewrite app_nil_r. simpl. now rewrite plusUsage_zero_r.
  - intros a b c [e1 [T1 U1]] [e2 [T2 U2]]. exists (e1 ++ e2). split.
    + now rewrite T2, T1, app_assoc.
    + now rewrite U2, U1, deliveredUsage_app, plusUsage_assoc.
Qed.

Lemma Counted_silent (st st' : St) (events : list Event) :
  trace st' = trace st ++ events ->
  deliveredUsage events = zeroUsage ->
  totalUsage (agent st') = totalUsage (agent st) ->
  Counted st st'.
Proof.
  intros T D U. exists events. split; auto. now rewrite D, plusUsage_zero_r.
Qed.

Lemma counted_onChunkIf (b : bool) (c : AgentStreamChunk) : preserves Counted (onChunkIf b c).
Proof.
  destruct b; [ | apply preserves_ret ].
  intro st. now apply Counted_silent with (events := [EvEmit c]).
Qed.

Lemma counted_setAgent (f : Agent -> Agent) :
  (forall a, totalUsage (f a) = totalUsage a) -> preserves Counted (setAgent f).
Proof.
  intros Hf st. apply Counted_silent with (events := []); simpl; auto.
  now rewrite app_nil_r.
Qed.

Lemma counted_pushMessage (m : ChatMessage) : preserves Counted (pushMessage m).
Proof. now apply counted_setAgent. Qed.

Lemma counted_pushToolUsed (n : JsVal) : preserves Counted (pushToolUsed n).
Proof. now apply counted_setAgent. Qed.

Lemma counted_setMessages (f : Agent -> list ChatMessage) :
  preserves Counted (setAgent (fun a => withMessages (f a) a)).
Proof. now apply counted_setAgent. Qed.

Lemma counted_incrementToolRounds : preserves Counted incrementToolRounds.
Proof. now apply counted_setAgent. Qed.

Lemma counted_resetForTurn (userMessage : string) :
  preserves Counted (resetForTurn userMessage).
Proof.
  intro st. rewrite resetForTurn_run.
  apply Counted_silent with (events := []); simpl; auto. now rewrite app_nil_r.
Qed.

Lemma counted_freshUUID (rt : Runtime) : preserves Counted (freshUUID rt).
Proof.
  intro st. apply Counted_silent with (events := []); simpl; auto.
  now rewrite app_nil_r.
Qed.

Lemma counted_executeToolCalls (calls : list ToolCall) :
  preserves Counted (executeToolCalls calls).
Proof.
  intro st.
  now apply Counted_silent
    with (events := [EvToolExec calls (toolRuntime (env st) calls)]).
Qed.

Lemma counted_getAllToolDefinitions : preserves Counted getAllToolDefinitions.
Proof. unfold getAllToolDefinitions. frame. Qed.

Lemma counted_isAborted (held : string) : preserves Counted (isAborted held).
Proof.
  intro st. rewrite isAborted_run.
  now apply Counted_silent with (events := [EvAbortCheck (nextAbort st) held]).
Qed.

Lemma counted_resultWith (text : string) : preserves Counted (resultWith text).
Proof. unfold resultWith. frame. Qed.

(** A blocking model call together with the [addUsage] that follows it. *)
Lemma counted_chat_addUsage {B} (sent : list ChatMessage) (withTools : bool)
  (k : ChatResponse -> M B) :
  (forall r, preserves Counted (k r)) ->
  preserves Counted (bind (chat sent withTools)
                          (fun r => bind (addUsage (resp_usage r)) (fun _ => k r))).
Proof.
  intros Hk st. rewrite bind_run. unfold chat. rewrite bind_getEnv.
  destruct (chatScript (env st)) as [| [r |] rest]; cbn [hd tl].
  - cbn. now apply Counted_silent with (events := [EvChat sent withTools None]).
  - cbn -[addUsage]. rewrite bind_run.
    destruct (resp_usage r) as [u |] eqn:Hu; cbn [addUsage].
    + cbn. eapply frame_trans; [ | apply Hk ].
      exists [EvChat sent withTools (Some r); EvUsage u]. simpl. rewrite Hu. split.
      * now rewrite <- app_assoc.
      * now rewrite !plusUsage_zero_r.
    + cbn. eapply frame_trans; [ | apply Hk ].
      exists [EvChat sent withTools (Some r)]. simpl. rewrite Hu. split; auto.
      now rewrite !plusUsage_zero_r.
  - cbn. now apply Counted_silent with (events := [EvChat sent withTools None]).
Qed.

#[export] Hint Resolve counted_onChunkIf counted_pushMessage counted_pushToolUsed
  counted_setMessages counted_incrementToolRounds counted_resetForTurn counted_freshUUID
  counted_executeToolCalls counted_getAllToolDefinitions counted_isAborted
  counted_resultWith : frame.

Ltac counting :=
  repeat (first
    [ solve [eauto with frame]
    | apply counted_chat_addUsage; intros
    | frame_step ]).

Section CountedCode.

Variable rt : Runtime.

Lemma counted_parseBlocks (blocks : list string) : preserves Counted (parseBlocks rt blocks).
Proof. induction blocks as [| b blocks IH]; simpl; counting. Qed.

Lemma counted_recordResults (streaming : bool) (calls : list ToolCall)
  (results : list ToolResult) :
  preserves Counted (recordResults rt streaming calls results).
Proof.
  revert results. induction calls as [| tc calls IH]; intro results; simpl; counting.
Qed.

Lemma counted_prepareTurn (userMessage : string) (streaming : bool) :
  preserves Counted (prepareTurn rt userMessage streaming).
Proof.
  pose proof counted_parseBlocks.
  unfold prepareTurn, runSemanticPipeline, getEmbeddingModel, rewritePlan, forcedSearch,
    autoSemanticStep, runAutoSemanticSearch.
  counting.
Qed.

Lemma counted_executeRounds (fuel : nat) (tools : list ToolDefinition) :
  preserves Counted (executeRounds rt fuel tools).
Proof.
  pose proof counted_parseBlocks. pose proof counted_recordResults.
  induction fuel as [| fuel IH]; simpl; [ apply preserves_outOfFuel |].
  unfold callsOrAnswer, parseToolCallTags, handleToolCalls.
  counting.
Qed.

Lemma counted_execute (userMessage : string) : preserves Counted (execute rt userMessage).
Proof.
  pose proof counted_prepareTurn. pose proof counted_executeRounds.
  unfold execute, abortedAtEntry, forcedAnswer. counting.
Qed.

End CountedCode.

Lemma execute_total_shown (rt : Runtime) (userMessage : string) (st st' : St)
  (r : AgentResult) :
  execute rt userMessage st = (Ok r, st') -> res_totalUsage r = totalUsage (agent st').
Proof.
  unfold execute. intro H. rewrite bind_isAborted in H.
  destruct (nextAbort st).
  { cbn in H. inversion H; subst. reflexivity. }
  bind_in H as tools st1 E1; try discriminate H.
  rewrite bind_getEnv in H.
  pose proof (faithful_executeRounds rt (S (List.length (chatScript (env st1)))) tools st1)
    as F.
  bind_in H as flow st2 E2; try discriminate H. simpl in F.
  destruct flow as [[] | r0].
  - apply forcedAnswer_rounds in H. destruct H as [_ [_ F3]].
    now destruct (F3 r eq_refl).
  - inversion H; subst. tauto.
Qed.

(** ** Cancellation that was read *)

(** The reads that the code does make are honoured.  Once a read of the
    abort signal gives [true] (at the entry, at the start of a round, on a
    streamed delta, before or during the forced final stream), [execute] and
    [executeStream] return: the result carries the text held in the content
    variables at that read and the usage added up to it, and what follows
    the read in the trace is no call to the model transport or to the tool
    runtime, only [done] chunks. *)
Lemma observed_cancellation_returns_at_once (rt : Runtime) (userMessage : string)
  (st st' : St) (o : Outcome AgentResult) (before after : list Event) (held : string) :
  execute rt userMessage st = (o, st') \/ executeStream rt userMessage st = (o, st') ->
  trace st' = trace st ++ before ++ EvAbortCheck true held :: after ->
  Forall (fun e => isCall e = false) after
  /\ Forall (fun e => isDoneEmit e = true) after
  /\ exists r, o = Ok r /\ res_content r = held
       /\ res_totalUsage r = plusUsage (totalUsage (agent st)) (usageSum before).
Proof.
  intros H T.
  assert (Sh : TopShape st o st').
  { destruct H as [H | H]; [eapply execute_shape | eapply executeStream_shape]; eauto. }
  clear H. destruct o as [r | e |]; simpl in Sh;
    try (exfalso; eapply Calm_not_seen; eauto; fail).
  destruct Sh as [C | [[b [a [T' [Fb [Fa U]]]]] R]];
    [exfalso; eapply Calm_not_seen; eauto |].
  rewrite T in T'. apply app_inv_head in T'. symmetry in T'.
  apply first_seen_unique in T'; auto.
  2: { eapply Forall_impl; [ | exact Fa ]. apply done_not_seen. }
  destruct T' as [-> [<- ->]].
  split; [ | split ]; auto.
  - eapply Forall_impl; [ | exact Fa ]. apply done_not_call.
  - exists r. repeat split; auto. now rewrite R, U.
Qed.

Example cancellation_returns_at_once_on_a_delta :
  Forall (fun e => isCall e = false)
         (skipn 8 (trace (snd (executeStream nodeRuntime "hi" cancelledState))))
  /\ Forall (fun e => isDoneEmit e = true)
            (skipn 8 (trace (snd (executeStream nodeRuntime "hi" cancelledState))))
  /\ exists r,
       fst (executeStream nodeRuntime "hi" cancelledState) = Ok r
       /\ res_content r = "Hello "
       /\ res_totalUsage r =
          plusUsage (totalUsage (agent cancelledState))
            (usageSum (firstn 7 (trace (snd (executeStream nodeRuntime "hi"
                                               cancelledState))))).
Proof.
  apply (@observed_cancellation_returns_at_once nodeRuntime "hi" cancelledState
           (snd (executeStream nodeRuntime "hi" cancelledState))
           (fst (executeStream nodeRuntime "hi" cancelledState))).
  - right. apply surjective_pairing.
  - vm_compute. reflexivity.
Qed.

(** ** The search the pipeline runs *)

Section ForcedSearch.

Variable rt : Runtime.

(** The forced search hands its one call to the tool runtime. *)
Lemma forcedSearch_executes (plan0 : Plan) (tools : list ToolDefinition)
  (streaming : bool) (st : St) :
  hasSemanticSearch tools = true ->
  let plan := clampPlan (context (agent st)) plan0 in
  let call := forcedCall rt plan (randomUUID rt (uuidCounter (env st))) in
  exists st' events,
    forcedSearch rt plan0 tools streaming st = (Ok true, st')
    /\ trace st' = trace st ++ events
    /\ In (EvToolExec [call] (toolRuntime (env st) [call])) events.
Proof.
  intros Ht plan call. unfold forcedSearch.
  rewrite bind_getAgent. cbv zeta. rewrite Ht. simpl negb. cbv iota.
  subst call plan. unfold forcedCall.
  destruct streaming;
    cbn -[String.append evidenceBlock insertEvidence clampPlan planObject
          toolTextFirst reportedFirst hd_error];
    (destruct (hd_error _) as [r |];
     [ destruct (success r && Val.truthy (result r)) | ];
     cbn -[String.append evidenceBlock insertEvidence clampPlan planObject
           toolTextFirst reportedFirst hd_error];
     do 2 eexists; (split; [ reflexivity | ]);
     (split; [ rewrite <- ?app_assoc; reflexivity | simpl; auto ])).
Qed.

(** A pipeline that ran: the call it forced, what the tool runtime gave for
    it, and the transcript that results. *)
Lemma pipeline_search (userMessage : string) (tools : list ToolDefinition)
  (streaming : bool) (st st' : St) :
  runSemanticPipeline rt userMessage tools streaming st = (Ok true, st') ->
  exists plan uuid events,
    let results := toolRuntime (env st) [forcedCall rt plan uuid] in
    let written :=
      messages (agent st)
      ++ [forcedAssistant rt plan uuid; forcedToolMessage rt uuid (hd_error results)] in
    trace st' = trace st ++ events
    /\ In (EvToolExec [forcedCall rt plan uuid] results) events
    /\ messages (agent st') =
       match hd_error results with
       | Some r =>
           if success r && Val.truthy (result r)
           then insertEvidence written
                  (plainMessage system (evidenceBlock rt plan (result r)))
           else written
       | None => written
       end.
Proof.
  unfold runSemanticPipeline. intro H.
  rewrite bind_run, getEmbeddingModel_run in H.
  match type of H with
  | context [match ?x with Some _ => _ | None => _ end] => destruct x as [m |]
  end; [ | discriminate H ].
  destruct (rewritePlan_ok rt userMessage st) as [plan0 [st1 E]].
  pose proof (aside_rewritePlan rt userMessage st) as A. rewrite E in A. simpl in A.
  pose proof (quiet_rewritePlan rt userMessage st) as Q. rewrite E in Q. simpl in Q.
  destruct Q as [[events1 [T1 _]] _ _ _ _].
  rewrite bind_run, E in H.
  destruct (hasSemanticSearch tools) eqn:Ht.
  2: { unfold forcedSearch in H. rewrite bind_getAgent in H. cbv zeta in H.
       rewrite Ht in H. discriminate H. }
  destruct (@forcedSearch_messages rt plan0 tools streaming st1 Ht) as [st2 [R [_ Ms]]].
  destruct (@forcedSearch_executes plan0 tools streaming st1 Ht)
    as [st3 [events2 [R' [T2 I2]]]].
  rewrite R in R'. inversion R'; subst st3. clear R'.
  rewrite R in H. inversion H; subst st2. clear H.
  destruct A as [AM _ _ AC AR _].
  exists (clampPlan (context (agent st1)) plan0), (randomUUID rt (uuidCounter (env st1))),
         (events1 ++ events2).
  cbv zeta. rewrite <- AR, <- AM. split; [ | split ].
  - now rewrite T2, T1, app_assoc.
  - apply in_or_app. right. exact I2.
  - exact Ms.
Qed.

End ForcedSearch.

(** * The claims *)

(** C1 as stated fails for a negative budget: with [maxToolRounds = -1] the
    loop body never runs, the forced answer is returned and [toolRounds] is
    [0], which is above the budget. *)
Lemma negative_budget_is_exceeded :
  exists r st',
    execute nodeRuntime "hi"
      (freshState (Some (-1)%Z) (withChatScript [Some (answer "ok" None)] quietEnv))
    = (Ok r, st')
    /\ ~ (res_toolRounds r
          <= roundBudget (agent (freshState (Some (-1)%Z)
                                   (withChatScript [Some (answer "ok" None)] quietEnv))))%Z.
Proof.
  eexists. eexists. split; [ vm_compute; reflexivity | ].
  vm_compute. intro H. apply H. reflexivity.
Qed.

(** C1 (amended).  The [toolRounds] of every result of [execute] and of
    [executeStream] is at most the larger of [0] and the configured budget
    ([maxToolRounds], [5] when unset): at most the budget whenever the budget
    is not negative. *)
Theorem toolRounds_within_budget (rt : Runtime) (userMessage : string) (st st' : St)
  (r : AgentResult) :
  execute rt userMessage st = (Ok r, st') \/ executeStream rt userMessage st = (Ok r, st') ->
  (res_toolRounds r <= Z.max 0 (roundBudget (agent st)))%Z.
Proof.
  intros [H | H].
  - apply execute_rounds in H. destruct H as [_ H]. now apply H.
  - apply executeStream_rounds in H. destruct H as [_ H]. now apply H.
Qed.

Lemma toolRounds_within_budget_witness :
  exists r st',
    execute nodeRuntime "hi"
      (freshState None
         (withChatScript [Some (askRecent None); Some (answer "ok" None)] quietEnv))
    = (Ok r, st')
    /\ res_toolRounds r = 1%Z
    /\ (res_toolRounds r <= Z.max 0 5)%Z.
Proof.
  eexists. eexists. split; [ vm_compute; reflexivity | ].
  split; [ reflexivity | ].
  eapply (@toolRounds_within_budget nodeRuntime "hi"
           (freshState None
              (withChatScript [Some (askRecent None); Some (answer "ok" None)] quietEnv))).
  left. vm_compute. reflexivity.
Defined.

(** C2 fails on the code.  A delta that carries text inside an open thinking
    span leaves the iteration by [continue], before its usage is added: of
    the usage records [7/0] and [0/3] delivered here only the second
    reaches the total. *)
Theorem usage_dropped_inside_thinking_span :
  exists r st',
    executeStream nodeRuntime "hi" usageInThinkingState = (Ok r, st')
    /\ res_content r = "ok"
    /\ res_totalUsage r = tokens 0 3
    /\ deliveredUsage (trace st') = tokens 7 3
    /\ last (trace st') (EvUsage zeroUsage) = EvEmit (ChunkDone (tokens 0 3)).
Proof.
  eexists. eexists. split; [ vm_compute; reflexivity |].
  repeat split; vm_compute; reflexivity.
Qed.

(** On the blocking path the claim of C2 holds up to the total the agent
    entered with: the returned total is that total plus the usage of every
    reply the model transport gave during the execution. *)
Theorem execute_usage_is_sum (rt : Runtime) (userMessage : string) (st st' : St)
  (r : AgentResult) :
  execute rt userMessage st = (Ok r, st') ->
  exists events,
    trace st' = trace st ++ events
    /\ res_totalUsage r = plusUsage (totalUsage (agent st)) (deliveredUsage events).
Proof.
  intro H. pose proof (counted_execute rt userMessage st) as C.
  rewrite H in C. simpl in C. destruct C as [events [T U]].
  exists events. split; auto. now rewrite (execute_total_shown _ _ _ H).
Qed.

(** C3 fails on the code.  After a completed thinking span every further
    delta resets the displayed prefix to the end of the span, so the text
    after the span is forwarded again with each delta: for the deltas
    [<think>a</think>], [b], [c] the consumer receives [b] and then [bc],
    while the buffer without its thinking span is [bc]. *)
Theorem stream_forwards_text_twice :
  forwarded (trace (snd (executeStream nodeRuntime "hi" thinkingState))) = ["b"; "bc"]
  /\ String.concat "" (forwarded (trace (snd (executeStream nodeRuntime "hi" thinkingState))))
     = "bbc"
  /\ visibleText "<think>a</think>bc" = "bc"
  /\ exists r, fst (executeStream nodeRuntime "hi" thinkingState) = Ok r
               /\ res_content r = "bc".
Proof.
  repeat split; try (vm_compute; reflexivity).
  eexists. split; vm_compute; reflexivity.
Qed.

(** C4 fails on the code.  Without tool-call markup [execute] returns the
    reply as it is, thinking span included; only the branch for markup that
    does not parse, and [executeStream], strip it. *)
Theorem execute_keeps_thinking_span :
  exists r st',
    execute nodeRuntime "hi" thinkingReplyState = (Ok r, st')
    /\ res_content r = "<think>reasoning</think>Here is the answer."
    /\ res_content r <> "Here is the answer."
    /\ cleanContent (extractThinkingContent "<think>reasoning</think>Here is the answer.")
       = "Here is the answer.".
Proof.
  eexists. eexists. split; [ vm_compute; reflexivity |].
  repeat split; try reflexivity. discriminate.
Qed.

(** C5 fails on the code.  [execute] resets the transcript, [toolsUsed] and
    [toolRounds] at its start but not [totalUsage]: the second of two calls
    on one agent returns the usage of both. *)
Theorem second_execute_keeps_first_usage :
  exists r1 st1 r2 st2,
    execute nodeRuntime "first question" twoTurnsState = (Ok r1, st1)
    /\ execute nodeRuntime "second question" st1 = (Ok r2, st2)
    /\ res_totalUsage r1 = tokens 10 5
    /\ res_totalUsage r2 = tokens 30 12
    /\ deliveredUsage (skipn (List.length (trace st1)) (trace st2)) = tokens 20 7.
Proof.
  do 4 eexists. split; [ vm_compute; reflexivity |].
  split; [ vm_compute; reflexivity |].
  repeat split; vm_compute; reflexivity.
Qed.

(** C6.  Whenever the semantic pipeline runs, the tool runtime was handed
    the forced [semantic_search_messages] call, and what it returned for
    that call decides the transcript: if the first result succeeds with a
    truthy result, the system-role evidence message is inserted immediately
    before the last user-role message, while the assistant and tool messages
    of the forced call stay at the tail, after it; otherwise the transcript
    gains those two messages only. *)
Theorem evidence_before_last_user (rt : Runtime) (userMessage : string)
  (tools : list ToolDefinition) (streaming : bool) (st st' : St)
  (before after : list ChatMessage) (u : ChatMessage) :
  runSemanticPipeline rt userMessage tools streaming st = (Ok true, st') ->
  messages (agent st) = before ++ u :: after ->
  isUser u = true ->
  Forall (fun m => isUser m = false) after ->
  exists plan uuid results events,
    trace st' = trace st ++ events
    /\ In (EvToolExec [forcedCall rt plan uuid] results) events
    /\ (forall r0,
          hd_error results = Some r0 ->
          success r0 = true ->
          Val.truthy (result r0) = true ->
          messages (agent st') =
          before
          ++ plainMessage system (evidenceBlock rt plan (result r0))
          :: u
          :: after ++ [forcedAssistant rt plan uuid; forcedToolMessage rt uuid (Some r0)])
    /\ (hd_error results = None
        \/ (exists r0, hd_error results = Some r0
                       /\ (success r0 = false \/ Val.truthy (result r0) = false)) ->
        messages (agent st') =
        before
        ++ u
        :: after ++ [forcedAssistant rt plan uuid;
                     forcedToolMessage rt uuid (hd_error results)]).
Proof.
  intros H Hm Hu Fa.
  apply pipeline_search in H. destruct H as [plan [uuid [events [T [I Ms]]]]].
  cbv zeta in T, I, Ms.
  exists plan, uuid, (toolRuntime (env st) [forcedCall rt plan uuid]), events.
  split; [ exact T | split; [ exact I | split ] ].
  - intros r0 Hr Hs Ht. rewrite Hr in Ms. rewrite Hs, Ht in Ms.
    simpl andb in Ms. cbv iota in Ms.
    rewrite Ms, Hm. rewrite <- app_assoc. simpl app.
    apply insertEvidence_last_user; auto.
    apply Forall_app. split; auto.
  - intros [Hr | [r0 [Hr Hf]]]; rewrite Hr in Ms |- *.
    + rewrite Ms, Hm, <- app_assoc. reflexivity.
    + assert (F : success r0 && Val.truthy (result r0) = false)
        by (destruct Hf as [-> | ->]; [ reflexivity | apply andb_false_r ]).
      rewrite F in Ms. rewrite Ms, Hm, <- app_assoc. reflexivity.
Qed.

Lemma evidence_before_last_user_witness :
  exists plan uuid,
    messages (agent (snd (runSemanticPipeline nodeRuntime "when is the trip?"
                            [{| def_name := "semantic_search_messages" |}] false
                            (afterReset "when is the trip?" (freshState None embeddingEnv)))))
    = [plainMessage system "You analyse chat records."]
      ++ plainMessage system (evidenceBlock nodeRuntime plan (result foundMessages))
      :: plainMessage user "when is the trip?"
      :: [] ++ [forcedAssistant nodeRuntime plan uuid;
                forcedToolMessage nodeRuntime uuid (Some foundMessages)].
Proof.
  destruct (@evidence_before_last_user nodeRuntime "when is the trip?"
              [{| def_name := "semantic_search_messages" |}] false
              (afterReset "when is the trip?" (freshState None embeddingEnv))
              (snd (runSemanticPipeline nodeRuntime "when is the trip?"
                      [{| def_name := "semantic_search_messages" |}] false
                      (afterReset "when is the trip?" (freshState None embeddingEnv))))
              [plainMessage system "You analyse chat records."] []
              (plainMessage user "when is the trip?"))
    as [plan [uuid [results [events [T [I [Found _]]]]]]].
  - vm_compute. reflexivity.
  - reflexivity.
  - reflexivity.
  - constructor.
  - exists plan, uuid. apply Found.
    + vm_compute in T. apply app_inv_head with (l := []) in T. subst events.
      simpl in I.
      repeat (destruct I as [I | I]; [ try discriminate I | ]);
        [ inversion I; reflexivity | contradiction ].
    + reflexivity.
    + reflexivity.
Defined.

(** C7 fails on the code.  [execute] makes its forced final call without
    reading the abort signal: with a budget of one round and the signal
    raised while the tools of that round run, the two reads it makes give
    [false], the raised signal is never read, the forced call is issued with
    the closing instruction and its text [late] is returned.
    [executeStream] reads the signal at this very point (line 870) and
    returns without opening the final stream. *)
Theorem forced_call_ignores_cancellation :
  (exists r st' sent,
      execute nodeRuntime "hi" lateCancelState = (Ok r, st')
      /\ res_content r = "late"
      /\ res_toolRounds r = 1%Z
      /\ filter isAbortCheck (trace st') = [EvAbortCheck false ""; EvAbortCheck false ""]
      /\ abortScript (env st') = [true]
      /\ last (trace st') (EvUsage zeroUsage)
         = EvChat sent false (Some (answer "late" None))
      /\ last sent (plainMessage system "") = plainMessage user finalInstruction)
  /\ (exists r st',
         executeStream nodeRuntime "hi" lateCancelStreamState = (Ok r, st')
         /\ res_content r = ""
         /\ last (filter isAbortCheck (trace st')) (EvUsage zeroUsage)
            = EvAbortCheck true ""
         /\ streamScript (env st') = [streamed [delta "late"; stopDelta None]]).
Proof.
  split.
  - do 3 eexists. split; [ vm_compute; reflexivity |].
    repeat split; vm_compute; reflexivity.
  - do 2 eexists. split; [ vm_compute; reflexivity |].
    repeat split; vm_compute; reflexivity.
Qed.

(** C8 as stated fails: [parseToolCallTags] gives [null] for a text without
    any block and for a text whose blocks all fail to parse, so no pair of
    such inputs is told apart by its result. *)
Lemma fallback_parser_cannot_tell_apart :
  ~ exists (rt : Runtime) (plain garbled : string) (st1 st2 : St),
      toolCallBlocks plain = []
      /\ toolCallBlocks garbled <> []
      /\ Forall (fun b => parseBlock rt b = None) (toolCallBlocks garbled)
      /\ fst (parseToolCallTags rt plain st1) <> fst (parseToolCallTags rt garbled st2).
Proof.
  intros [rt [plain [garbled [st1 [st2 [Hp [_ [Hg Hd]]]]]]]].
  apply Hd. unfold parseToolCallTags. rewrite !bind_run.
  rewrite Hp. rewrite (@parseBlocks_none rt _ st2 Hg). reflexivity.
Qed.

(** C8 (amended).  [parseToolCallTags] returns [null] whenever no block
    parses into a call, be it that the text has no block or that every
    block is garbage.  It never throws, and what it returns is either
    [null], and then no block parses, or a list that is not empty and holds
    the name and arguments of every block that parses, in the order of the
    blocks.  [hasToolCallTags] is [true] for every text with a block, but it
    looks for the opening marker only: every text that holds the opening
    marker passes it, and one without a closing marker has no block. *)
Theorem fallback_parser_null_without_valid_block (rt : Runtime) :
  (forall (text : string) (st : St),
      Forall (fun b => parseBlock rt b = None) (toolCallBlocks text) ->
      parseToolCallTags rt text st = (Ok None, st))
  /\ (forall (text : string) (st : St),
         exists found st',
           parseToolCallTags rt text st = (Ok found, st')
           /\ match found with
              | None => Forall (fun b => parseBlock rt b = None) (toolCallBlocks text)
              | Some calls =>
                  calls <> []
                  /\ map (fun c => (tc_name c, tc_arguments c)) calls
                     = validBlocks rt (toolCallBlocks text)
              end)
  /\ (forall text : string, toolCallBlocks text <> [] -> hasToolCallTags text = true)
  /\ (forall pre post : string, hasToolCallTags (pre ++ "<tool_call>" ++ post) = true)
  /\ (forall text : string,
         Js.testCI "</tool_call>" text = false -> toolCallBlocks text = []).
Proof.
  split; [ | split; [ | split; [ | split ] ] ].
  - intros text st H. unfold parseToolCallTags.
    rewrite bind_run, (@parseBlocks_none rt _ st H). reflexivity.
  - intros text st. unfold parseToolCallTags.
    destruct (parseBlocks_run rt (toolCallBlocks text) st) as [calls [st' [E M]]].
    rewrite bind_run, E. cbn [ret].
    destruct calls as [| c calls].
    + exists None, st'. split; [ reflexivity |].
      apply validBlocks_nil. now rewrite <- M.
    + exists (Some (c :: calls)), st'. split; [ reflexivity |].
      split; [ discriminate | exact M ].
  - apply blocks_need_marker.
  - apply opening_marker_is_enough.
  - apply blocks_need_closing.
Qed.

Lemma fallback_parser_null_without_valid_block_witness :
  parseToolCallTags nodeRuntime "x <tool_call>garbage</tool_call>" (freshState None quietEnv)
  = (Ok None, freshState None quietEnv)
  /\ toolCallBlocks "x <tool_call>garbage</tool_call>" = ["garbage"]
  /\ parseToolCallTags nodeRuntime "no markup" (freshState None quietEnv)
     = (Ok None, freshState None quietEnv)
  /\ hasToolCallTags "no markup" = false
  /\ parseToolCallTags nodeRuntime "x <tool_call> oops" (freshState None quietEnv)
     = (Ok None, freshState None quietEnv)
  /\ hasToolCallTags ("x " ++ "<tool_call>" ++ " oops") = true
  /\ toolCallBlocks "x <tool_call> oops" = [].
Proof.
  destruct (fallback_parser_null_without_valid_block nodeRuntime)
    as [Null [_ [_ [Opening Closing]]]].
  split; [ apply Null; repeat constructor |].
  split; [ reflexivity |].
  split; [ apply Null; constructor |].
  split; [ reflexivity |].
  split; [ apply Null; rewrite Closing by reflexivity; constructor |].
  split; [ apply Opening |].
  apply Closing. reflexivity.
Defined.



(** C10.  With no embedding model configured the pipeline does nothing and
    reports that it did not run; the legacy retrieval that runs in its place
    leaves [toolsUsed], [toolRounds] and [totalUsage] as they were, never
    throws, and either leaves the transcript as it was or inserts one
    system-role message right before the final user message, the latter only
    after a retrieval that succeeded with a [results] array that is not
    empty. *)
Theorem legacy_search_only_inserts_evidence (rt : Runtime) (userMessage : string)
  (tools : list ToolDefinition) (streaming : bool) (st st' : St) (o : Outcome unit)
  (before : list ChatMessage) :
  getEmbeddingModel st = (Ok None, st) ->
  messages (agent st) = before ++ [plainMessage user userMessage] ->
  (ranPipeline <- runSemanticPipeline rt userMessage tools streaming ;;
   autoSemanticStep rt userMessage ranPipeline) st = (o, st') ->
  runSemanticPipeline rt userMessage tools streaming st = (Ok false, st)
  /\ o = Ok tt
  /\ toolsUsed (agent st') = toolsUsed (agent st)
  /\ toolRounds (agent st') = toolRounds (agent st)
  /\ totalUsage (agent st') = totalUsage (agent st)
  /\ (messages (agent st') = messages (agent st)
      \/ exists text uuid r0 rest item items,
           shouldAutoSemanticSearch userMessage = true
           /\ toolRuntime (env st) [autoCall rt userMessage uuid] = r0 :: rest
           /\ success r0 = true
           /\ Val.optProp (result r0) "results" = JArr (item :: items)
           /\ messages (agent st') =
              before ++ [plainMessage system text; plainMessage user userMessage]).
Proof.
  intros He Hm H.
  assert (P : runSemanticPipeline rt userMessage tools streaming st = (Ok false, st)).
  { unfold runSemanticPipeline. rewrite bind_run, He. reflexivity. }
  split; [ exact P |].
  rewrite bind_run, P in H. unfold autoSemanticStep in H. simpl negb in H.
  rewrite andb_true_l in H.
  destruct (shouldAutoSemanticSearch userMessage) eqn:Hs.
  2: { inversion H; subst. auto 10. }
  destruct (runAutoSemanticSearch_ok rt userMessage st) as [found [st1 E]].
  pose proof (untouched_runAutoSemanticSearch rt userMessage st) as U.
  rewrite E in U. simpl in U. destruct U as [UA UR UC].
  rewrite bind_run, E in H.
  destruct found as [text |].
  2: { inversion H; subst. rewrite UA. auto 10. }
  destruct (Js.nonEmpty text).
  2: { inversion H; subst. rewrite UA. auto 10. }
  cbn in H. inversion H; subst. simpl. rewrite UA.
  repeat split; auto. right.
  apply runAutoSemanticSearch_found in E.
  destruct E as [uuid [r0 [rest [item [items [lines [R [Sr [Hr Ht]]]]]]]]].
  exists text, uuid, r0, rest, item, items. repeat split; auto.
  rewrite Hm, length_app. simpl List.length.
  replace (Z.of_nat (List.length before + 1) - 1)%Z with (Z.of_nat (List.length before))
    by lia.
  apply spliceIn_at.
Qed.

Lemma legacy_search_only_inserts_evidence_witness :
  exists text,
    messages (agent (snd ((ranPipeline <- runSemanticPipeline nodeRuntime
                                            "what happened last week?"
                                            (match toolCatalog quietEnv with
                                             | Some t => t | None => [] end) false ;;
                           autoSemanticStep nodeRuntime "what happened last week?"
                                            ranPipeline)
                            (afterReset "what happened last week?"
                                        (freshState None quietEnv)))))
    = [plainMessage system "You analyse chat records."]
      ++ [plainMessage system text; plainMessage user "what happened last week?"].
Proof.
  destruct (@legacy_search_only_inserts_evidence nodeRuntime "what happened last week?"
              (match toolCatalog quietEnv with Some t => t | None => [] end) false
              (afterReset "what happened last week?" (freshState None quietEnv))
              (snd ((ranPipeline <- runSemanticPipeline nodeRuntime
                                      "what happened last week?"
                                      (match toolCatalog quietEnv with
                                       | Some t => t | None => [] end) false ;;
                     autoSemanticStep nodeRuntime "what happened last week?" ranPipeline)
                      (afterReset "what happened last week?" (freshState None quietEnv))))
              (Ok tt)
              [plainMessage system "You analyse chat records."])
    as (_ & _ & _ & _ & _ & [Same | (text & uuid & r0 & rest & item & items & _ & _ & _ & _ & Ms)]).
  - reflexivity.
  - reflexivity.
  - vm_compute. reflexivity.
  - exfalso. vm_compute in Same. discriminate Same.
  - exists text. exact Ms.
Defined.

(** * Further properties of the code *)

(** ** Facts about the string primitives *)

Lemma toLowerCase_length (s : string) :
  String.length (Js.toLowerCase s) = String.length s.
Proof. induction s as [| c s IH]; simpl; auto. Qed.

Lemma startsWith_app (p a b : string) :
  Js.startsWith p a = true -> Js.startsWith p (a ++ b) = true.
Proof.
  revert a. induction p as [| c p IH]; intros [| d a]; simpl; auto; try discriminate.
  intro H. apply andb_true_iff in H. destruct H as [H1 H2].
  now rewrite H1, IH.
Qed.

Lemma find_none_app (p a b : string) :
  Js.find p (a ++ b) = None -> Js.find p a = None.
Proof.
  induction a as [| c a IH]; simpl.
  - destruct (Js.startsWith p "") eqn:E; auto.
    intro H. pose proof (@startsWith_app _ _ b E) as E'. simpl in E'.
    destruct b; simpl in H; rewrite E' in H; discriminate.
  - destruct (Js.startsWith p (String c a)) eqn:E.
    + pose proof (@startsWith_app _ _ b E) as E'. simpl in E'. rewrite E'. discriminate.
    + destruct (Js.startsWith p (String c (a ++ b))); [ discriminate |].
      destruct (Js.find p (a ++ b)); [ discriminate |].
      intros _. now rewrite IH.
Qed.

Lemma testCI_prefix (p a b : string) :
  Js.testCI p (a ++ b) = false -> Js.testCI p a = false.
Proof.
  unfold Js.testCI, Js.findCI. rewrite toLowerCase_app.
  destruct (Js.find p (Js.toLowerCase a ++ Js.toLowerCase b)) eqn:E; [ discriminate |].
  intros _. now rewrite (@find_none_app _ _ _ E).
Qed.

Lemma findCI_none_drop (p : string) (n : nat) (s : string) :
  Js.findCI p s = None -> Js.findCI p (Js.drop n s) = None.
Proof.
  unfold Js.findCI. rewrite toLowerCase_drop. apply find_none_drop.
Qed.

(** A text in which some marker pair cannot be completed is one piece. *)
Lemma segments_plain (fuel : nat) (open close s : string) :
  Js.findCI open s = None \/ Js.findCI close s = None ->
  Js.segments fuel open close s = [Js.Plain s].
Proof.
  destruct fuel as [| fuel]; [ reflexivity |]. simpl.
  intros [H | H].
  - now rewrite H.
  - destruct (Js.findCI open s) as [i |]; [ | reflexivity ].
    now rewrite (@findCI_none_drop _ _ _ H).
Qed.

Lemma testCI_false (p s : string) : Js.testCI p s = false -> Js.findCI p s = None.
Proof. unfold Js.testCI. destruct (Js.findCI p s); [ discriminate | auto ]. Qed.

Lemma app_assoc_s (a b c : string) : ((a ++ b) ++ c = a ++ (b ++ c))%string.
Proof. induction a as [| x a IH]; simpl; [ reflexivity | now rewrite IH ]. Qed.

Lemma app_nil_r_s (a : string) : (a ++ "")%string = a.
Proof. induction a as [| x a IH]; simpl; [ reflexivity | now rewrite IH ]. Qed.

Lemma length_app_s (a b : string) :
  String.length (a ++ b) = (String.length a + String.length b)%nat.
Proof. induction a as [| x a IH]; simpl; auto. Qed.

Lemma drop_app (a b : string) : Js.drop (String.length a) (a ++ b) = b.
Proof. induction a as [| x a IH]; simpl; auto. Qed.

Lemma drop_app_plus (a b : string) (n : nat) :
  Js.drop (String.length a + n) (a ++ b) = Js.drop n b.
Proof. induction a as [| x a IH]; simpl; auto. Qed.

Lemma take_app (a b : string) : Js.take (String.length a) (a ++ b) = a.
Proof. induction a as [| x a IH]; simpl; [ destruct b; reflexivity | now rewrite IH ]. Qed.

Lemma startsWith_refl_app (p b : string) : Js.startsWith p (p ++ b) = true.
Proof.
  induction p as [| c p IH]; simpl; [ reflexivity |].
  now rewrite Ascii.eqb_refl, IH.
Qed.

Lemma startsWith_toLowerCase (p s : string) :
  Js.startsWith p s = true -> Js.startsWith (Js.toLowerCase p) (Js.toLowerCase s) = true.
Proof.
  revert s. induction p as [| c p IH]; intros [| d s]; simpl; auto; try discriminate.
  intro H. apply andb_true_iff in H. destruct H as [H1 H2].
  apply Ascii.eqb_eq in H1. subst d. now rewrite Ascii.eqb_refl, IH.
Qed.

Lemma startsWith_prefix (p q s : string) :
  Js.startsWith (p ++ q) s = true -> Js.startsWith p s = true.
Proof.
  revert s. induction p as [| c p IH]; intros [| d s]; simpl; auto; try discriminate.
  intro H. apply andb_true_iff in H. destruct H as [H1 H2].
  now rewrite H1, (IH _ H2).
Qed.

(** [find] gives the first position at which the pattern starts. *)
Lemma find_some (p s : string) (i : nat) :
  Js.find p s = Some i ->
  Js.startsWith p (Js.drop i s) = true
  /\ (i <= String.length s)%nat
  /\ forall j, (j < i)%nat -> Js.startsWith p (Js.drop j s) = false.
Proof.
  revert i. induction s as [| c s IH]; intro i; simpl.
  - destruct (Js.startsWith p "") eqn:E; [ | discriminate ].
    intro H. inversion H; subst. simpl. repeat split; auto. intros j Hj. lia.
  - destruct (Js.startsWith p (String c s)) eqn:E.
    + intro H. inversion H; subst. simpl. repeat split; auto; try lia.
    + destruct (Js.find p s) as [k |] eqn:F; [ | discriminate ].
      intro H. inversion H; subst. destruct (IH k eq_refl) as [A [B C]].
      simpl. repeat split; auto; try lia.
      intros [| j] Hj; simpl; auto. apply C. lia.
Qed.

Lemma find_first (p s : string) (i : nat) :
  Js.startsWith p (Js.drop i s) = true -> (i <= String.length s)%nat ->
  exists k, (k <= i)%nat /\ Js.find p s = Some k.
Proof.
  revert i. induction s as [| c s IH]; intros i H L; simpl in *.
  - assert (i = 0)%nat by lia. subst. simpl in H. rewrite H. exists 0%nat. auto.
  - destruct (Js.startsWith p (String c s)) eqn:E.
    + exists 0%nat. split; [ lia | reflexivity ].
    + destruct i as [| i]; simpl in H; [ congruence |].
      destruct (IH i H ltac:(lia)) as [k [Hk F]]. rewrite F.
      exists (S k). split; [ lia | reflexivity ].
Qed.

Lemma find_at (p s : string) (i : nat) :
  Js.startsWith p (Js.drop i s) = true -> (i <= String.length s)%nat ->
  (forall j, (j < i)%nat -> Js.startsWith p (Js.drop j s) = false) ->
  Js.find p s = Some i.
Proof.
  intros H L N. destruct (@find_first _ _ _ H L) as [k [Hk F]].
  destruct (@find_some _ _ _ F) as [A _].
  destruct (Nat.eq_dec k i) as [-> | Hne]; [ exact F |].
  rewrite N in A by lia. discriminate.
Qed.

(** A pattern that starts inside [x] and matches [x ++ y] either lies in
    [x] or ends in [y]. *)
Lemma startsWith_straddle (q x y : string) :
  Js.startsWith q (x ++ y) = true ->
  Js.startsWith q x = true
  \/ exists q2, q = (x ++ q2)%string /\ q2 <> "" /\ Js.startsWith q2 y = true.
Proof.
  revert x. induction q as [| c q IH]; intros x H; [ left; destruct x; reflexivity |].
  destruct x as [| d x].
  - right. exists (String c q). simpl. repeat split; auto. discriminate.
  - simpl in H. apply andb_true_iff in H. destruct H as [H1 H2].
    apply Ascii.eqb_eq in H1. subst d.
    destruct (IH _ H2) as [A | [q2 [E [N S]]]].
    + left. simpl. now rewrite Ascii.eqb_refl.
    + right. exists q2. subst q. simpl. auto.
Qed.

Lemma occurs_app (c : ascii) (a b : string) :
  occurs c (a ++ b) = occurs c a || occurs c b.
Proof. induction a as [| d a IH]; simpl; auto. now rewrite IH, orb_assoc. Qed.

Lemma drop_app_le (j : nat) (a b : string) :
  (j <= String.length a)%nat -> Js.drop j (a ++ b) = (Js.drop j a ++ b)%string.
Proof.
  revert a. induction j as [| j IH]; intros [| c a] L; simpl in *; auto; try lia.
  apply IH. lia.
Qed.

Lemma drop_nil_length (j : nat) (a : string) :
  Js.drop j a = "" -> (String.length a <= j)%nat.
Proof.
  revert a. induction j as [| j IH]; intros [| c a] H; simpl in *; try lia; try discriminate.
  apply IH in H. lia.
Qed.

(** The first occurrence of a pattern whose first character does not occur
    again in it, behind a text that holds none. *)
Lemma find_marker (c : ascii) (p' a b : string) :
  occurs c p' = false ->
  Js.find (String c p') a = None ->
  Js.find (String c p') (a ++ String c p' ++ b) = Some (String.length a).
Proof.
  intros Hc Ha. apply find_at.
  - rewrite drop_app. apply (startsWith_refl_app (String c p')).
  - rewrite length_app_s. lia.
  - intros j Hj.
    destruct (Js.startsWith (String c p') (Js.drop j (a ++ String c p' ++ b))) eqn:E; auto.
    exfalso. rewrite drop_app_le in E by lia.
    destruct (@startsWith_straddle _ _ _ E) as [A | [q2 [Eq [N S]]]].
    + assert (L : (j <= String.length a)%nat) by lia.
      destruct (@find_first _ _ _ A L) as [k [_ F]]. congruence.
    + destruct (Js.drop j a) as [| d r] eqn:D.
      * apply drop_nil_length in D. lia.
      * simpl in Eq. inversion Eq; subst d p'.
        destruct q2 as [| e q2]; [ congruence |].
        simpl in S. apply andb_true_iff in S. destruct S as [S1 _].
        apply Ascii.eqb_eq in S1. subst e.
        rewrite occurs_app in Hc. simpl in Hc. rewrite Ascii.eqb_refl in Hc.
        simpl in Hc. rewrite orb_true_r in Hc. discriminate.
Qed.

(** *** White space and [trim] *)

Lemma rev_app_s (a b : string) : Js.rev (a ++ b) = (Js.rev b ++ Js.rev a)%string.
Proof.
  induction a as [| c a IH]; simpl.
  - now rewrite app_nil_r_s.
  - now rewrite IH, app_assoc_s.
Qed.

Lemma rev_involutive_s (s : string) : Js.rev (Js.rev s) = s.
Proof.
  induction s as [| c s IH]; simpl; auto.
  rewrite rev_app_s, IH. reflexivity.
Qed.

Lemma allWhite_app (a b : string) : allWhite (a ++ b) = allWhite a && allWhite b.
Proof. induction a as [| c a IH]; simpl; auto. now rewrite IH, andb_assoc. Qed.

Lemma allWhite_rev (s : string) : allWhite (Js.rev s) = allWhite s.
Proof.
  induction s as [| c s IH]; simpl; auto.
  rewrite allWhite_app, IH. simpl. rewrite andb_true_r. apply andb_comm.
Qed.

Lemma trimStart_white (w z : string) :
  allWhite w = true -> Js.trimStart (w ++ z) = Js.trimStart z.
Proof.
  induction w as [| c w IH]; simpl; auto.
  intro H. apply andb_true_iff in H. destruct H as [H1 H2]. now rewrite H1, IH.
Qed.

Lemma trimStart_split (s : string) :
  exists w, s = (w ++ Js.trimStart s)%string /\ allWhite w = true.
Proof.
  induction s as [| c s [w [E W]]]; simpl.
  - exists "". auto.
  - destruct (Js.isWhiteSpace c) eqn:C.
    + exists (String c w). simpl. rewrite C, W. split; [ congruence | reflexivity ].
    + exists "". auto.
Qed.

Lemma trimStart_idem (s : string) : Js.trimStart (Js.trimStart s) = Js.trimStart s.
Proof.
  induction s as [| c s IH]; simpl; auto.
  destruct (Js.isWhiteSpace c) eqn:C; auto. simpl. now rewrite C.
Qed.

Lemma trimEnd_split (s : string) :
  exists w, s = (Js.trimEnd s ++ w)%string /\ allWhite w = true.
Proof.
  destruct (trimStart_split (Js.rev s)) as [w [E W]].
  exists (Js.rev w). split; [ | now rewrite allWhite_rev ].
  unfold Js.trimEnd. rewrite <- rev_app_s, <- E. now rewrite rev_involutive_s.
Qed.

Lemma trimEnd_white (z w : string) :
  allWhite w = true -> Js.trimEnd (z ++ w) = Js.trimEnd z.
Proof.
  intro W. unfold Js.trimEnd. rewrite rev_app_s, trimStart_white; auto.
  now rewrite allWhite_rev.
Qed.

Lemma trimEnd_idem (s : string) : Js.trimEnd (Js.trimEnd s) = Js.trimEnd s.
Proof. unfold Js.trimEnd. now rewrite rev_involutive_s, trimStart_idem. Qed.

Lemma trimStart_fixed (s : string) :
  Js.trimStart s = s <->
  match s with EmptyString => True | String c _ => Js.isWhiteSpace c = false end.
Proof.
  destruct s as [| c s]; simpl; [ tauto |].
  destruct (Js.isWhiteSpace c) eqn:C; split; auto; try discriminate.
  intro H. exfalso.
  destruct (trimStart_split s) as [w [E W]].
  assert (L : String.length s = (String.length w + String.length (Js.trimStart s))%nat)
    by (rewrite E at 1; apply length_app_s).
  rewrite H in L. simpl in L. lia.
Qed.

(** What [trim] returns has no white space at either end. *)
Lemma trim_tight (s : string) :
  Js.trimStart (Js.trim s) = Js.trim s /\ Js.trimEnd (Js.trim s) = Js.trim s.
Proof.
  unfold Js.trim. split; [ | apply trimEnd_idem ].
  set (y := Js.trimStart s).
  assert (Hy : Js.trimStart y = y) by apply trimStart_idem.
  destruct (trimEnd_split y) as [w [E W]].
  apply trimStart_fixed. apply trimStart_fixed in Hy.
  destruct (Js.trimEnd y) as [| c r]; auto.
  rewrite E in Hy. exact Hy.
Qed.

Lemma trim_core (w1 core w2 : string) :
  Js.trimStart core = core -> Js.trimEnd core = core ->
  allWhite w1 = true -> allWhite w2 = true ->
  Js.trim (w1 ++ core ++ w2) = core.
Proof.
  intros Hs He W1 W2. unfold Js.trim. rewrite trimStart_white by exact W1.
  destruct core as [| c r].
  - simpl. rewrite <- (app_nil_r_s w2), trimStart_white by exact W2. reflexivity.
  - apply trimStart_fixed in Hs. simpl. rewrite Hs.
    change (String c (r ++ w2)) with (String c r ++ w2)%string.
    now rewrite trimEnd_white.
Qed.

Lemma trim_trim_newline (s : string) :
  Js.trim (Js.trim s ++ Json.newline) = Js.trim s.
Proof.
  destruct (trim_tight s) as [A B].
  change (Js.trim s ++ Json.newline)%string with ("" ++ Js.trim s ++ Json.newline)%string.
  apply trim_core; auto.
Qed.

(** *** One thinking span *)

Lemma lower_length (a b : string) :
  Js.toLowerCase a = b -> String.length a = String.length b.
Proof. intros <-. now rewrite toLowerCase_length. Qed.

Lemma segments_one_span (fuel : nat) (open close o c pre inner post : string)
  (x : ascii) (open' : string) (y : ascii) (close' : string) :
  open = String x open' -> occurs x open' = false ->
  close = String y close' -> occurs y close' = false ->
  Js.toLowerCase o = open -> Js.toLowerCase c = close ->
  Js.findCI open pre = None ->
  Js.findCI close inner = None ->
  Js.findCI open post = None ->
  Js.segments (S (S fuel)) open close (pre ++ o ++ inner ++ c ++ post)
  = [Js.Plain pre; Js.Span (o ++ inner ++ c) inner; Js.Plain post].
Proof.
  intros Eo Ho Ec Hc Lo Lc Hpre Hinner Hpost.
  pose proof (@lower_length _ _ Lo) as No. pose proof (@lower_length _ _ Lc) as Nc.
  cbn [Js.segments].
  assert (F1 : Js.findCI open (pre ++ o ++ inner ++ c ++ post) = Some (String.length pre)).
  { unfold Js.findCI in *. rewrite !toLowerCase_app, Lo. subst open.
    rewrite <- (toLowerCase_length pre). now apply find_marker. }
  rewrite F1. rewrite <- No, drop_app_plus, drop_app.
  assert (F2 : Js.findCI close (inner ++ c ++ post) = Some (String.length inner)).
  { unfold Js.findCI in *. rewrite !toLowerCase_app, Lc. subst close.
    rewrite <- (toLowerCase_length inner). now apply find_marker. }
  rewrite F2. rewrite take_app.
  rewrite <- Nc, drop_app_plus, drop_app, drop_app, take_app.
  replace (String.length o + String.length inner + String.length c)%nat
    with (String.length (o ++ inner ++ c)) by (rewrite !length_app_s; lia).
  replace (o ++ inner ++ c ++ post)%string with ((o ++ inner ++ c) ++ post)%string
    by (now rewrite !app_assoc_s).
  rewrite take_app.
  now rewrite Hpost.
Qed.

(** X1.  Without an opening or without a closing marker
    [extractThinkingContent] extracts nothing: the thinking is empty and the
    clean content is the trimmed text, a lone marker included (ASCII text). *)
Theorem thinking_needs_both_markers (text : string) :
  allAscii text = true ->
  Js.testCI "<think>" text = false \/ Js.testCI "</think>" text = false ->
  extractThinkingContent text = {| thinking := ""; cleanContent := Js.trim text |}.
Proof.
  intros _ H. unfold extractThinkingContent, Js.matchAll.
  rewrite segments_plain; [ reflexivity |].
  destruct H as [H | H]; [ left | right ]; now apply testCI_false.
Qed.

Lemma removeFirst_span (pre whole post : string) :
  whole <> "" ->
  (forall j, (j < String.length pre)%nat ->
             Js.startsWith whole (Js.drop j (pre ++ whole ++ post)) = false) ->
  Js.removeFirst (pre ++ whole ++ post) whole = (pre ++ post)%string.
Proof.
  intros N H. unfold Js.removeFirst.
  rewrite (@find_at whole (pre ++ whole ++ post) (String.length pre)).
  - rewrite take_app, drop_app_plus, drop_app. reflexivity.
  - rewrite drop_app. apply startsWith_refl_app.
  - rewrite length_app_s. lia.
  - exact H.
Qed.

(** X2.  A text with one thinking span, its markers in any letter case,
    is split by [extractThinkingContent] into the trimmed inside of the span
    and the trimmed rest, the text before and the text after the span joined
    as they are (ASCII text). *)
Theorem thinking_single_span (pre open inner close post : string) :
  allAscii (pre ++ inner ++ post) = true ->
  Js.toLowerCase open = "<think>" ->
  Js.toLowerCase close = "</think>" ->
  Js.testCI "<think>" pre = false ->
  Js.testCI "</think>" inner = false ->
  Js.testCI "<think>" post = false ->
  extractThinkingContent (pre ++ open ++ inner ++ close ++ post)
  = {| thinking := Js.trim inner; cleanContent := Js.trim (pre ++ post) |}.
Proof.
  intros _ Lo Lc Hpre Hinner Hpost.
  apply testCI_false in Hpre, Hinner, Hpost.
  pose proof (@lower_length _ _ Lo) as No. simpl in No.
  unfold extractThinkingContent, Js.matchAll.
  set (text := (pre ++ open ++ inner ++ close ++ post)%string).
  assert (Hlen : exists k, String.length text = S k).
  { subst text. rewrite !length_app_s, No. eexists.
    rewrite Nat.add_comm. simpl. reflexivity. }
  destruct Hlen as [k Hk]. rewrite Hk. subst text.
  rewrite (@segments_one_span k "<think>" "</think>" open close pre inner post
             "<" "think>" "<" "/think>") by auto.
  cbn [flat_map app fold_left fst snd].
  f_equal.
  - change ("" ++ Js.trim inner ++ Json.newline)%string
      with (Js.trim inner ++ Json.newline)%string.
    apply trim_trim_newline.
  - f_equal.
    replace (pre ++ open ++ inner ++ close ++ post)%string
      with (pre ++ (open ++ inner ++ close) ++ post)%string
      by (now rewrite !app_assoc_s).
    apply removeFirst_span.
    + destruct open; [ discriminate Lo | discriminate ].
    + intros j Hj.
      match goal with |- ?b = false => destruct b eqn:E end; auto. exfalso.
      apply startsWith_toLowerCase in E.
      rewrite toLowerCase_drop, !toLowerCase_app, Lo in E.
      rewrite app_assoc_s in E. apply startsWith_prefix in E.
      assert (F : Js.find "<think>"
                    (Js.toLowerCase pre
                     ++ "<think>" ++ (Js.toLowerCase inner ++ Js.toLowerCase close)
                     ++ Js.toLowerCase post)
                  = Some (String.length (Js.toLowerCase pre))).
      { rewrite app_assoc_s. apply (@find_marker "<" "think>"); auto. }
      destruct (@find_some _ _ _ F) as [_ [_ C]].
      rewrite toLowerCase_length in C. rewrite !app_assoc_s in C.
      rewrite !app_assoc_s in E.
      exact (eq_true_false_abs _ E (C j Hj)).
Qed.

Lemma thinking_single_span_witness :
  extractThinkingContent ("Sure. " ++ "<THINK>" ++ " plan " ++ "</Think>" ++ " Done.")
  = {| thinking := "plan"; cleanContent := "Sure.  Done." |}.
Proof.
  apply (@thinking_single_span "Sure. " "<THINK>" " plan " "</Think>" " Done.");
    reflexivity.
Defined.

Lemma thinking_needs_both_markers_witness :
  extractThinkingContent " a < b, so </think> is alone "
  = {| thinking := ""; cleanContent := "a < b, so </think> is alone" |}.
Proof.
  apply (@thinking_needs_both_markers " a < b, so </think> is alone ").
  - reflexivity.
  - left. reflexivity.
Defined.

(** *** Texts of 7-bit characters *)

Lemma allAscii_app (a b : string) : allAscii (a ++ b) = allAscii a && allAscii b.
Proof. induction a as [| c a IH]; simpl; auto. now rewrite IH, andb_assoc. Qed.

Lemma allAscii_rev (s : string) : allAscii (Js.rev s) = allAscii s.
Proof.
  induction s as [| c s IH]; simpl; auto.
  rewrite allAscii_app, IH. simpl. rewrite andb_true_r. apply andb_comm.
Qed.

Lemma allAscii_trimStart (s : string) :
  allAscii s = true -> allAscii (Js.trimStart s) = true.
Proof.
  induction s as [| c s IH]; simpl; auto.
  intro H. destruct (Js.isWhiteSpace c); [ | exact H ].
  apply andb_true_iff in H. now apply IH.
Qed.

Lemma allAscii_trim (s : string) : allAscii s = true -> allAscii (Js.trim s) = true.
Proof.
  intro H. unfold Js.trim, Js.trimEnd.
  rewrite allAscii_rev. apply allAscii_trimStart. rewrite allAscii_rev.
  now apply allAscii_trimStart.
Qed.

(** A pattern that starts with a byte above 127 is not found in such a text. *)
Lemma find_high_byte (c : ascii) (k s : string) :
  (128 <=? nat_of_ascii c)%nat = true -> allAscii s = true ->
  Js.find (String c k) s = None.
Proof.
  intros Hc. induction s as [| d s IH]; simpl; auto.
  intro H. apply andb_true_iff in H. destruct H as [Hd Hs].
  destruct (Ascii.eqb c d) eqn:E.
  - apply Ascii.eqb_eq in E. subst d.
    apply Nat.leb_le in Hc. apply Nat.ltb_lt in Hd. lia.
  - simpl. now rewrite (IH Hs).
Qed.

Lemma triggers_not_in_ascii (text : string) :
  allAscii text = true -> existsb (fun k => Js.includes text k) triggers = false.
Proof.
  intro H. unfold triggers, Js.includes. cbn [existsb].
  repeat (rewrite find_high_byte; [ | reflexivity | exact H ]).
  reflexivity.
Qed.

(** X3.  On an ASCII message none of the trigger words of
    [shouldAutoSemanticSearch] can occur, so the legacy retrieval is tried
    exactly when the trimmed message names no tool and is at least 15
    characters long. *)
Theorem ascii_message_triggers_by_length (userMessage : string) :
  allAscii userMessage = true ->
  shouldAutoSemanticSearch userMessage
  = negb (namesATool (Js.trim userMessage)) && (15 <=? Js.len (Js.trim userMessage))%Z.
Proof.
  intro H. unfold shouldAutoSemanticSearch.
  rewrite (@triggers_not_in_ascii _ (@allAscii_trim _ H)).
  destruct (Js.trim userMessage) as [| c r] eqn:T.
  - reflexivity.
  - cbn [Js.nonEmpty negb].
    destruct (namesATool (String c r)); simpl; auto.
    destruct (15 <=? Js.len (String c r))%Z; reflexivity.
Qed.

Lemma ascii_message_triggers_by_length_witness :
  shouldAutoSemanticSearch "  where did we eat?  " = true
  /\ shouldAutoSemanticSearch "who is this?" = false.
Proof.
  split.
  - rewrite (@ascii_message_triggers_by_length "  where did we eat?  "); reflexivity.
  - rewrite (@ascii_message_triggers_by_length "who is this?"); reflexivity.
Defined.

(** ** The rewrite step of the pipeline *)

Lemma chat_run (sent : list ChatMessage) (withTools : bool) (st : St) :
  chat sent withTools st
  = (match nextReply st with Some r => Ok r | None => Throw "chat rejected" end,
     afterChat sent withTools st).
Proof.
  unfold chat, afterChat, nextReply. cbn.
  destruct (chatScript (env st)) as [| [r |] rest]; reflexivity.
Qed.

Section Rewrite.

Variable rt : Runtime.

Lemma rewritePlan_run (userMessage : string) (st : St) :
  exists plan st',
    rewritePlan rt userMessage st = (Ok plan, st')
    /\ trace st' = trace st
                   ++ EvChat (rewriteMessages userMessage) false (nextReply st)
                      :: usageEvents (nextReply st)
    /\ totalUsage (agent st') = plusUsage (totalUsage (agent st)) (replyUsage (nextReply st))
    /\ (match nextReply st with
        | None => True
        | Some r =>
            match matchBraces (Js.trim (resp_content r)) with
            | None => True
            | Some text =>
                match JSON_parse rt text with
                | None | Some JNull | Some JUndefined => True
                | Some _ => False
                end
            end
        end -> plan = fallbackPlan userMessage).
Proof.
  unfold rewritePlan, tryCatch. rewrite bind_run, chat_run.
  fold (rewriteMessages userMessage). fold (fallbackPlan userMessage).
  destruct (nextReply st) as [r |] eqn:R.
  2: { do 2 eexists. split; [ reflexivity |]. simpl. rewrite R, plusUsage_zero_r. auto. }
  rewrite bind_run.
  assert (U : exists st1,
             addUsage (resp_usage r) (afterChat (rewriteMessages userMessage) false st)
             = (Ok tt, st1)
             /\ trace st1 = trace st
                            ++ EvChat (rewriteMessages userMessage) false (Some r)
                               :: usageEvents (Some r)
             /\ totalUsage (agent st1)
                = plusUsage (totalUsage (agent st)) (replyUsage (Some r))).
  { unfold usageEvents, replyUsage. destruct (resp_usage r) as [u |]; cbn.
    - eexists. split; [ reflexivity |]. cbn. rewrite R, <- app_assoc. auto.
    - eexists. split; [ reflexivity |]. cbn. rewrite R, plusUsage_zero_r. auto. }
  destruct U as [st1 [E [T Us]]]. rewrite E. cbv zeta.
  destruct (matchBraces (Js.trim (resp_content r))) as [text |].
  2: { do 2 eexists. split; [ reflexivity |]. auto. }
  destruct (JSON_parse rt text) as [parsed |].
  2: { do 2 eexists. split; [ reflexivity |]. auto. }
  destruct parsed; cbn [Val.prop];
    do 2 eexists; (split; [ reflexivity | ]); repeat split; auto; intros [].
Qed.

End Rewrite.

(** ** The pipeline as a whole *)

Section Pipeline.

Variable rt : Runtime.

Lemma forcedSearch_run (plan0 : Plan) (tools : list ToolDefinition)
  (streaming : bool) (st : St) :
  hasSemanticSearch tools = true ->
  let plan := clampPlan (context (agent st)) plan0 in
  let call := forcedCall rt plan (randomUUID rt (uuidCounter (env st))) in
  let results := toolRuntime (env st) [call] in
  exists st',
    forcedSearch rt plan0 tools streaming st = (Ok true, st')
    /\ trace st' =
       trace st
       ++ bracket streaming (ChunkToolStart (JStr "semantic_search_messages") (planObject plan))
       ++ EvToolExec [call] results
          :: bracket streaming
               (ChunkToolResult (JStr "semantic_search_messages")
                                (reportedFirst (hd_error results)))
    /\ toolRounds (agent st') = toolRounds (agent st)
    /\ totalUsage (agent st') = totalUsage (agent st).
Proof.
  intros Ht plan call results. unfold forcedSearch.
  rewrite bind_getAgent. cbv zeta. rewrite Ht. simpl negb. cbv iota.
  subst results call plan. unfold forcedCall, bracket.
  destruct streaming;
    cbn -[String.append evidenceBlock insertEvidence clampPlan planObject
          toolTextFirst reportedFirst hd_error];
    (destruct (hd_error _) as [r |];
     [ destruct (success r && Val.truthy (result r)) | ];
     cbn -[String.append evidenceBlock insertEvidence clampPlan planObject
           toolTextFirst reportedFirst hd_error];
     eexists; (split; [ reflexivity | ]);
     rewrite <- ?app_assoc; repeat split; reflexivity).
Qed.

Lemma clampPlan_bounds (ctx : ToolContext) (p : Plan) :
  (1 <= top_k (clampPlan ctx p) <= 50)%Z
  /\ (candidate_limit (clampPlan ctx p) <= 500)%Z
  /\ (forall limit, maxMessagesLimit ctx = Some limit -> limit <> 0%Z ->
                    (candidate_limit (clampPlan ctx p) <= limit)%Z)
  /\ (maxMessagesLimit ctx = None \/ maxMessagesLimit ctx = Some 0%Z ->
      (20 <= candidate_limit (clampPlan ctx p))%Z)
  /\ query (clampPlan ctx p) = query p.
Proof.
  unfold clampPlan, Number_isFinite. cbn [top_k candidate_limit query].
  repeat split; try lia.
  - destruct (maxMessagesLimit ctx) as [l |]; [ destruct (Z.eqb_spec l 0) |]; lia.
  - intros limit E N. rewrite E. destruct (Z.eqb_spec limit 0); [ contradiction | lia ].
  - intros [E | E]; rewrite E; simpl; lia.
Qed.

Lemma filter_app_nil {A} (p : A -> bool) (a b : list A) :
  filter p a = [] -> filter p (a ++ b) = filter p b.
Proof. intro H. now rewrite filter_app, H. Qed.

Lemma usageEvents_calls (reply : option ChatResponse) :
  filter isCall (usageEvents reply) = [].
Proof. destruct reply as [r |]; simpl; auto. destruct (resp_usage r); reflexivity. Qed.

Lemma bracket_calls (streaming : bool) (chunk : AgentStreamChunk) :
  filter isCall (bracket streaming chunk) = [].
Proof. destruct streaming; reflexivity. Qed.

End Pipeline.

Section PipelineRuns.

Variable rt : Runtime.

Lemma pipeline_run (userMessage : string) (tools : list ToolDefinition)
  (streaming : bool) (st : St) :
  pipelineEnabled st = true ->
  exists plan0 st1,
    rewritePlan rt userMessage st = (Ok plan0, st1)
    /\ runSemanticPipeline rt userMessage tools streaming st
       = forcedSearch rt plan0 tools streaming st1.
Proof.
  intro En. unfold runSemanticPipeline. rewrite bind_run, getEmbeddingModel_run.
  unfold pipelineEnabled in En.
  destruct (embeddingModel (env st)) as [m |]; [ | discriminate En ]. rewrite En.
  destruct (rewritePlan_run rt userMessage st) as [plan0 [st1 [E _]]].
  exists plan0, st1. split; [ exact E |]. now rewrite bind_run, E.
Qed.

Lemma pipeline_disabled (userMessage : string) (tools : list ToolDefinition)
  (streaming : bool) (st : St) :
  pipelineEnabled st = false ->
  runSemanticPipeline rt userMessage tools streaming st = (Ok false, st).
Proof.
  intro En. unfold runSemanticPipeline. rewrite bind_run, getEmbeddingModel_run.
  unfold pipelineEnabled in En.
  destruct (embeddingModel (env st)) as [m |]; [ rewrite En | ]; reflexivity.
Qed.


Lemma pipeline_calls (userMessage : string)
  (tools : list ToolDefinition) (streaming : bool) (st st' : St) :
  runSemanticPipeline rt userMessage tools streaming st = (Ok true, st') ->
  exists plan uuid events,
    trace st' = trace st ++ events
    /\ filter isCall events
       = [EvChat (rewriteMessages userMessage) false (nextReply st);
          EvToolExec [forcedCall rt plan uuid]
                     (toolRuntime (env st) [forcedCall rt plan uuid])]
    /\ (1 <= top_k plan <= 50)%Z
    /\ (candidate_limit plan <= 500)%Z
    /\ (forall limit, maxMessagesLimit (context (agent st)) = Some limit ->
                      limit <> 0%Z -> (candidate_limit plan <= limit)%Z)
    /\ (maxMessagesLimit (context (agent st)) = None
        \/ maxMessagesLimit (context (agent st)) = Some 0%Z ->
        (20 <= candidate_limit plan)%Z)
    /\ toolsUsed (agent st') = toolsUsed (agent st) ++ [JStr "semantic_search_messages"]
    /\ toolRounds (agent st') = toolRounds (agent st)
    /\ totalUsage (agent st')
       = plusUsage (totalUsage (agent st)) (replyUsage (nextReply st)).
Proof.
  intro H.
  destruct (pipelineEnabled st) eqn:En.
  2: { rewrite pipeline_disabled in H by exact En. discriminate H. }
  destruct (rewritePlan_run rt userMessage st) as [plan0 [st1 [E [T [U _]]]]].
  destruct (pipeline_run userMessage tools streaming st En) as [p [s [E' R]]].
  rewrite E in E'. inversion E'; subst p s. clear E'. rewrite R in H.
  pose proof (aside_rewritePlan rt userMessage st) as A. rewrite E in A. simpl in A.
  destruct A as [AM AU AR AC AT _].
  destruct (hasSemanticSearch tools) eqn:Ht.
  2: { unfold forcedSearch in H. rewrite bind_getAgent in H. cbv zeta in H.
       rewrite Ht in H. discriminate H. }
  destruct (@forcedSearch_run rt plan0 tools streaming st1 Ht) as [st2 [F [T2 [R2 U2]]]].
  destruct (@forcedSearch_messages rt plan0 tools streaming st1 Ht) as [st3 [F' [TU _]]].
  rewrite F in F'. inversion F'; subst st3. clear F'.
  rewrite F in H. inversion H; subst st2. clear H.
  destruct (clampPlan_bounds (context (agent st1)) plan0) as [B1 [B2 [B3 [B4 _]]]].
  rewrite AC in B1, B2, B3, B4.
  rewrite AC in T2.
  exists (clampPlan (context (agent st)) plan0), (randomUUID rt (uuidCounter (env st1))).
  eexists. split.
  { rewrite T2, T, <- app_assoc. reflexivity. }
  split.
  { cbn [app filter isCall]. rewrite filter_app_nil by apply usageEvents_calls.
    rewrite filter_app_nil by apply bracket_calls.
    cbn [filter isCall]. rewrite bracket_calls, AT. reflexivity. }
  repeat split; auto; try lia; try congruence.
Qed.

(** X5.  with an embedding model configured and the search tool in the
    catalogue the pipeline always completes, whatever the rewrite call and
    the search return, and issues exactly two calls: the rewrite call to the
    model (two messages, no tools) and one search whose arguments are the
    clamped plan.  It adds [semantic_search_messages] to [toolsUsed] once,
    counts no round, and adds the usage of the rewrite reply to the total. *)
Theorem pipeline_issues_one_rewrite_and_one_search (userMessage : string)
  (tools : list ToolDefinition) (streaming : bool) (st : St) :
  pipelineEnabled st = true ->
  hasSemanticSearch tools = true ->
  exists st' plan uuid events,
    runSemanticPipeline rt userMessage tools streaming st = (Ok true, st')
    /\ trace st' = trace st ++ events
    /\ filter isCall events
       = [EvChat (rewriteMessages userMessage) false (nextReply st);
          EvToolExec [forcedCall rt plan uuid]
                     (toolRuntime (env st) [forcedCall rt plan uuid])]
    /\ (1 <= top_k plan <= 50)%Z
    /\ (candidate_limit plan <= 500)%Z
    /\ (forall limit, maxMessagesLimit (context (agent st)) = Some limit ->
                      limit <> 0%Z -> (candidate_limit plan <= limit)%Z)
    /\ (maxMessagesLimit (context (agent st)) = None
        \/ maxMessagesLimit (context (agent st)) = Some 0%Z ->
        (20 <= candidate_limit plan)%Z)
    /\ toolsUsed (agent st') = toolsUsed (agent st) ++ [JStr "semantic_search_messages"]
    /\ toolRounds (agent st') = toolRounds (agent st)
    /\ totalUsage (agent st')
       = plusUsage (totalUsage (agent st)) (replyUsage (nextReply st)).
Proof.
  intros En Ht.
  destruct (pipeline_run userMessage tools streaming st En) as [plan0 [st1 [_ R]]].
  destruct (@forcedSearch_run rt plan0 tools streaming st1 Ht) as [st' [F _]].
  rewrite <- R in F.
  destruct (pipeline_calls userMessage tools streaming st F) as [plan [uuid [events P]]].
  exists st', plan, uuid, events. split; [ exact F | exact P ].
Qed.

End PipelineRuns.

Lemma pipeline_issues_one_rewrite_and_one_search_witness :
  exists st',
    runSemanticPipeline nodeRuntime "any plans for the trip?"
      (match toolCatalog embeddingEnv with Some t => t | None => [] end) false
      (freshState None embeddingEnv) = (Ok true, st')
    /\ List.length (filter isCall (trace st')) = 2%nat
    /\ toolsUsed (agent st') = [JStr "semantic_search_messages"]
    /\ totalUsage (agent st') = tokens 40 12.
Proof.
  destruct (@pipeline_issues_one_rewrite_and_one_search nodeRuntime
              "any plans for the trip?"
              (match toolCatalog embeddingEnv with Some t => t | None => [] end) false
              (freshState None embeddingEnv) eq_refl eq_refl)
    as [st' [plan [uuid [events [E [T [C [_ [_ [_ [_ [U [_ V]]]]]]]]]]]]].
  exists st'. split; [ exact E |]. split; [ | split; [ exact U | exact V ] ].
  rewrite T. simpl app. rewrite C. reflexivity.
Defined.

Section RewriteFallback.

Variable rt : Runtime.

(** X6.  a rewrite call that is rejected, or whose reply holds no text in
    braces, or text in braces that [JSON.parse] refuses, is caught: the plan
    is the user's message with [top_k] 5 and [candidate_limit] 200, and the
    usage of the reply, when there is one, is added all the same. *)
Theorem rewrite_failure_falls_back (userMessage : string) (st : St) :
  nextReply st = None
  \/ (exists r, nextReply st = Some r
                /\ (matchBraces (Js.trim (resp_content r)) = None
                    \/ exists text, matchBraces (Js.trim (resp_content r)) = Some text
                                    /\ JSON_parse rt text = None)) ->
  exists st',
    rewritePlan rt userMessage st = (Ok (fallbackPlan userMessage), st')
    /\ totalUsage (agent st') = plusUsage (totalUsage (agent st)) (replyUsage (nextReply st))
    /\ messages (agent st') = messages (agent st).
Proof.
  intro H.
  destruct (rewritePlan_run rt userMessage st) as [plan [st' [E [_ [U F]]]]].
  pose proof (aside_rewritePlan rt userMessage st) as A. rewrite E in A. simpl in A.
  destruct A as [AM _ _ _ _ _].
  exists st'. rewrite E. repeat split; auto.
  f_equal. f_equal. apply F.
  destruct H as [-> | [r [-> [-> | [text [-> ->]]]]]]; exact I.
Qed.

End RewriteFallback.

Lemma rewrite_failure_falls_back_witness :
  exists st',
    rewritePlan nodeRuntime "when is the trip?"
      (freshState None
         (withChatScript [Some (answer "query: {trip, travel" (Some (tokens 30 6)))]
                         quietEnv))
    = (Ok (fallbackPlan "when is the trip?"), st')
    /\ totalUsage (agent st') = tokens 30 6.
Proof.
  destruct (@rewrite_failure_falls_back nodeRuntime "when is the trip?"
              (freshState None
                 (withChatScript [Some (answer "query: {trip, travel" (Some (tokens 30 6)))]
                                 quietEnv)))
    as [st' [E [U _]]].
  - right. eexists. split; [ reflexivity |]. left. reflexivity.
  - exists st'. split; [ exact E |]. rewrite U. reflexivity.
Defined.

(** ** Tool dispatch: the names used and the chunks sent *)

Section Dispatch.

Variable rt : Runtime.

Lemma recordResults_run (streaming : bool) (calls : list ToolCall) :
  forall (results : list ToolResult) (st : St),
    exists o st',
      recordResults rt streaming calls results st = (o, st')
      /\ (o = Ok tt <-> (List.length calls <= List.length results)%nat)
      /\ (forall x, o = Ok x \/ exists e, o = Throw e)
      /\ trace st' = trace st ++ resultChunks streaming calls results
      /\ messages (agent st') =
         messages (agent st)
         ++ map (fun p => toolMessage rt (fst p) (snd p)) (combine calls results)
      /\ toolsUsed (agent st') =
         toolsUsed (agent st)
         ++ map tc_name (firstn (S (List.length results)) calls)
      /\ toolRounds (agent st') = toolRounds (agent st).
Proof.
  induction calls as [| tc calls IH]; intros results st.
  - exists (Ok tt), st. simpl. split; [ reflexivity |].
    split; [ split; auto; lia |]. split; [ intros []; auto |].
    unfold resultChunks. destruct streaming; simpl; rewrite !app_nil_r; auto.
  - destruct results as [| r results].
    + simpl. eexists. eexists. split; [ reflexivity |].
      split; [ split; [ discriminate | simpl; lia ] |].
      split; [ intros; right; eauto |].
      unfold resultChunks. destruct streaming; simpl; rewrite !app_nil_r; auto.
    + cbn [recordResults]. rewrite bind_run. cbn [pushToolUsed setAgent].
      match goal with
      | |- context [bind (onChunkIf streaming ?c) ?k ?s] =>
          destruct (IH results
                      (snd (pushMessage (toolMessage rt tc r)
                              (snd (onChunkIf streaming c s)))))
            as [o [st' [E [Hok [Hsh [T [Ms [Us R]]]]]]]]
      end.
      exists o, st'.
      destruct streaming;
        cbn [onChunkIf onChunk log ret bind pushMessage setAgent snd] in *;
        unfold toolMessage in E; cbn [fst snd] in E; rewrite E;
        (split; [ reflexivity |]); (split; [ rewrite Hok; simpl; lia |]);
        (split; [ exact Hsh |]);
        simpl in T, Ms, Us, R; rewrite T, Ms, Us, R;
        unfold resultChunks; simpl; rewrite <- ?app_assoc; auto.
Qed.

End Dispatch.

Section DispatchTheorems.

Variable rt : Runtime.

Lemma handleToolCalls_run (calls : list ToolCall) (streaming : bool) (st : St) :
  let results := toolRuntime (env st) calls in
  exists o st',
    handleToolCalls rt calls streaming st = (o, st')
    /\ (o = Ok tt <-> (List.length calls <= List.length results)%nat)
    /\ (forall x, o = Ok x \/ exists e, o = Throw e)
    /\ trace st' = trace st ++ EvToolExec calls results :: resultChunks streaming calls results
    /\ messages (agent st') =
       messages (agent st)
       ++ assistantWith calls
          :: map (fun p => toolMessage rt (fst p) (snd p)) (combine calls results)
    /\ toolsUsed (agent st') =
       toolsUsed (agent st) ++ map tc_name (firstn (S (List.length results)) calls)
    /\ toolRounds (agent st') = toolRounds (agent st).
Proof.
  intro results. unfold handleToolCalls.
  rewrite bind_run. cbn [pushMessage setAgent].
  rewrite bind_executeToolCalls. cbn [env].
  match goal with
  | |- context [recordResults rt streaming calls ?rs ?s] =>
      destruct (recordResults_run rt streaming calls rs s)
        as [o [st' [E [Hok [Hsh [T [Ms [Us R]]]]]]]]
  end.
  exists o, st'. fold results in E, Hok, T, Ms, Us |- *. rewrite E.
  split; [ reflexivity |]. split; [ exact Hok |]. split; [ exact Hsh |].
  simpl in T, Ms, Us, R. rewrite T, Ms, Us, R, <- !app_assoc. auto.
Qed.

(** X7.  when the tool runtime answers every call, the dispatch completes:
    it adds the name of every call to [toolsUsed] in the order of the calls,
    runs the tools once with all the calls, sends one [tool_result] chunk per
    call when a consumer listens and none otherwise, and leaves [toolRounds]
    to its caller. *)
Theorem dispatch_names_every_call (calls : list ToolCall) (streaming : bool) (st : St) :
  (List.length calls <= List.length (toolRuntime (env st) calls))%nat ->
  exists st',
    handleToolCalls rt calls streaming st = (Ok tt, st')
    /\ toolsUsed (agent st') = toolsUsed (agent st) ++ map tc_name calls
    /\ trace st' =
       trace st
       ++ EvToolExec calls (toolRuntime (env st) calls)
          :: resultChunks streaming calls (toolRuntime (env st) calls)
    /\ toolRounds (agent st') = toolRounds (agent st).
Proof.
  intro L.
  destruct (handleToolCalls_run calls streaming st) as [o [s [E [Hok [_ [T [_ [Us R]]]]]]]].
  assert (O : o = Ok tt) by now apply Hok. subst o.
  exists s. rewrite firstn_all2 in Us by lia. auto.
Qed.

(** X8.  when the tool runtime answers fewer calls than it was given, the
    dispatch throws at the first call without a result: by then the
    transcript holds the assistant message and one tool message per result
    received, and [toolsUsed] has also gained the name of the call that had
    no result. *)
Theorem dispatch_throws_on_missing_result (calls : list ToolCall) (streaming : bool)
  (st : St) :
  (List.length (toolRuntime (env st) calls) < List.length calls)%nat ->
  exists e st',
    handleToolCalls rt calls streaming st = (Throw e, st')
    /\ messages (agent st') =
       messages (agent st)
       ++ assistantWith calls
          :: map (fun p => toolMessage rt (fst p) (snd p))
                 (combine calls (toolRuntime (env st) calls))
    /\ toolsUsed (agent st') =
       toolsUsed (agent st)
       ++ map tc_name (firstn (S (List.length (toolRuntime (env st) calls))) calls).
Proof.
  intro L.
  destruct (handleToolCalls_run calls streaming st) as [o [s [E [Hok [Hsh [_ [Ms [Us _]]]]]]]].
  destruct (Hsh tt) as [-> | [e ->]].
  - exfalso. assert (List.length calls <= List.length (toolRuntime (env st) calls))%nat
      by now apply Hok. lia.
  - exists e, s. auto.
Qed.

End DispatchTheorems.

Lemma dispatch_names_every_call_witness :
  let calls := [{| tc_id := "a"; tc_name := JStr "search_messages"; tc_arguments := "{}" |};
                {| tc_id := "b"; tc_name := JStr "get_recent_messages"; tc_arguments := "{}" |}] in
  let st := freshState None quietEnv in
  exists st',
    handleToolCalls nodeRuntime calls true st = (Ok tt, st')
    /\ toolsUsed (agent st') = [JStr "search_messages"; JStr "get_recent_messages"]
    /\ List.length (trace st') = 3%nat.
Proof.
  intros calls st.
  destruct (@dispatch_names_every_call nodeRuntime calls true st) as [st' [E [U [T _]]]].
  - simpl. lia.
  - exists st'. split; [ exact E |]. split; [ exact U |]. rewrite T. reflexivity.
Defined.

Lemma dispatch_throws_on_missing_result_witness :
  let calls := [{| tc_id := "a"; tc_name := JStr "search_messages"; tc_arguments := "{}" |};
                {| tc_id := "b"; tc_name := JStr "get_recent_messages"; tc_arguments := "{}" |}] in
  let st := freshState None
              (withChatScript [] {| embeddingModel := None; toolCatalog := None;
                                    toolRuntime := fun _ => [foundMessages];
                                    chatScript := []; streamScript := [];
                                    abortScript := []; uuidCounter := 0;
                                    systemPrompt := "" |}) in
  exists e st',
    handleToolCalls nodeRuntime calls false st = (Throw e, st')
    /\ List.length (messages (agent st')) = 2%nat
    /\ toolsUsed (agent st') = [JStr "search_messages"; JStr "get_recent_messages"].
Proof.
  intros calls st.
  destruct (@dispatch_throws_on_missing_result nodeRuntime calls false st)
    as [e [st' [E [Ms Us]]]].
  - simpl. lia.
  - exists e, st'. split; [ exact E |]. rewrite Ms, Us. split; reflexivity.
Defined.

(** ** Counting the calls of an execution *)

#[export] Instance Internal_Frame : Frame Internal.
Proof.
  split.
  - intro st. split; auto. exists []. now rewrite app_nil_r.
  - intros a b c [[e1 [T1 F1]] C1 R1] [[e2 [T2 F2]] C2 R2]. split; try congruence.
    exists (e1 ++ e2). split; [ now rewrite T2, T1, app_assoc | now apply Forall_app ].
Qed.

Lemma Internal_still (st st' : St) :
  trace st' = trace st -> config (agent st') = config (agent st) ->
  toolRounds (agent st') = toolRounds (agent st) -> Internal st st'.
Proof. intros T C R. split; auto. exists []. now rewrite app_nil_r. Qed.

Lemma Internal_log (e : Event) (st : St) : isCall e = false -> Internal st (snd (log e st)).
Proof. intro H. split; simpl; auto. exists [e]. split; auto. Qed.

Lemma internal_onChunk (c : AgentStreamChunk) : preserves Internal (onChunk c).
Proof. intro st. now apply Internal_log. Qed.

Lemma internal_onChunkIf (b : bool) (c : AgentStreamChunk) : preserves Internal (onChunkIf b c).
Proof. destruct b; [ apply internal_onChunk | apply preserves_ret ]. Qed.

Lemma internal_pushMessage (m : ChatMessage) : preserves Internal (pushMessage m).
Proof. intro st. now apply Internal_still. Qed.

Lemma internal_pushToolUsed (n : JsVal) : preserves Internal (pushToolUsed n).
Proof. intro st. now apply Internal_still. Qed.

Lemma internal_setMessages (f : Agent -> list ChatMessage) :
  preserves Internal (setAgent (fun a => withMessages (f a) a)).
Proof. intro st. now apply Internal_still. Qed.

Lemma internal_emitDone : preserves Internal emitDone.
Proof.
  unfold emitDone. apply preserves_bind; [ apply preserves_getAgent | intro; apply internal_onChunk ].
Qed.

Lemma internal_resultWith (text : string) : preserves Internal (resultWith text).
Proof. unfold resultWith. frame. Qed.

Lemma internal_addUsage (u : option TokenUsage) : preserves Internal (addUsage u).
Proof.
  destruct u as [u |]; [ | apply preserves_ret ].
  intro st. split; simpl; auto. exists [EvUsage u]. split; auto.
Qed.

Lemma internal_getAllToolDefinitions : preserves Internal getAllToolDefinitions.
Proof. unfold getAllToolDefinitions. frame. Qed.

Lemma internal_freshUUID (rt : Runtime) : preserves Internal (freshUUID rt).
Proof. intro st. now apply Internal_still. Qed.

Lemma internal_isAborted (held : string) : preserves Internal (isAborted held).
Proof.
  intro st. rewrite isAborted_run. split; simpl; auto.
  exists [EvAbortCheck (nextAbort st) held]. split; auto.
Qed.

#[export] Hint Resolve internal_onChunk internal_onChunkIf internal_pushMessage
  internal_pushToolUsed internal_setMessages internal_emitDone internal_resultWith internal_addUsage
  internal_getAllToolDefinitions internal_freshUUID internal_isAborted : frame.

Section InternalCode.

Variable rt : Runtime.

Lemma internal_parseBlocks (blocks : list string) : preserves Internal (parseBlocks rt blocks).
Proof. induction blocks as [| b blocks IH]; simpl; frame. Qed.

Lemma internal_callsOrAnswer (response : ChatResponse) :
  preserves Internal (callsOrAnswer rt response).
Proof. unfold callsOrAnswer, parseToolCallTags. pose proof internal_parseBlocks. frame. Qed.

Lemma internal_recordResults (streaming : bool) (calls : list ToolCall)
  (results : list ToolResult) :
  preserves Internal (recordResults rt streaming calls results).
Proof.
  revert results. induction calls as [| tc calls IH]; intro results; simpl; frame.
Qed.

End InternalCode.

#[export] Hint Resolve internal_parseBlocks internal_callsOrAnswer internal_recordResults
  : frame.

Lemma filter_none_of {P Q : Event -> bool} (events : list Event) :
  (forall e, P e = true -> Q e = true) ->
  Forall (fun e => Q e = false) events -> filter P events = [].
Proof.
  intros PQ F. induction F as [| e events He _ IH]; simpl; auto.
  destruct (P e) eqn:E; auto. apply PQ in E. congruence.
Qed.

Lemma chat_is_call (e : Event) : isChat e = true -> isCall e = true.
Proof. destruct e; simpl; auto. Qed.

Lemma toolRun_is_call (e : Event) : isToolRun e = true -> isCall e = true.
Proof. destruct e; simpl; auto. Qed.

Lemma Spent_refl (st : St) : Spent 0 0 st st.
Proof. exists []. rewrite app_nil_r. auto. Qed.

Lemma Spent_trans (c1 t1 c2 t2 : nat) (a b c : St) :
  Spent c1 t1 a b -> Spent c2 t2 b c -> Spent (c1 + c2) (t1 + t2) a c.
Proof.
  intros [e1 [T1 [C1 R1]]] [e2 [T2 [C2 R2]]]. exists (e1 ++ e2).
  unfold chatCalls, toolRuns in *. rewrite !filter_app, !length_app.
  split; [ now rewrite T2, T1, app_assoc | lia ].
Qed.

Lemma Spent_weaken (c t c' t' : nat) (a b : St) :
  Spent c t a b -> (c <= c')%nat -> (t <= t')%nat -> Spent c' t' a b.
Proof. intros [e [T [C R]]] Hc Ht. exists e. repeat split; auto; lia. Qed.

Lemma Internal_Spent (a b : St) : Internal a b -> Spent 0 0 a b.
Proof.
  intros [[e [T F]] _ _]. exists e. unfold chatCalls, toolRuns.
  rewrite (@filter_none_of isChat isCall e chat_is_call F),
    (@filter_none_of isToolRun isCall e toolRun_is_call F).
  auto.
Qed.

Lemma Spent_chat (sent : list ChatMessage) (withTools : bool) (st : St) :
  Spent 1 0 st (afterChat sent withTools st).
Proof. eexists [_]. simpl. auto. Qed.

Lemma Spent_internal (c t : nat) (a b d : St) : Spent c t a b -> Internal b d -> Spent c t a d.
Proof.
  intros P L. apply Internal_Spent in L. pose proof (Spent_trans P L) as Q.
  now rewrite !Nat.add_0_r in Q.
Qed.

(** One step of a run that calls neither the model nor the tools. *)
Ltac spend E P :=
  lazymatch type of E with
  | ?m ?cur = (_, ?new) =>
      let L := fresh "L" in
      assert (L : Internal cur new) by
        (let X := fresh in
         assert (X : preserves Internal m) by eauto with frame;
         specialize (X cur); rewrite E in X; exact X);
      apply (Spent_internal P) in L; clear P; rename L into P
  end.

Section CallBudget.

Variable rt : Runtime.

Lemma resultChunks_quiet (streaming : bool) (calls : list ToolCall)
  (results : list ToolResult) :
  Forall (fun e => isCall e = false) (resultChunks streaming calls results).
Proof.
  unfold resultChunks. destruct streaming; [ | constructor ].
  apply Forall_forall. intros e H. apply in_map_iff in H. destruct H as [p [<- _]].
  reflexivity.
Qed.

Lemma Spent_handleToolCalls (calls : list ToolCall) (streaming : bool) (st : St) :
  Spent 0 1 st (snd (handleToolCalls rt calls streaming st)).
Proof.
  destruct (handleToolCalls_run rt calls streaming st) as [o [s [E [_ [_ [T _]]]]]].
  rewrite E. simpl. eexists. split; [ exact T |].
  pose proof (resultChunks_quiet streaming calls (toolRuntime (env st) calls)) as F.
  unfold chatCalls, toolRuns. cbn [filter isChat isToolRun].
  rewrite (@filter_none_of isChat isCall _ chat_is_call F),
    (@filter_none_of isToolRun isCall _ toolRun_is_call F).
  simpl. auto.
Qed.

Lemma executeRounds_spent (fuel : nat) :
  forall (tools : list ToolDefinition) (st st' : St) (o : Outcome (Flow unit AgentResult)),
    executeRounds rt fuel tools st = (o, st') ->
    Spent (roundsLeft st) (roundsLeft st) st st'.
Proof.
  induction fuel as [| fuel IH]; intros tools st st' o H.
  { inversion H; subst. eapply Spent_weaken; [ apply Spent_refl | lia | lia ]. }
  cbn [executeRounds] in H. rewrite bind_getAgent in H.
  destruct (toolRounds (agent st) <? roundBudget (agent st))%Z eqn:G.
  2: { inversion H; subst. eapply Spent_weaken; [ apply Spent_refl | lia | lia ]. }
  apply Z.ltb_lt in G.
  assert (K : (1 <= roundsLeft st)%nat) by (unfold roundsLeft; lia).
  rewrite bind_isAborted in H.
  assert (P : Spent 0 0 st (afterAbortCheck "" st)).
  { eexists [_]. simpl. auto. }
  pose proof (Steady_afterAbortCheck "" st) as S.
  destruct (nextAbort st).
  { cbn in H. inversion H; subst. eapply Spent_weaken; [ exact P | lia | lia ]. }
  set (st1 := afterAbortCheck "" st) in *. rewrite bind_getAgent in H.
  rewrite bind_run, chat_run in H.
  pose proof (Spent_trans P (Spent_chat (messages (agent st1)) true st1)) as P1.
  simpl Nat.add in P1. clear P.
  assert (S1 : Steady st (afterChat (messages (agent st1)) true st1)).
  { destruct S as [C R L1 L2]. split; simpl; auto.
    simpl in L1. pose proof (tl_length_le (chatScript (env st))). lia. }
  clear S. set (st2 := afterChat (messages (agent st1)) true st1) in *.
  destruct (nextReply st1) as [response |].
  2: { inversion H; subst. eapply Spent_weaken; [ exact P1 | lia | lia ]. }
  assert (Hend : forall (x : Outcome (Flow unit AgentResult)) cur,
            Spent 1 0 st cur -> (x, cur) = (o, st') ->
            Spent (roundsLeft st) (roundsLeft st) st st').
  { intros x cur Pc Hc. inversion Hc; subst.
    eapply Spent_weaken; [ exact Pc | lia | lia ]. }
  bind_in H as u st3 E2; [ | spend E2 P1; eauto | total_of E2 ].
  spend E2 P1. advance E2 S1.
  bind_in H as decided st4 E3; [ | spend E3 P1; eauto | total_of E3 ].
  spend E3 P1. advance E3 S1.
  destruct decided as [calls | r]; [ | eauto ].
  pose proof (Spent_handleToolCalls calls false st4) as P4.
  bind_in H as u2 st5 E4; simpl in P4;
    pose proof (Spent_trans P1 P4) as P5; simpl Nat.add in P5.
  2: { inversion H; subst. eapply Spent_weaken; [ exact P5 | lia | lia ]. }
  2: { total_of E4. }
  advance E4 S1.
  rewrite bind_run in H. cbn [incrementToolRounds setAgent] in H.
  apply IH in H.
  destruct S1 as [C R _ _].
  assert (N : roundsLeft
                {| agent := withToolRounds (toolRounds (agent st5) + 1) (agent st5);
                   env := env st5; trace := trace st5 |}
              = (roundsLeft st - 1)%nat).
  { unfold roundsLeft, roundBudget in *. simpl. rewrite C, R. lia. }
  rewrite N in H.
  assert (P6 : Spent 0 0 st5
                 {| agent := withToolRounds (toolRounds (agent st5) + 1) (agent st5);
                    env := env st5; trace := trace st5 |}).
  { exists []. simpl. rewrite app_nil_r. auto. }
  pose proof (Spent_trans (Spent_trans P5 P6) H) as P7.
  eapply Spent_weaken; [ exact P7 | lia | lia ].
Qed.

End CallBudget.

Section TurnBudget.

Variable rt : Runtime.

Lemma runAutoSemanticSearch_spent (userMessage : string) (st : St) :
  Spent 0 1 st (snd (runAutoSemanticSearch rt userMessage st)).
Proof.
  assert (W : forall s, Spent 0 0 st s -> Spent 0 1 st s)
    by (intros s P; eapply Spent_weaken; [ exact P | lia | lia ]).
  unfold runAutoSemanticSearch, tryCatch.
  rewrite bind_getAllToolDefinitions.
  destruct (toolCatalog (env st)) as [tools |]; [ | apply W, Spent_refl ].
  destruct (hasSemanticSearch tools); cbn [negb]; [ | apply W, Spent_refl ].
  rewrite bind_freshUUID. cbv zeta. rewrite bind_executeToolCalls.
  cbn [env toolRuntime withUuidCounter].
  match goal with
  | |- context [EvToolExec ?c ?r] =>
      assert (P : forall a e,
                 Spent 0 1 st {| agent := a; env := e;
                                 trace := trace st ++ [EvToolExec c r] |})
        by (intros a e; exists [EvToolExec c r]; simpl; auto)
  end.
  destruct (hd_error _) as [r0 |]; [ | apply P ].
  destruct (success r0); cbn [negb]; [ | apply P ].
  cbv zeta.
  destruct (Val.optProp (result r0) "results") as [ | | | | | [| item items] | ];
    try apply P.
  destruct (formatItems 0 (firstn 8 (item :: items))); apply P.
Qed.

Lemma autoSemanticStep_spent (userMessage : string) (ran : bool) (st : St) :
  Spent 0 (if ran then 0 else 1) st (snd (autoSemanticStep rt userMessage ran st)).
Proof.
  unfold autoSemanticStep.
  destruct ran; cbn [negb andb]; [ apply Spent_refl |].
  destruct (shouldAutoSemanticSearch userMessage); [ | eapply Spent_weaken;
    [ apply Spent_refl | lia | lia ] ].
  rewrite bind_run.
  pose proof (runAutoSemanticSearch_spent userMessage st) as P.
  destruct (runAutoSemanticSearch rt userMessage st) as [[found | e |] st1]; simpl in *;
    try exact P.
  destruct found as [text |]; [ | exact P ].
  destruct (Js.nonEmpty text); [ | exact P ].
  destruct P as [ev [T [C R]]]. exists ev. simpl. auto.
Qed.

Lemma pipeline_spent (userMessage : string) (tools : list ToolDefinition)
  (streaming : bool) (st : St) :
  exists ran st',
    runSemanticPipeline rt userMessage tools streaming st = (Ok ran, st')
    /\ Spent 1 (if ran then 1 else 0) st st'
    /\ config (agent st') = config (agent st)
    /\ toolRounds (agent st') = toolRounds (agent st).
Proof.
  pose proof (quiet_runSemanticPipeline rt userMessage tools streaming st) as Q.
  destruct (pipelineEnabled st) eqn:En.
  2: { exists false, st. rewrite pipeline_disabled by exact En.
       split; [ reflexivity |]. split; auto.
       eapply Spent_weaken; [ apply Spent_refl | lia | lia ]. }
  destruct (pipeline_run rt userMessage tools streaming st En) as [plan0 [st1 [E R]]].
  destruct (rewritePlan_run rt userMessage st) as [p [s [E' [T _]]]].
  rewrite E in E'. inversion E'; subst p s. clear E'.
  assert (P1 : Spent 1 0 st st1).
  { eexists. split; [ exact T |]. unfold chatCalls, toolRuns. cbn [filter isChat isToolRun].
    assert (F : Forall (fun e => isCall e = false) (usageEvents (nextReply st))).
    { unfold usageEvents. destruct (nextReply st) as [r |]; [ | constructor ].
      destruct (resp_usage r); repeat constructor. }
    rewrite (@filter_none_of isChat isCall _ chat_is_call F),
      (@filter_none_of isToolRun isCall _ toolRun_is_call F). simpl. auto. }
  rewrite R in Q |- *.
  destruct (hasSemanticSearch tools) eqn:Ht.
  - destruct (@forcedSearch_run rt plan0 tools streaming st1 Ht) as [st' [F [T2 _]]].
    rewrite F in Q. simpl in Q. destruct Q as [_ C Rn _ _].
    exists true, st'. split; [ exact F |]. split; auto.
    assert (P2 : Spent 0 1 st1 st').
    { eexists. split; [ exact T2 |]. unfold chatCalls, toolRuns.
      assert (B : forall c, Forall (fun e => isCall e = false) (bracket streaming c))
        by (intro c; unfold bracket; destruct streaming; repeat constructor).
      rewrite !filter_app. cbn [filter isChat isToolRun].
      rewrite !(@filter_none_of isChat isCall _ chat_is_call (B _)),
        !(@filter_none_of isToolRun isCall _ toolRun_is_call (B _)).
      simpl. auto. }
    apply (Spent_trans P1 P2).
  - assert (F : forcedSearch rt plan0 tools streaming st1 = (Ok false, st1)).
    { unfold forcedSearch. rewrite bind_getAgent. cbv zeta. now rewrite Ht. }
    rewrite F in Q. simpl in Q. destruct Q as [_ C Rn _ _].
    exists false, st1. split; [ exact F |]. auto.
Qed.

Lemma prepareTurn_spent (userMessage : string) (streaming : bool) (st : St) :
  Spent 1 1 st (snd (prepareTurn rt userMessage streaming st)).
Proof.
  unfold prepareTurn. rewrite bind_run, resetForTurn_run.
  assert (P0 : Spent 0 0 st (afterReset userMessage st)).
  { exists []. simpl. rewrite app_nil_r. auto. }
  set (st0 := afterReset userMessage st) in *.
  rewrite bind_getAllToolDefinitions.
  destruct (toolCatalog (env st0)) as [tools |]; simpl;
    [ | eapply Spent_weaken; [ exact P0 | lia | lia ] ].
  rewrite bind_run.
  destruct (pipeline_spent userMessage tools streaming st0) as [ran [st1 [E [P1 _]]]].
  rewrite E. rewrite bind_run.
  pose proof (autoSemanticStep_spent userMessage ran st1) as P2.
  destruct (autoSemanticStep rt userMessage ran st1) as [[u | e |] st2]; simpl in *;
    pose proof (Spent_trans (Spent_trans P0 P1) P2) as P;
    (eapply Spent_weaken; [ exact P | simpl; lia | destruct ran; simpl; lia ]).
Qed.

End TurnBudget.

Section ExecuteBudget.

Variable rt : Runtime.

Lemma forcedAnswer_spent (st : St) : Spent 1 0 st (snd (forcedAnswer st)).
Proof.
  unfold forcedAnswer. rewrite bind_run. cbn [pushMessage setAgent].
  rewrite bind_getAgent, bind_run, chat_run.
  match goal with
  | |- context [afterChat ?sent ?w ?s] =>
      assert (P : Spent 1 0 st (afterChat sent w s))
        by (eexists [_]; simpl; auto);
      set (st2 := afterChat sent w s) in *
  end.
  destruct (nextReply _) as [r |]; [ | exact P ].
  rewrite bind_run.
  destruct (addUsage (resp_usage r) st2) as [[u | e |] st3] eqn:E; simpl.
  - spend E P. exact P.
  - spend E P. exact P.
  - spend E P. exact P.
Qed.

Lemma execute_spent (userMessage : string) (st : St) :
  Spent (Z.to_nat (Z.max 0 (roundBudget (agent st))) + 2)
        (Z.to_nat (Z.max 0 (roundBudget (agent st))) + 1)
        st (snd (execute rt userMessage st)).
Proof.
  set (b := Z.to_nat (Z.max 0 (roundBudget (agent st)))).
  unfold execute. rewrite bind_isAborted.
  assert (P0 : Spent 0 0 st (afterAbortCheck "" st)) by (eexists [_]; simpl; auto).
  destruct (nextAbort st).
  { cbn. eapply Spent_weaken; [ exact P0 | lia | lia ]. }
  set (st0 := afterAbortCheck "" st) in *.
  rewrite bind_run.
  pose proof (prepareTurn_spent rt userMessage false st0) as P1.
  destruct (prepareTurn rt userMessage false st0) as [[tools | e |] st1] eqn:E1;
    simpl in P1; pose proof (Spent_trans P0 P1) as P2; simpl Nat.add in P2;
    try (simpl; eapply Spent_weaken; [ exact P2 | lia | lia ]).
  apply prepareTurn_rounds in E1. destruct E1 as [C1 [R1 _]].
  rewrite bind_getEnv, bind_run.
  destruct (executeRounds rt (S (List.length (chatScript (env st1)))) tools st1)
    as [[flow | e |] st2] eqn:E2;
    pose proof (@executeRounds_spent rt _ _ _ _ _ E2) as P3;
    assert (N : roundsLeft st1 = b)
      by (unfold roundsLeft, b, roundBudget; rewrite C1, R1; simpl; lia);
    rewrite N in P3; pose proof (Spent_trans P2 P3) as P4;
    try (simpl; eapply Spent_weaken; [ exact P4 | lia | lia ]).
  destruct flow as [[] | r].
  - pose proof (Spent_trans P4 (forcedAnswer_spent st2)) as P5.
    eapply Spent_weaken; [ exact P5 | lia | lia ].
  - simpl. eapply Spent_weaken; [ exact P4 | lia | lia ].
Qed.

(** X9.  in one [execute] the model transport is called at most [b + 2] times
    and the tool runtime at most [b + 1] times, [b] being the round budget
    (0 when it is negative): one rewrite call and one forced search or legacy
    search before the rounds, one model call and one tool dispatch per
    round, one forced final call. *)
Theorem execute_call_budget (userMessage : string) (st : St) :
  exists events,
    trace (snd (execute rt userMessage st)) = trace st ++ events
    /\ (chatCalls events <= Z.to_nat (Z.max 0 (roundBudget (agent st))) + 2)%nat
    /\ (toolRuns events <= Z.to_nat (Z.max 0 (roundBudget (agent st))) + 1)%nat.
Proof. exact (execute_spent userMessage st). Qed.

End ExecuteBudget.

Section ForcedAnswer.

Variable rt : Runtime.

Lemma forcedAnswer_run (st st' : St) (r : AgentResult) :
  forcedAnswer st = (Ok r, st') ->
  let sent := messages (agent st) ++ [plainMessage user finalInstruction] in
  exists reply,
    nextReply st = Some reply
    /\ messages (agent st') = sent
    /\ trace st' = trace st ++ EvChat sent false (Some reply) :: usageEvents (Some reply)
    /\ res_content r = resp_content reply.
Proof.
  unfold forcedAnswer. intro H. cbv zeta.
  rewrite bind_run in H. cbn [pushMessage setAgent] in H.
  rewrite bind_getAgent, bind_run, chat_run in H.
  cbn [agent messages withMessages] in H.
  unfold nextReply in H at 1. cbn [env] in H. fold (nextReply st) in H.
  destruct (nextReply st) as [reply |] eqn:N; [ | discriminate H ].
  exists reply. split; [ reflexivity |].
  unfold afterChat in H. cbn [agent env trace messages withMessages] in H.
  unfold nextReply in H. cbn [env] in H. fold (nextReply st) in H. rewrite N in H.
  unfold usageEvents.
  destruct (resp_usage reply) as [u |]; cbn in H; inversion H; subst; simpl;
    rewrite <- ?app_assoc; auto.
Qed.

Lemma executeRounds_return (fuel : nat) :
  forall (tools : list ToolDefinition) (st st' : St) (r : AgentResult),
    executeRounds rt fuel tools st = (Ok (Return r), st') ->
    (res_toolRounds r < roundBudget (agent st))%Z.
Proof.
  induction fuel as [| fuel IH]; intros tools st st' r H; [ discriminate H |].
  cbn [executeRounds] in H. rewrite bind_getAgent in H.
  destruct (toolRounds (agent st) <? roundBudget (agent st))%Z eqn:G;
    [ | discriminate H ].
  apply Z.ltb_lt in G.
  rewrite bind_isAborted in H. destruct (nextAbort st).
  { cbn in H. inversion H; subst. exact G. }
  pose proof (Steady_afterAbortCheck "" st) as S.
  set (st1 := afterAbortCheck "" st) in *. rewrite bind_getAgent in H.
  bind_in H as response st2 E1; try discriminate H. advance E1 S.
  bind_in H as u st3 E2; try discriminate H. advance E2 S.
  pose proof (faithful_callsOrAnswer rt response st3) as F.
  bind_in H as decided st4 E3; try discriminate H. advance E3 S.
  simpl in F. destruct decided as [calls | r0].
  2: { inversion H; subst. destruct F as [_ [F _]]. destruct S as [_ R _ _].
       rewrite F, R. exact G. }
  bind_in H as u2 st5 E4; try discriminate H. advance E4 S.
  rewrite bind_run in H. cbn [incrementToolRounds setAgent] in H.
  apply IH in H. destruct S as [C _ _ _].
  unfold roundBudget in *. simpl in H. now rewrite C in H.
Qed.

(** X10.  an [execute] that was not cancelled at its entry and whose result
    shows [toolRounds] at the budget (or above it, for a budget below zero)
    ended with the forced answer: the transcript ends with the closing
    instruction as a user message, the last event is the model call that
    sent this transcript without tools, and the text of its reply is
    returned as it is. *)
Theorem spent_budget_forces_answer (userMessage : string) (st st' : St) (r : AgentResult) :
  execute rt userMessage st = (Ok r, st') ->
  nextAbort st = false ->
  (roundBudget (agent st) <= res_toolRounds r)%Z ->
  exists ms reply events,
    messages (agent st') = ms ++ [plainMessage user finalInstruction]
    /\ trace st' =
       trace st ++ events
       ++ EvChat (ms ++ [plainMessage user finalInstruction]) false (Some reply)
          :: usageEvents (Some reply)
    /\ res_content r = resp_content reply.
Proof.
  unfold execute. intros H Na Hb. rewrite bind_isAborted, Na in H.
  pose proof (mild_prepareTurn rt userMessage false (afterAbortCheck "" st)) as M1.
  bind_in H as tools st1 E1; try discriminate H. simpl in M1.
  apply prepareTurn_rounds in E1. destruct E1 as [C1 _].
  rewrite bind_getEnv in H.
  bind_in H as flow st2 E2; try discriminate H.
  destruct flow as [[] | r0].
  - destruct M1 as [[ev1 [T1 _]] _].
    assert (T2 : exists ev2, trace st2 = trace st1 ++ ev2).
    { pose proof (counted_executeRounds rt (S (List.length (chatScript (env st1)))) tools st1)
        as Cn. rewrite E2 in Cn. destruct Cn as [ev2 [T2 _]]. eauto. }
    destruct T2 as [ev2 T2].
    apply forcedAnswer_run in H. cbv zeta in H. destruct H as [reply [_ [Ms [T R]]]].
    exists (messages (agent st2)), reply, (EvAbortCheck false "" :: ev1 ++ ev2).
    split; [ exact Ms |]. split; [ | exact R ].
    rewrite T, T2, T1. simpl. rewrite Na. rewrite <- !app_assoc. reflexivity.
  - inversion H; subst r0 st2. apply executeRounds_return in E2.
    unfold roundBudget in *. simpl in C1. rewrite C1 in E2. lia.
Qed.

End ForcedAnswer.

Lemma spent_budget_forces_answer_witness :
  exists r st',
    execute nodeRuntime "hi" lateCancelState = (Ok r, st')
    /\ res_toolRounds r = 1%Z
    /\ exists ms reply events,
         messages (agent st') = ms ++ [plainMessage user finalInstruction]
         /\ trace st' =
            trace lateCancelState ++ events
            ++ EvChat (ms ++ [plainMessage user finalInstruction]) false (Some reply)
               :: usageEvents (Some reply)
         /\ res_content r = resp_content reply.
Proof.
  eexists. eexists. split; [ vm_compute; reflexivity |].
  split; [ reflexivity |].
  eapply (@spent_budget_forces_answer nodeRuntime "hi" lateCancelState).
  - vm_compute. reflexivity.
  - reflexivity.
  - vm_compute. discriminate.
Defined.

(** ** What the streaming paths forward *)

Lemma concat_app_s (a b : list string) :
  String.concat "" (a ++ b) = (String.concat "" a ++ String.concat "" b)%string.
Proof.
  induction a as [| x a IH]; simpl; auto.
  destruct a as [| y a].
  - simpl in *. destruct b; simpl; [ now rewrite app_nil_r_s | reflexivity ].
  - simpl in IH |- *. rewrite IH. now rewrite app_assoc_s.
Qed.

Lemma concat_cons_s (x : string) (a : list string) :
  String.concat "" (x :: a) = (x ++ String.concat "" a)%string.
Proof. destruct a; simpl; [ now rewrite app_nil_r_s | reflexivity ]. Qed.

Lemma forwarded_app (a b : list Event) : forwarded (a ++ b) = forwarded a ++ forwarded b.
Proof. unfold forwarded. apply flat_map_app. Qed.

Lemma chatStream_run (sent : list ChatMessage) (withTools : bool) (st : St) :
  chatStream sent withTools st = (Ok (nextStream st), afterStream sent withTools st).
Proof. reflexivity. Qed.

Section ForcedStream.

Variable rt : Runtime.



End ForcedStream.

(** *** A reply without markers *)

Lemma take_all (s : string) : Js.take (String.length s) s = s.
Proof. induction s as [| c s IH]; simpl; [ reflexivity | now rewrite IH ]. Qed.

Lemma sliceFrom_app (a t : string) : Js.sliceFrom (a ++ t) (Js.len a) = t.
Proof.
  unfold Js.sliceFrom, Js.slice, Js.sliceIndex, Js.len.
  rewrite length_app_s.
  destruct (Z.ltb_spec (Z.of_nat (String.length a)) 0); [ lia |].
  destruct (Z.ltb_spec (Z.of_nat (String.length a + String.length t)) 0); [ lia |].
  rewrite Z.min_l by lia. rewrite Z.min_id.
  destruct (Z.ltb_spec (Z.of_nat (String.length a))
                       (Z.of_nat (String.length a + String.length t))).
  - rewrite Nat2Z.id. rewrite drop_app.
    replace (Z.to_nat (Z.of_nat (String.length a + String.length t)
                       - Z.of_nat (String.length a)))
      with (String.length t) by lia.
    apply take_all.
  - destruct t; [ reflexivity | simpl in *; lia ].
Qed.


Lemma scanDelta_plain (text : string) (s : Scan) (st : St) :
  Js.nonEmpty text = true -> settled s ->
  Js.testCI "<think>" (accumulatedContent s ++ text) = false ->
  Js.testCI "<tool_call>" (accumulatedContent s ++ text) = false ->
  scanDelta text s st
  = (Ok (scanAfter text s, false),
     {| agent := agent st; env := env st;
        trace := trace st ++ [EvEmit (ChunkContent text)] |}).
Proof.
  intros Ne [D [Bt Bc]] Ht Hc. unfold scanDelta. cbv zeta.
  unfold scanThinkOpen. cbn [isBufferingThink accumulatedContent withAccumulated].
  rewrite Bt, Ht. cbn [negb andb]. rewrite bind_ret.
  unfold scanThinkClose. cbn [isBufferingThink accumulatedContent withAccumulated].
  rewrite Bt. cbn [andb].
  unfold scanToolCall.
  cbn [isBufferingToolCall isBufferingThink accumulatedContent displayedContent
       withAccumulated].
  rewrite Bc, Hc. cbn [negb]. rewrite D, sliceFrom_app, Ne, Bt.
  unfold scanAfter, withDisplayed, withAccumulated. cbn. rewrite Bt, Bc. reflexivity.
Qed.

Section PlainStream.

Variable rt : Runtime.

Lemma nonEmpty_false (s : string) : Js.nonEmpty s = false -> s = "".
Proof. destruct s; [ reflexivity | discriminate ]. Qed.

Lemma scan_step_plain (text : string) (s : Scan) (st : St) :
  settled s ->
  Js.testCI "<think>" (accumulatedContent s ++ text) = false ->
  Js.testCI "<tool_call>" (accumulatedContent s ++ text) = false ->
  exists s2 st2 ev,
    (if Js.nonEmpty text then scanDelta text s else ret (s, false)) st
    = (Ok (s2, false), st2)
    /\ trace st2 = trace st ++ ev
    /\ String.concat "" (forwarded ev) = text
    /\ settled s2
    /\ accumulatedContent s2 = (accumulatedContent s ++ text)%string
    /\ toolCalls s2 = toolCalls s
    /\ agent st2 = agent st /\ env st2 = env st
    /\ Forall (fun e => isCall e = false) ev.
Proof.
  intros Hs Ht Hc. destruct (Js.nonEmpty text) eqn:Ne.
  - rewrite scanDelta_plain by auto.
    do 3 eexists. split; [ reflexivity |]. split; [ reflexivity |].
    split; [ reflexivity |]. split; [ repeat split |].
    split; [ reflexivity |]. split; [ reflexivity |].
    split; [ reflexivity |]. split; [ reflexivity |]. repeat constructor.
  - apply nonEmpty_false in Ne. subst text.
    exists s, st, []. split; [ reflexivity |]. rewrite app_nil_r, app_nil_r_s.
    destruct Hs as [? [? ?]]. repeat split; auto.
Qed.


Lemma textOf_cons (chunk : ChatStreamChunk) (rest : list ChatStreamChunk) :
  textOf (chunk :: rest) = (chunk_content chunk ++ textOf rest)%string.
Proof. unfold textOf. cbn [map]. apply concat_cons_s. Qed.


End PlainStream.

Section PlainReply.

Variable rt : Runtime.


End PlainReply.


(** ** What a [tool_start] chunk shows *)

Lemma lookup_filtered (k : string) (fields : list (string * JsVal)) :
  Val.lookup k (filter (fun p => negb (String.eqb k (fst p))) fields) = JUndefined.
Proof.
  induction fields as [| [k' v] fields IH]; simpl; [ reflexivity |].
  destruct (String.eqb k k') eqn:E; simpl; [ exact IH |].
  now rewrite IH, E.
Qed.

Lemma lookup_filter_other (k k' : string) (fields : list (string * JsVal)) :
  String.eqb k k' = false ->
  Val.lookup k (filter (fun p => negb (String.eqb k' (fst p))) fields)
  = Val.lookup k fields.
Proof.
  intro N. induction fields as [| [k1 v] fields IH]; simpl; [ reflexivity |].
  destruct (String.eqb k' k1) eqn:E; simpl.
  - rewrite IH. apply String.eqb_eq in E. subst k1. rewrite N.
    now destruct (Val.lookup k fields).
  - now rewrite IH.
Qed.

Lemma lookup_setField (k : string) (x : JsVal) (fields : list (string * JsVal)) :
  x <> JUndefined -> Val.lookup k (Val.setField k x fields) = x.
Proof.
  intro N. induction fields as [| [k' v] fields IH]; simpl.
  - rewrite String.eqb_refl. reflexivity.
  - destruct (String.eqb k k') eqn:E; simpl.
    + rewrite lookup_filtered, E. reflexivity.
    + rewrite IH. destruct x; congruence.
Qed.

Lemma lookup_setField_other (k k' : string) (x : JsVal) (fields : list (string * JsVal)) :
  String.eqb k k' = false ->
  Val.lookup k (Val.setField k' x fields) = Val.lookup k fields.
Proof.
  intro N. induction fields as [| [k1 v] fields IH]; simpl.
  - now rewrite N.
  - destruct (String.eqb k' k1) eqn:E; simpl.
    + rewrite lookup_filter_other by exact N.
      apply String.eqb_eq in E. subst k1. now rewrite N.
    + now rewrite IH.
Qed.

Section Announce.

Variable rt : Runtime.

(** X13.  when the context carries a message limit, the parameters shown in the
    [tool_start] chunk of a call to [search_messages], [get_recent_messages]
    or [get_conversation_between] always carry that limit, whatever limit the
    arguments of the model asked for; arguments that are not JSON are shown
    as [undefined]. *)
Theorem tool_start_shows_context_limit (ctx : ToolContext) (tc : ToolCall)
  (limit : Z) (name : string) :
  maxMessagesLimit ctx = Some limit ->
  limit <> 0%Z ->
  tc_name tc = JStr name ->
  In name toolsWithLimit ->
  match JSON_parse rt (if Js.nonEmpty (tc_arguments tc) then tc_arguments tc else "{}") with
  | Some _ =>
      exists fields,
        shownParams rt ctx tc = JObj fields /\ Val.lookup "limit" fields = JNum limit
  | None => shownParams rt ctx tc = JUndefined
  end.
Proof.
  intros L N Hn I. unfold shownParams.
  destruct (JSON_parse rt _) as [params |]; [ | reflexivity ].
  rewrite L, Hn.
  assert (Z : (limit =? 0)%Z = false) by now apply Z.eqb_neq.
  assert (W : existsb (fun n => Val.isStr (JStr name) n) toolsWithLimit = true).
  { apply existsb_exists. exists name. split; [ exact I |]. simpl. apply String.eqb_refl. }
  rewrite Z, W. simpl negb. cbv iota. cbn [andb].
  assert (G : Val.lookup "limit" (Val.setField "limit" (JNum limit) (Val.ownFields params))
              = JNum limit) by (apply lookup_setField; discriminate).
  unfold Val.spread.
  destruct (timeFilter ctx) as [filter |]; [ | eauto ].
  destruct (Val.truthy filter
            && (Val.isStr (JStr name) "search_messages"
                || Val.isStr (JStr name) "get_recent_messages")); [ | eauto ].
  eexists. split; [ reflexivity |]. cbn [Val.ownFields].
  rewrite lookup_setField_other by reflexivity. exact G.
Qed.

Lemma announceCalls_run (ctx : ToolContext) (calls : list ToolCall) (st : St) :
  announceCalls rt ctx calls st
  = (Ok tt,
     {| agent := agent st; env := env st;
        trace := trace st
                 ++ map (fun tc => EvEmit (ChunkToolStart (tc_name tc) (shownParams rt ctx tc)))
                        calls |}).
Proof.
  revert st. induction calls as [| tc calls IH]; intro st.
  - simpl. rewrite app_nil_r. now destruct st.
  - cbn [announceCalls]. rewrite bind_run. cbn [onChunk log]. rewrite IH.
    cbn [agent env trace map]. now rewrite <- app_assoc.
Qed.

(** X14.  a streamed round that ends with tool calls announces every call with
    a [tool_start] chunk before the tools run, runs the tools once with the
    calls as the model gave them, then sends the [tool_result] chunks in the
    order of the calls, and counts one round. *)
Theorem streamed_dispatch_announces_then_runs (tc : ToolCall) (rest : list ToolCall)
  (st : St) :
  let calls := tc :: rest in
  let results := toolRuntime (env st) calls in
  (List.length calls <= List.length results)%nat ->
  exists st',
    dispatchStreamed rt (Some calls) st = (Ok tt, st')
    /\ trace st' =
       trace st
       ++ map (fun c => EvEmit (ChunkToolStart (tc_name c)
                                  (shownParams rt (context (agent st)) c))) calls
       ++ EvToolExec calls results
          :: map (fun p => EvEmit (ChunkToolResult (tc_name (fst p)) (reported (snd p))))
                 (combine calls results)
    /\ toolRounds (agent st') = (toolRounds (agent st) + 1)%Z
    /\ toolsUsed (agent st') = toolsUsed (agent st) ++ map tc_name calls.
Proof.
  intros calls results L. unfold dispatchStreamed. subst calls. cbv iota beta.
  set (calls := tc :: rest) in *.
  rewrite bind_getAgent, bind_run, announceCalls_run.
  match goal with
  | |- context [bind (handleToolCalls rt calls true) _ ?s] =>
      destruct (handleToolCalls_run rt calls true s)
        as [o [s1 [E [Hok [_ [T [_ [Us R]]]]]]]]
  end.
  cbn [env agent trace] in *. fold results in Hok, T, Us.
  assert (O : o = Ok tt) by now apply Hok. subst o.
  rewrite bind_run, E. cbn [incrementToolRounds setAgent].
  eexists. split; [ reflexivity |]. cbn [agent trace withToolRounds toolRounds toolsUsed].
  rewrite T, Us, R, <- app_assoc. rewrite firstn_all2 by lia.
  unfold resultChunks. auto.
Qed.

End Announce.

Lemma tool_start_shows_context_limit_witness :
  exists fields,
    shownParams nodeRuntime {| maxMessagesLimit := Some 50%Z; timeFilter := None |}
      {| tc_id := "a"; tc_name := JStr "get_recent_messages";
         tc_arguments := dq "{'limit': 9000, 'keyword': 'trip'}" |}
    = JObj fields
    /\ Val.lookup "limit" fields = JNum 50.
Proof.
  exact (@tool_start_shows_context_limit nodeRuntime
           {| maxMessagesLimit := Some 50%Z; timeFilter := None |}
           {| tc_id := "a"; tc_name := JStr "get_recent_messages";
              tc_arguments := dq "{'limit': 9000, 'keyword': 'trip'}" |}
           50%Z "get_recent_messages" eq_refl ltac:(discriminate) eq_refl
           ltac:(simpl; auto)).
Defined.

Lemma streamed_dispatch_announces_then_runs_witness :
  exists st',
    dispatchStreamed nodeRuntime
      (Some [{| tc_id := "a"; tc_name := JStr "search_messages"; tc_arguments := "{}" |};
             {| tc_id := "b"; tc_name := JStr "get_recent_messages"; tc_arguments := "" |}])
      (freshState None quietEnv) = (Ok tt, st')
    /\ List.length (trace st') = 5%nat
    /\ toolRounds (agent st') = 1%Z.
Proof.
  destruct (@streamed_dispatch_announces_then_runs nodeRuntime
              {| tc_id := "a"; tc_name := JStr "search_messages"; tc_arguments := "{}" |}
              [{| tc_id := "b"; tc_name := JStr "get_recent_messages"; tc_arguments := "" |}]
              (freshState None quietEnv))
    as [st' [E [T [R _]]]].
  - simpl. lia.
  - exists st'. split; [ exact E |]. split; [ rewrite T; reflexivity | exact R ].
Defined.

(** ** A reply that ends without an answer *)

Lemma env_abort_nil (e : Env) :
  abortScript e = [] -> withAbortScript (tl (abortScript e)) e = e.
Proof. destruct e; simpl; intros ->; reflexivity. Qed.

Lemma isAborted_never (held : string) (st : St) :
  abortScript (env st) = [] ->
  isAborted held st
  = (Ok false,
     {| agent := agent st; env := env st;
        trace := trace st ++ [EvAbortCheck false held] |}).
Proof.
  intro H. rewrite isAborted_run. unfold afterAbortCheck, nextAbort.
  rewrite (env_abort_nil _ H), H. reflexivity.
Qed.

Lemma sameButUsage_refl (a : Agent) : sameButUsage a a.
Proof. unfold sameButUsage. now destruct a. Qed.

Lemma sameButUsage_trans (a b c : Agent) :
  sameButUsage a b -> sameButUsage b c -> sameButUsage a c.
Proof. unfold sameButUsage. intros H1 H2. rewrite H2, H1 at 1. reflexivity. Qed.

Section Unfinished.

Variable rt : Runtime.

Lemma consumeDeltas_unfinished (chunks : list ChatStreamChunk) :
  forall (s : Scan) (st : St),
    settled s ->
    abortScript (env st) = [] ->
    Forall (fun c => chunk_isFinished c = false /\ chunk_tool_calls c = None) chunks ->
    Js.testCI "<think>" (accumulatedContent s ++ textOf chunks) = false ->
    Js.testCI "<tool_call>" (accumulatedContent s ++ textOf chunks) = false ->
    exists s' st' events,
      consumeDeltas rt chunks s st = (Ok (Continue s'), st')
      /\ toolCalls s' = toolCalls s
      /\ env st' = env st
      /\ sameButUsage (agent st) (agent st')
      /\ trace st' = trace st ++ events
      /\ String.concat "" (forwarded events) = textOf chunks
      /\ filter isStreamOpen events = [].
Proof.
  induction chunks as [| chunk rest IH]; intros s st Hs Ha Hf Ht Hc.
  - exists s, st, []. rewrite app_nil_r. repeat split; auto. apply sameButUsage_refl.
  - rewrite textOf_cons in Ht, Hc. rewrite <- app_assoc_s in Ht, Hc.
    inversion Hf as [| c l [Fin Tc] Hf' ]; subst c l.
    cbn [consumeDeltas]. rewrite bind_run. cbn [log].
    rewrite bind_run, isAborted_never by exact Ha. cbn [env agent trace]. cbv iota.
    match goal with
    | |- context [bind _ _ ?s0] =>
        destruct (@scan_step_plain (chunk_content chunk) s s0 Hs
                    (@testCI_prefix _ _ _ Ht) (@testCI_prefix _ _ _ Hc))
          as [s2 [st2 [ev2 [E2 [T2 [X2 [Hs2 [A2 [C2 [G2 [V2 Q2]]]]]]]]]]]
    end.
    rewrite bind_run, E2. cbv iota beta.
    unfold settleDelta. rewrite Tc, Fin. cbv zeta iota.
    rewrite !bind_run.
    destruct (addUsage (chunk_usage chunk) st2) as [o1 st3] eqn:E1.
    assert (F1 : o1 = Ok tt /\ env st3 = env st2 /\ sameButUsage (agent st2) (agent st3)
                 /\ exists ev, trace st3 = trace st2 ++ ev /\ forwarded ev = []
                               /\ filter isStreamOpen ev = []).
    { destruct (chunk_usage chunk); cbn in E1; inversion E1; subst.
      - split; auto. split; auto. split; [ unfold sameButUsage; now destruct (agent st2) |].
        eexists [_]. repeat split.
      - split; auto. split; auto. split; [ apply sameButUsage_refl |].
        exists []. now rewrite app_nil_r. }
    destruct F1 as [-> [V3 [G3 [ev3 [T3 [X3 Q3]]]]]].
    cbn [env agent trace] in *.
    rewrite <- A2 in Ht, Hc.
    assert (Ha3 : abortScript (env st3) = []) by now rewrite V3, V2.
    destruct (IH s2 st3 Hs2 Ha3 Hf' Ht Hc)
      as [s' [st' [ev [E [C' [V' [G' [T' [X' Q']]]]]]]]].
    exists s', st', ([EvDelta chunk; EvAbortCheck false (accumulatedContent s)]
                     ++ ev2 ++ ev3 ++ ev).
    split; [ exact E |]. split; [ now rewrite C', C2 |].
    split; [ now rewrite V', V3, V2 |].
    split.
    { rewrite G2 in G3. eapply sameButUsage_trans; eauto. }
    split.
    { rewrite T', T3, T2. cbn [trace]. rewrite <- !app_assoc. reflexivity. }
    split.
    { rewrite !forwarded_app, !concat_app_s, X3, X', X2, textOf_cons. reflexivity. }
    rewrite !filter_app, Q3, Q'. cbn [filter isStreamOpen app].
    rewrite (@filter_none_of isStreamOpen isCall ev2); auto.
    intros e0; destruct e0; simpl; auto.
Qed.

(** X15.  in [executeStream] a reply that ends without a finishing delta and
    without tool calls is not taken as an answer.  Its text has been
    forwarded to the consumer, but the round is not counted and nothing is
    written to the transcript: the loop opens another stream with the same
    transcript, so the round budget does not bound the number of streams. *)
Theorem unfinished_reply_is_asked_again (fuel : nat) (tools : list ToolDefinition)
  (st : St) (reply : StreamScript) (rest : list StreamScript) :
  (toolRounds (agent st) < roundBudget (agent st))%Z ->
  abortScript (env st) = [] ->
  streamScript (env st) = reply :: rest ->
  fails reply = false ->
  Forall (fun c => chunk_isFinished c = false /\ chunk_tool_calls c = None)
         (deltas reply) ->
  Js.testCI "<think>" (textOf (deltas reply)) = false ->
  Js.testCI "<tool_call>" (textOf (deltas reply)) = false ->
  exists st1 events,
    streamRounds rt (S fuel) tools st = streamRounds rt fuel tools st1
    /\ trace st1 = trace st ++ events
    /\ filter isStreamOpen events = [EvStreamOpen (messages (agent st)) true]
    /\ String.concat "" (forwarded events) = textOf (deltas reply)
    /\ messages (agent st1) = messages (agent st)
    /\ toolRounds (agent st1) = toolRounds (agent st)
    /\ toolsUsed (agent st1) = toolsUsed (agent st)
    /\ streamScript (env st1) = rest.
Proof.
  intros Hb Ha Hs Hf Hd Ht Hc.
  cbn [streamRounds]. rewrite bind_getAgent.
  apply Z.ltb_lt in Hb. rewrite Hb.
  rewrite bind_run, isAborted_never by exact Ha. cbv iota.
  rewrite bind_getAgent, bind_run, chatStream_run. cbn [agent env trace].
  unfold nextStream. cbn [env]. rewrite Hs. cbn [tl].
  match goal with
  | |- context [bind (consumeDeltas rt (deltas reply) scanStart) _ ?s0] =>
      destruct (@consumeDeltas_unfinished (deltas reply) scanStart s0)
        as [s' [st' [ev [E [C' [V' [G' [T' [X' Q']]]]]]]]]; auto
  end.
  { repeat split. }
  rewrite bind_run, E. cbv iota beta. rewrite Hf. rewrite bind_ret.
  rewrite C'. cbn [toolCalls scanStart dispatchStreamed]. rewrite bind_ret.
  unfold afterStream in *. cbn [agent env trace] in *.
  exists st', ([EvAbortCheck false ""; EvStreamOpen (messages (agent st)) true] ++ ev).
  split; [ reflexivity |].
  split; [ rewrite T', <- !app_assoc; reflexivity |].
  split.
  { cbn [app filter isStreamOpen]. now rewrite Q'. }
  split.
  { rewrite forwarded_app. cbn [forwarded flat_map app]. exact X'. }
  unfold sameButUsage in G'. rewrite G', V', Hs. auto.
Qed.

End Unfinished.

Lemma unfinished_reply_is_asked_again_witness :
  let st := freshState (Some 1%Z)
              (withStreamScript [streamed [delta "Let me "; delta "look."];
                                 streamed [delta "Nine."; stopDelta None]] quietEnv) in
  exists st1 events,
    streamRounds nodeRuntime 2 [] st = streamRounds nodeRuntime 1 [] st1
    /\ trace st1 = trace st ++ events
    /\ filter isStreamOpen events = [EvStreamOpen (messages (agent st)) true]
    /\ String.concat "" (forwarded events) = "Let me look."
    /\ messages (agent st1) = messages (agent st)
    /\ toolRounds (agent st1) = toolRounds (agent st)
    /\ toolsUsed (agent st1) = toolsUsed (agent st)
    /\ streamScript (env st1) = [streamed [delta "Nine."; stopDelta None]].
Proof.
  intro st.
  apply (@unfinished_reply_is_asked_again nodeRuntime 1 [] st
           (streamed [delta "Let me "; delta "look."])
           [streamed [delta "Nine."; stopDelta None]]);
    try reflexivity.
  repeat constructor.
Defined.

(** ** The calls of a streamed execution *)

#[export] Instance Offline_Frame : Frame Offline.
Proof.
  split.
  - intro st. split; auto. exists []. now rewrite app_nil_r.
  - intros a b c [[e1 [T1 F1]] C1 R1] [[e2 [T2 F2]] C2 R2]. split; try congruence.
    exists (e1 ++ e2). split; [ now rewrite T2, T1, app_assoc | now apply Forall_app ].
Qed.

Lemma Internal_Offline (st st' : St) : Internal st st' -> Offline st st'.
Proof.
  intros [[ev [T F]] C R]. split; auto. exists ev. split; auto.
  eapply Forall_impl; [ | exact F ]. intros e H. destruct e; simpl in *; auto; discriminate.
Qed.

Lemma offline_of_internal {A} (m : M A) : preserves Internal m -> preserves Offline m.
Proof. intros H st. apply Internal_Offline, H. Qed.

Lemma offline_logDelta (c : ChatStreamChunk) : preserves Offline (log (EvDelta c)).
Proof. intro st. split; simpl; auto. exists [EvDelta c]. split; auto. Qed.

Lemma offline_chatStream (sent : list ChatMessage) (withTools : bool) :
  preserves Offline (chatStream sent withTools).
Proof.
  intro st. rewrite chatStream_run. split; simpl; auto.
  exists [EvStreamOpen sent withTools]. split; auto.
Qed.

#[export] Hint Resolve offline_of_internal offline_logDelta offline_chatStream : frame.

Lemma Offline_Spent (a b : St) : Offline a b -> Spent 0 0 a b.
Proof.
  intros [[e [T F]] _ _]. exists e. unfold chatCalls, toolRuns.
  assert (Fc : filter isChat e = []).
  { clear T. induction F as [| x l [Hc _] _ IH]; simpl; [ reflexivity | now rewrite Hc ]. }
  assert (Ft : filter isToolRun e = []).
  { clear T Fc. induction F as [| x l [_ Ht] _ IH]; simpl; [ reflexivity | now rewrite Ht ]. }
  rewrite Fc, Ft. auto.
Qed.

Lemma Spent_offline (c t : nat) (a b d : St) :
  Spent c t a b -> Offline b d -> Spent c t a d.
Proof.
  intros P L. apply Offline_Spent in L. pose proof (Spent_trans P L) as Q.
  now rewrite !Nat.add_0_r in Q.
Qed.

(** One stretch of a run that makes no blocking model call and runs no tool. *)
Ltac idle E P :=
  lazymatch type of E with
  | ?m ?cur = (_, ?new) =>
      let L := fresh "L" in
      assert (L : Offline cur new) by
        (let X := fresh in
         assert (X : preserves Offline m) by (solve [frame]);
         specialize (X cur); rewrite E in X; exact X);
      let C := fresh "C" in
      let R := fresh "R" in
      pose proof (o_config L) as C; pose proof (o_rounds L) as R;
      apply (Spent_offline P) in L; clear P; rename L into P
  end.

Section StreamBudget.

Variable rt : Runtime.

Lemma internal_parseToolCallTags (text : string) :
  preserves Internal (parseToolCallTags rt text).
Proof. unfold parseToolCallTags. pose proof (internal_parseBlocks rt). frame. Qed.

Lemma internal_forwardBefore (start : Z) (s : Scan) : preserves Internal (forwardBefore start s).
Proof. unfold forwardBefore. frame. Qed.

Lemma internal_scanDelta (text : string) (s : Scan) : preserves Internal (scanDelta text s).
Proof.
  unfold scanDelta, scanThinkOpen, scanToolCall.
  pose proof internal_forwardBefore. frame.
Qed.

Lemma internal_finishDelta (chunk : ChatStreamChunk) (s : Scan) :
  preserves Internal (finishDelta rt chunk s).
Proof. unfold finishDelta. pose proof internal_parseToolCallTags. frame. Qed.

Lemma internal_settleDelta (chunk : ChatStreamChunk) (s : Scan) :
  preserves Internal (settleDelta rt chunk s).
Proof. unfold settleDelta. pose proof internal_finishDelta. frame. Qed.

Lemma offline_consumeDeltas (chunks : list ChatStreamChunk) (s : Scan) :
  preserves Offline (consumeDeltas rt chunks s).
Proof.
  pose proof internal_scanDelta. pose proof internal_settleDelta.
  revert s. induction chunks as [| c chunks IH]; intro s; simpl; frame.
Qed.

Lemma offline_consumeFinal (chunks : list ChatStreamChunk) (text : string) :
  preserves Offline (consumeFinal chunks text).
Proof.
  revert text. induction chunks as [| c chunks IH]; intro text; simpl; frame.
Qed.

Lemma offline_forcedStream : preserves Offline forcedStream.
Proof. unfold forcedStream. pose proof offline_consumeFinal. frame. Qed.

Lemma dispatch_some (tc : ToolCall) (rest : list ToolCall) (st st' : St)
  (o : Outcome unit) :
  dispatchStreamed rt (Some (tc :: rest)) st = (o, st') ->
  Spent 0 1 st st'
  /\ config (agent st') = config (agent st)
  /\ (o = Ok tt -> toolRounds (agent st') = (toolRounds (agent st) + 1)%Z).
Proof.
  unfold dispatchStreamed. rewrite bind_getAgent, bind_run, announceCalls_run.
  set (calls := tc :: rest).
  set (st1 := {| agent := agent st; env := env st;
                 trace := trace st
                          ++ map (fun c => EvEmit (ChunkToolStart (tc_name c)
                                                     (shownParams rt (context (agent st)) c)))
                                 calls |}).
  assert (P1 : Spent 0 0 st st1).
  { apply Internal_Spent. split; auto. eexists. split; [ reflexivity |].
    apply Forall_forall. intros e H. apply in_map_iff in H. destruct H as [c [<- _]].
    reflexivity. }
  intro H. rewrite bind_run in H.
  pose proof (Spent_handleToolCalls rt calls true st1) as P2.
  pose proof (quiet_handleToolCalls rt calls true st1) as Q2.
  destruct (handleToolCalls rt calls true st1) as [[[] | e |] st2] eqn:E;
    simpl in P2, Q2; destruct Q2 as [_ C2 R2 _ _];
    pose proof (Spent_trans P1 P2) as P; simpl Nat.add in P.
  - cbn in H. inversion H; subst. simpl. repeat split; auto. intros _. now rewrite R2.
  - inversion H; subst. repeat split; auto. discriminate.
  - inversion H; subst. repeat split; auto. discriminate.
Qed.

Lemma streamRounds_spent (fuel : nat) :
  forall (tools : list ToolDefinition) (st st' : St) (o : Outcome (Flow unit AgentResult)),
    streamRounds rt fuel tools st = (o, st') ->
    Spent 0 (roundsLeft st) st st'.
Proof.
  pose proof offline_consumeDeltas as OC.
  induction fuel as [| fuel IH]; intros tools st st' o H.
  { inversion H; subst. eapply Spent_weaken; [ apply Spent_refl | lia | lia ]. }
  cbn [streamRounds] in H. rewrite bind_getAgent in H.
  destruct (toolRounds (agent st) <? roundBudget (agent st))%Z eqn:G.
  2: { inversion H; subst. eapply Spent_weaken; [ apply Spent_refl | lia | lia ]. }
  apply Z.ltb_lt in G.
  assert (K : (1 <= roundsLeft st)%nat) by (unfold roundsLeft; lia).
  assert (Hend : forall (x : Outcome (Flow unit AgentResult)) cur,
            Spent 0 0 st cur -> (x, cur) = (o, st') -> Spent 0 (roundsLeft st) st st').
  { intros x cur Pc Hc. inversion Hc; subst.
    eapply Spent_weaken; [ exact Pc | lia | lia ]. }
  rewrite bind_isAborted in H.
  assert (P : Spent 0 0 st (afterAbortCheck "" st)) by (eexists [_]; simpl; auto).
  assert (C0 : config (agent (afterAbortCheck "" st)) = config (agent st)) by reflexivity.
  assert (R0 : toolRounds (agent (afterAbortCheck "" st)) = toolRounds (agent st))
    by reflexivity.
  set (st1 := afterAbortCheck "" st) in *.
  destruct (nextAbort st).
  { idle H P. eapply Spent_weaken; [ exact P | lia | lia ]. }
  rewrite bind_getAgent, bind_run, chatStream_run in H.
  assert (P1 : Spent 0 0 st (afterStream (messages (agent st1)) true st1)).
  { eapply Spent_offline; [ exact P |].
    apply (offline_chatStream (messages (agent st1)) true st1). }
  clear P.
  assert (C1 : config (agent (afterStream (messages (agent st1)) true st1))
               = config (agent st)) by exact C0.
  assert (R1 : toolRounds (agent (afterStream (messages (agent st1)) true st1))
               = toolRounds (agent st)) by exact R0.
  set (st2 := afterStream (messages (agent st1)) true st1) in *.
  bind_in H as consumed st3 E2; idle E2 P1; eauto.
  destruct consumed as [s | r]; [ | eauto ].
  destruct (fails (nextStream st1)); [ cbn in H; eauto |].
  rewrite bind_ret in H.
  assert (N : roundsLeft st3 = roundsLeft st).
  { unfold roundsLeft, roundBudget. now rewrite C, C1, R, R1. }
  destruct (toolCalls s) as [[| tc rest] |].
  - cbn [dispatchStreamed] in H. rewrite bind_ret in H. apply IH in H.
    rewrite N in H. pose proof (Spent_trans P1 H) as Q. exact Q.
  - rewrite bind_run in H.
    destruct (dispatchStreamed rt (Some (tc :: rest)) st3) as [o4 st4] eqn:E4.
    apply dispatch_some in E4. destruct E4 as [P4 [C4 R4]].
    pose proof (Spent_trans P1 P4) as P5. simpl Nat.add in P5.
    destruct o4 as [[] | e |].
    + apply IH in H. specialize (R4 eq_refl).
      assert (N4 : roundsLeft st4 = (roundsLeft st - 1)%nat).
      { unfold roundsLeft, roundBudget in *. rewrite C4, R4, C, C1, R, R1. lia. }
      rewrite N4 in H. pose proof (Spent_trans P5 H) as Q.
      eapply Spent_weaken; [ exact Q | lia | lia ].
    + inversion H; subst. eapply Spent_weaken; [ exact P5 | lia | lia ].
    + inversion H; subst. eapply Spent_weaken; [ exact P5 | lia | lia ].
  - cbn [dispatchStreamed] in H. rewrite bind_ret in H. apply IH in H.
    rewrite N in H. pose proof (Spent_trans P1 H) as Q. exact Q.
Qed.

Lemma executeStream_spent (userMessage : string) (st : St) :
  Spent 1 (Z.to_nat (Z.max 0 (roundBudget (agent st))) + 1)
        st (snd (executeStream rt userMessage st)).
Proof.
  pose proof offline_forcedStream as OF.
  set (b := Z.to_nat (Z.max 0 (roundBudget (agent st)))).
  unfold executeStream. rewrite bind_isAborted.
  assert (P0 : Spent 0 0 st (afterAbortCheck "" st)) by (eexists [_]; simpl; auto).
  destruct (nextAbort st).
  { destruct ((emitDone ;; abortedAtEntry) (afterAbortCheck "" st)) as [o1 st1] eqn:E1.
    assert (X : preserves Offline (emitDone ;; abortedAtEntry))
      by (unfold abortedAtEntry; frame).
    specialize (X (afterAbortCheck "" st)). rewrite E1 in X.
    apply (Spent_offline P0) in X. simpl.
    eapply Spent_weaken; [ exact X | lia | lia ]. }
  set (st0 := afterAbortCheck "" st) in *.
  rewrite bind_run.
  pose proof (prepareTurn_spent rt userMessage true st0) as P1.
  destruct (prepareTurn rt userMessage true st0) as [[tools | e |] st1] eqn:E1;
    simpl in P1; pose proof (Spent_trans P0 P1) as P2; simpl Nat.add in P2;
    try (simpl; eapply Spent_weaken; [ exact P2 | lia | lia ]).
  apply prepareTurn_rounds in E1. destruct E1 as [C1 [R1 _]].
  rewrite bind_getEnv, bind_run.
  destruct (streamRounds rt (S (List.length (streamScript (env st1)))) tools st1)
    as [[flow | e |] st2] eqn:E2;
    pose proof (@streamRounds_spent _ _ _ _ _ E2) as P3;
    assert (N : roundsLeft st1 = b)
      by (unfold roundsLeft, b, roundBudget; rewrite C1, R1; simpl; lia);
    rewrite N in P3; pose proof (Spent_trans P2 P3) as P4;
    try (simpl; eapply Spent_weaken; [ exact P4 | lia | lia ]).
  destruct flow as [[] | r].
  - destruct (forcedStream st2) as [o3 st3] eqn:E3. idle E3 P4. simpl.
    eapply Spent_weaken; [ exact P4 | lia | lia ].
  - simpl. eapply Spent_weaken; [ exact P4 | lia | lia ].
Qed.

(** X16.  in one [executeStream] the tool runtime is called at most [b + 1]
    times, [b] being the round budget (0 when it is negative), and the
    blocking model call at most once, for the rewrite of the pipeline; the
    streams the execution opens are not bounded by the budget. *)
Theorem executeStream_tool_budget (userMessage : string) (st : St) :
  exists events,
    trace (snd (executeStream rt userMessage st)) = trace st ++ events
    /\ (chatCalls events <= 1)%nat
    /\ (toolRuns events <= Z.to_nat (Z.max 0 (roundBudget (agent st))) + 1)%nat.
Proof. exact (executeStream_spent userMessage st). Qed.

End StreamBudget.

(** ** The head of the transcript *)

#[export] Instance Keeps_Frame : Frame Keeps.
Proof.
  split.
  - intros st head u _ H. exact H.
  - intros a b c H1 H2 head u Hu H. apply H2; auto.
Qed.

Lemma Keeps_still (st st' : St) :
  messages (agent st') = messages (agent st) -> Keeps st st'.
Proof. intros E head u _ [tail [M I]]. exists tail. now rewrite E. Qed.

Lemma keeps_isAborted (held : string) : preserves Keeps (isAborted held).
Proof. intro st. now apply Keeps_still. Qed.

Lemma keeps_chat (sent : list ChatMessage) (withTools : bool) :
  preserves Keeps (chat sent withTools).
Proof. intro st. rewrite chat_run. now apply Keeps_still. Qed.

Lemma keeps_chatStream (sent : list ChatMessage) (withTools : bool) :
  preserves Keeps (chatStream sent withTools).
Proof. intro st. now apply Keeps_still. Qed.

Lemma keeps_addUsage (u : option TokenUsage) : preserves Keeps (addUsage u).
Proof. intro st. apply Keeps_still. now destruct u. Qed.

Lemma keeps_log (e : Event) : preserves Keeps (log e).
Proof. intro st. now apply Keeps_still. Qed.

Lemma keeps_onChunk (c : AgentStreamChunk) : preserves Keeps (onChunk c).
Proof. intro st. now apply Keeps_still. Qed.

Lemma keeps_onChunkIf (b : bool) (c : AgentStreamChunk) : preserves Keeps (onChunkIf b c).
Proof. intro st. apply Keeps_still. now destruct b. Qed.

Lemma keeps_executeToolCalls (calls : list ToolCall) :
  preserves Keeps (executeToolCalls calls).
Proof. intro st. now apply Keeps_still. Qed.

Lemma keeps_getAllToolDefinitions : preserves Keeps getAllToolDefinitions.
Proof. unfold getAllToolDefinitions. frame. Qed.

Lemma keeps_freshUUID (rt : Runtime) : preserves Keeps (freshUUID rt).
Proof. intro st. now apply Keeps_still. Qed.

Lemma keeps_pushToolUsed (n : JsVal) : preserves Keeps (pushToolUsed n).
Proof. intro st. now apply Keeps_still. Qed.

Lemma keeps_incrementToolRounds : preserves Keeps incrementToolRounds.
Proof. intro st. now apply Keeps_still. Qed.

Lemma keeps_pushMessage (m : ChatMessage) : preserves Keeps (pushMessage m).
Proof.
  intros st head u _ [tail [M I]]. exists (tail ++ [m]). simpl. rewrite M, app_assoc.
  split; [ reflexivity | apply in_or_app; now left ].
Qed.

#[export] Hint Resolve keeps_isAborted keeps_chat keeps_chatStream keeps_addUsage keeps_log
  keeps_onChunk keeps_onChunkIf keeps_executeToolCalls keeps_getAllToolDefinitions
  keeps_freshUUID keeps_pushToolUsed keeps_incrementToolRounds keeps_pushMessage : frame.

Lemma keeps_emitDone : preserves Keeps emitDone.
Proof. unfold emitDone. frame. Qed.

Lemma keeps_resultWith (text : string) : preserves Keeps (resultWith text).
Proof. unfold resultWith. frame. Qed.

Lemma keeps_getEmbeddingModel : preserves Keeps getEmbeddingModel.
Proof. unfold getEmbeddingModel. frame. Qed.

(** The evidence of the pipeline goes before the last user message, which
    lies after the head. *)
Lemma keeps_insertEvidence (ev : ChatMessage) :
  preserves Keeps
    (setAgent (fun a => withMessages (insertEvidence (messages a) ev) a)).
Proof.
  intros st head u Hu [tail [M I]]. simpl. rewrite M.
  destruct (last_user_split tail) as [F | [before [x [after [E [Hx Fa]]]]]].
  - exfalso. rewrite Forall_forall in F. specialize (F u I). congruence.
  - subst tail. rewrite app_assoc, insertEvidence_last_user by assumption.
    exists (before ++ ev :: x :: after). rewrite <- app_assoc. split; [ reflexivity |].
    apply in_app_or in I. apply in_or_app.
    destruct I as [I | I]; [ now left | right; now right ].
Qed.

(** The evidence of the legacy retrieval goes before the last message. *)
Lemma keeps_spliceBeforeLast (ev : ChatMessage) :
  preserves Keeps
    (setAgent (fun a =>
       withMessages (spliceIn (messages a) (Z.of_nat (List.length (messages a)) - 1) ev) a)).
Proof.
  intros st head u Hu [tail [M I]]. simpl. rewrite M.
  destruct (exists_last (l := tail)) as [front [x E]];
    [ intro N; subst tail; destruct I |].
  subst tail. rewrite app_assoc.
  replace (Z.of_nat (List.length ((head ++ front) ++ [x])) - 1)%Z
    with (Z.of_nat (List.length (head ++ front)))
    by (rewrite (length_app (head ++ front)); simpl; lia).
  rewrite spliceIn_at. exists (front ++ [ev; x]). rewrite <- app_assoc.
  split; [ reflexivity |].
  apply in_app_or in I. apply in_or_app.
  destruct I as [I | [I | []]]; [ now left | right; right; now left ].
Qed.

#[export] Hint Resolve keeps_emitDone keeps_resultWith keeps_getEmbeddingModel
  keeps_insertEvidence keeps_spliceBeforeLast : frame.

Section KeepsCode.

Variable rt : Runtime.

Lemma keeps_parseBlocks (blocks : list string) : preserves Keeps (parseBlocks rt blocks).
Proof. induction blocks as [| b blocks IH]; simpl; frame. Qed.

Lemma keeps_parseToolCallTags (text : string) :
  preserves Keeps (parseToolCallTags rt text).
Proof. unfold parseToolCallTags. pose proof keeps_parseBlocks. frame. Qed.

Lemma keeps_callsOrAnswer (response : ChatResponse) :
  preserves Keeps (callsOrAnswer rt response).
Proof. unfold callsOrAnswer. pose proof keeps_parseToolCallTags. frame. Qed.

Lemma keeps_recordResults (streaming : bool) (calls : list ToolCall)
  (results : list ToolResult) :
  preserves Keeps (recordResults rt streaming calls results).
Proof.
  revert results. induction calls as [| tc calls IH]; intro results; simpl; frame.
Qed.

Lemma keeps_handleToolCalls (calls : list ToolCall) (streaming : bool) :
  preserves Keeps (handleToolCalls rt calls streaming).
Proof. unfold handleToolCalls. pose proof keeps_recordResults. frame. Qed.

Lemma keeps_rewritePlan (userMessage : string) :
  preserves Keeps (rewritePlan rt userMessage).
Proof. unfold rewritePlan. frame. Qed.

Lemma keeps_runSemanticPipeline (userMessage : string) (tools : list ToolDefinition)
  (streaming : bool) :
  preserves Keeps (runSemanticPipeline rt userMessage tools streaming).
Proof.
  unfold runSemanticPipeline, forcedSearch. pose proof keeps_rewritePlan. frame.
Qed.

Lemma keeps_runAutoSemanticSearch (userMessage : string) :
  preserves Keeps (runAutoSemanticSearch rt userMessage).
Proof. unfold runAutoSemanticSearch. frame. Qed.

Lemma keeps_autoSemanticStep (userMessage : string) (ran : bool) :
  preserves Keeps (autoSemanticStep rt userMessage ran).
Proof. unfold autoSemanticStep. pose proof keeps_runAutoSemanticSearch. frame. Qed.

Lemma keeps_executeRounds (fuel : nat) (tools : list ToolDefinition) :
  preserves Keeps (executeRounds rt fuel tools).
Proof.
  pose proof keeps_callsOrAnswer. pose proof keeps_handleToolCalls.
  induction fuel as [| fuel IH]; simpl; frame.
Qed.

Lemma keeps_forcedAnswer : preserves Keeps forcedAnswer.
Proof. unfold forcedAnswer. frame. Qed.

Lemma keeps_forwardBefore (start : Z) (s : Scan) : preserves Keeps (forwardBefore start s).
Proof. unfold forwardBefore. frame. Qed.

Lemma keeps_scanDelta (text : string) (s : Scan) : preserves Keeps (scanDelta text s).
Proof.
  unfold scanDelta, scanThinkOpen, scanToolCall. pose proof keeps_forwardBefore. frame.
Qed.

Lemma keeps_settleDelta (chunk : ChatStreamChunk) (s : Scan) :
  preserves Keeps (settleDelta rt chunk s).
Proof. unfold settleDelta, finishDelta. pose proof keeps_parseToolCallTags. frame. Qed.

Lemma keeps_consumeDeltas (chunks : list ChatStreamChunk) (s : Scan) :
  preserves Keeps (consumeDeltas rt chunks s).
Proof.
  pose proof keeps_scanDelta. pose proof keeps_settleDelta.
  revert s. induction chunks as [| c chunks IH]; intro s; simpl; frame.
Qed.

Lemma keeps_announceCalls (ctx : ToolContext) (calls : list ToolCall) :
  preserves Keeps (announceCalls rt ctx calls).
Proof. induction calls as [| tc calls IH]; simpl; frame. Qed.

Lemma keeps_dispatchStreamed (found : option (list ToolCall)) :
  preserves Keeps (dispatchStreamed rt found).
Proof.
  unfold dispatchStreamed. pose proof keeps_announceCalls. pose proof keeps_handleToolCalls.
  frame.
Qed.

Lemma keeps_streamRounds (fuel : nat) (tools : list ToolDefinition) :
  preserves Keeps (streamRounds rt fuel tools).
Proof.
  pose proof keeps_consumeDeltas. pose proof keeps_dispatchStreamed.
  induction fuel as [| fuel IH]; simpl; frame.
Qed.

Lemma keeps_consumeFinal (chunks : list ChatStreamChunk) (text : string) :
  preserves Keeps (consumeFinal chunks text).
Proof.
  revert text. induction chunks as [| c chunks IH]; intro text; simpl; frame.
Qed.

Lemma keeps_forcedStream : preserves Keeps forcedStream.
Proof. unfold forcedStream. pose proof keeps_consumeFinal. frame. Qed.

(** After the reset of the turn, the rest of an execution. *)
Lemma keeps_afterReset (userMessage : string) (streaming : bool) :
  preserves Keeps
    (tools <- (tools <- getAllToolDefinitions ;;
               ranPipeline <- runSemanticPipeline rt userMessage tools streaming ;;
               autoSemanticStep rt userMessage ranPipeline ;;
               ret tools) ;;
     e <- getEnv ;;
     if streaming then
       flow <- streamRounds rt (S (List.length (streamScript e))) tools ;;
       match flow with
       | Return r => ret r
       | Continue _ => forcedStream
       end
     else
       flow <- executeRounds rt (S (List.length (chatScript e))) tools ;;
       match flow with
       | Return r => ret r
       | Continue _ => forcedAnswer
       end).
Proof.
  pose proof keeps_runSemanticPipeline. pose proof keeps_autoSemanticStep.
  pose proof keeps_streamRounds. pose proof keeps_executeRounds.
  pose proof keeps_forcedStream. pose proof keeps_forcedAnswer.
  frame.
Qed.

(** X17.  an execution that is not cancelled at its entry keeps the head of the
    transcript: whatever the model and the tools answer and however the
    execution ends, the transcript starts with the system prompt followed by
    the history the agent was built with, unchanged and in order, and the
    user's message comes after them.  The evidence of the pipeline and of the
    legacy retrieval is inserted after the history, never into it. *)
Theorem transcript_keeps_prompt_and_history (userMessage : string) (streaming : bool)
  (st : St) :
  nextAbort st = false ->
  let st' := snd ((if streaming then executeStream rt userMessage
                   else execute rt userMessage) st) in
  exists tail,
    messages (agent st')
    = plainMessage system (systemPrompt (env st)) :: historyMessages (agent st) ++ tail
    /\ In (plainMessage user userMessage) tail.
Proof.
  intros Na st'.
  assert (K : headed (plainMessage system (systemPrompt (env st))
                      :: historyMessages (agent st))
                     (plainMessage user userMessage) st').
  { pose proof (@keeps_afterReset userMessage streaming
                  (afterReset userMessage (afterAbortCheck "" st))) as K.
    assert (E : st' = snd
                  ((tools <- (tools <- getAllToolDefinitions ;;
                              ranPipeline <- runSemanticPipeline rt userMessage tools
                                               streaming ;;
                              autoSemanticStep rt userMessage ranPipeline ;;
                              ret tools) ;;
                    e <- getEnv ;;
                    if streaming then
                      flow <- streamRounds rt (S (List.length (streamScript e))) tools ;;
                      match flow with
                      | Return r => ret r
                      | Continue _ => forcedStream
                      end
                    else
                      flow <- executeRounds rt (S (List.length (chatScript e))) tools ;;
                      match flow with
                      | Return r => ret r
                      | Continue _ => forcedAnswer
                      end)
                     (afterReset userMessage (afterAbortCheck "" st)))).
    { subst st'. destruct streaming; unfold executeStream, execute, prepareTurn;
        rewrite bind_isAborted, Na; rewrite !bind_run, resetForTurn_run;
        rewrite !bind_run; reflexivity. }
    rewrite E. apply K; [ reflexivity |].
    exists [plainMessage user userMessage]. split; [ reflexivity | now left ]. }
  destruct K as [tail [M I]]. exists tail. split; [ exact M | exact I ].
Qed.

End KeepsCode.

Lemma transcript_keeps_prompt_and_history_witness :
  let history := [plainMessage user "When is the trip?"; plainMessage assistant "In May."] in
  let st := {| agent := newAgent noContext {| maxToolRounds := None |} history;
               env := withChatScript
                        [Some (answer (dq "{'query':'trip plans','top_k':100}") None);
                         Some (answer "At nine." None)] embeddingEnv;
               trace := [] |} in
  exists tail,
    messages (agent (snd (execute nodeRuntime "And at what time?" st)))
    = plainMessage system (systemPrompt embeddingEnv) :: history ++ tail
    /\ In (plainMessage user "And at what time?") tail.
Proof.
  intros history st.
  exact (@transcript_keeps_prompt_and_history nodeRuntime "And at what time?" false st
           eq_refl).
Defined.

(** ** The convenience functions *)

(** X18.  [runAgent] calls the model at most [allowedRounds + 2] times and the
    tool runtime at most [allowedRounds + 1] times, whatever the model and the
    tools answer and however the run ends; without [maxToolRounds] that is 7
    model calls and 6 tool runs.  [runAgentStream] runs the tools at most
    [allowedRounds + 1] times and makes at most one blocking model call. *)
Theorem runAgent_call_budget (rt : Runtime) (userMessage : string) (ctx : ToolContext)
  (cfg : AgentConfig) (history : list ChatMessage) (e : Env) :
  ((chatCalls (trace (snd (runAgent rt userMessage ctx cfg history e)))
    <= allowedRounds cfg + 2)%nat
   /\ (toolRuns (trace (snd (runAgent rt userMessage ctx cfg history e)))
       <= allowedRounds cfg + 1)%nat)
  /\ ((chatCalls (trace (snd (runAgentStream rt userMessage ctx cfg history e)))
       <= 1)%nat
      /\ (toolRuns (trace (snd (runAgentStream rt userMessage ctx cfg history e)))
          <= allowedRounds cfg + 1)%nat).
Proof.
  assert (B : Z.to_nat (Z.max 0 (roundBudget (newAgent ctx cfg history)))
              = allowedRounds cfg).
  { unfold allowedRounds, roundBudget, newAgent. simpl.
    destruct (maxToolRounds cfg); reflexivity. }
  unfold runAgent, runAgentStream. split.
  - destruct (execute_spent rt userMessage
                {| agent := newAgent ctx cfg history; env := e; trace := [] |})
      as [events [T [C R]]].
    rewrite T. simpl app. simpl agent in C, R. rewrite B in C, R. auto.
  - destruct (executeStream_spent rt userMessage
                {| agent := newAgent ctx cfg history; env := e; trace := [] |})
      as [events [T [C R]]].
    rewrite T. simpl app. simpl agent in C, R. rewrite B in R. auto.
Qed.

(** X19.  the total usage [runAgent] returns is the sum of the usage records of
    the replies the model transport gave during the run, the rewrite call of
    the pipeline and the forced final call included; a reply without a usage
    record counts as zero. *)
Theorem runAgent_usage_is_sum (rt : Runtime) (userMessage : string) (ctx : ToolContext)
  (cfg : AgentConfig) (history : list ChatMessage) (e : Env) (r : AgentResult) (st' : St) :
  runAgent rt userMessage ctx cfg history e = (Ok r, st') ->
  res_totalUsage r = deliveredUsage (trace st').
Proof.
  unfold runAgent. intro H.
  pose proof (counted_execute rt userMessage
                {| agent := newAgent ctx cfg history; env := e; trace := [] |}) as C.
  rewrite H in C. simpl in C. destruct C as [events [T U]]. simpl in T, U.
  rewrite (@execute_total_shown _ _ _ _ _ H), U, T.
  now rewrite plusUsage_zero_l.
Qed.

Lemma runAgent_usage_is_sum_witness :
  let e := withChatScript [Some (askRecent (Some (tokens 10 5)));
                           Some (answer "two" (Some (tokens 20 7)))] quietEnv in
  res_totalUsage
    (match fst (runAgent nodeRuntime "hi" noContext {| maxToolRounds := None |} [] e) with
     | Ok r => r
     | _ => {| res_content := ""; res_toolsUsed := []; res_toolRounds := 0;
               res_totalUsage := zeroUsage |}
     end)
  = tokens 30 12.
Proof.
  intro e.
  destruct (runAgent nodeRuntime "hi" noContext {| maxToolRounds := None |} [] e)
    as [o st'] eqn:E.
  assert (O : exists r, o = Ok r /\ deliveredUsage (trace st') = tokens 30 12).
  { vm_compute in E. injection E as <- <-. eexists. split; reflexivity. }
  destruct O as [r [-> D]]. simpl.
  rewrite (@runAgent_usage_is_sum nodeRuntime "hi" noContext {| maxToolRounds := None |}
             [] e r st' E).
  exact D.
Defined.

(** ** The [done] chunk of a streamed result *)

Lemma closing_done {L} (text : string) :
  closing (L := L) (emitDone ;; r <- resultWith text ;; ret (Return r)).
Proof. intro st. cbn. eexists. reflexivity. Qed.

Lemma closing_continue {L} (l : L) : closing (ret (Continue l)).
Proof. intro st. exact I. Qed.

Lemma closing_throw {L} (e : string) : closing (L := L) (throw e).
Proof. intro st. exact I. Qed.

Lemma closing_outOfFuel {L} : closing (L := L) outOfFuel.
Proof. intro st. exact I. Qed.

Lemma closing_bind {A L} (m : M A) (f : A -> M (Flow L AgentResult)) :
  (forall a, closing (f a)) -> closing (bind m f).
Proof.
  intros Hf st. rewrite bind_run.
  destruct (m st) as [[a | e |] st1]; simpl; auto. apply Hf.
Qed.

Lemma closing_flow {L L'} (m : M (Flow L AgentResult))
  (k : L -> M (Flow L' AgentResult)) :
  closing m -> (forall l, closing (k l)) ->
  closing (bind m (fun x => match x with
                            | Continue l => k l
                            | Return r => ret (Return r)
                            end)).
Proof.
  intros Hm Hk st. rewrite bind_run. specialize (Hm st).
  destruct (m st) as [[[l | r] | e |] st1]; simpl in *; auto. apply Hk.
Qed.

Ltac closing_step :=
  lazymatch goal with
  | |- closing (bind emitDone (fun _ => bind (resultWith _) (fun r => ret (Return r)))) =>
      apply closing_done
  | |- closing (bind _ (fun x => match x with Continue _ => _ | Return _ => _ end)) =>
      apply closing_flow; [ | intros ]
  | |- closing (bind _ _) => apply closing_bind; intros
  | |- closing (ret (Continue _)) => apply closing_continue
  | |- closing (throw _) => apply closing_throw
  | |- closing outOfFuel => apply closing_outOfFuel
  | |- closing (let _ := _ in _) => cbv zeta
  | |- closing (match ?x with _ => _ end) => destruct x
  end.

Ltac closes := repeat (first [ assumption | closing_step ]).

Section ClosingCode.

Variable rt : Runtime.

Lemma closing_settleDelta (chunk : ChatStreamChunk) (s : Scan) :
  closing (settleDelta rt chunk s).
Proof. unfold settleDelta, finishDelta. closes. Qed.

Lemma closing_consumeDeltas (chunks : list ChatStreamChunk) (s : Scan) :
  closing (consumeDeltas rt chunks s).
Proof.
  pose proof closing_settleDelta.
  revert s. induction chunks as [| c chunks IH]; intro s; simpl; closes; auto.
Qed.

Lemma closing_streamRounds (fuel : nat) (tools : list ToolDefinition) :
  closing (streamRounds rt fuel tools).
Proof.
  induction fuel as [| fuel IH]; simpl; [ apply closing_outOfFuel |].
  pose proof closing_consumeDeltas. closes; auto.
Qed.

(** The loop is left by [Continue] only with the budget spent. *)
Lemma streamRounds_continue (fuel : nat) :
  forall (tools : list ToolDefinition) (st st' : St),
    streamRounds rt fuel tools st = (Ok (Continue tt), st') ->
    (roundBudget (agent st') <= toolRounds (agent st'))%Z.
Proof.
  induction fuel as [| fuel IH]; intros tools st st' H; [ discriminate H |].
  cbn [streamRounds] in H. rewrite bind_getAgent in H.
  destruct (toolRounds (agent st) <? roundBudget (agent st))%Z eqn:G.
  2: { inversion H; subst. now apply Z.ltb_ge in G. }
  rewrite bind_isAborted in H. destruct (nextAbort st); [ cbn in H; discriminate H |].
  rewrite bind_getAgent in H.
  bind_in H as reply st2 E1; try discriminate H.
  bind_in H as consumed st3 E2; try discriminate H.
  destruct consumed as [s | r]; [ | discriminate H ].
  bind_in H as u st4 E3; try discriminate H.
  bind_in H as u2 st5 E4; try discriminate H.
  now apply IH in H.
Qed.

(** X20.  a result that [executeStream] returns before the budget is spent
    comes right after a [done] chunk of this execution: the last thing the
    consumer was sent is [done], and the usage it carries is the total of the
    returned result.  (A result of the forced final stream may come without
    any [done] chunk: that stream sends one only on a finishing delta or on
    cancellation.) *)
Theorem stream_result_ends_with_done (userMessage : string) (st st' : St)
  (r : AgentResult) :
  executeStream rt userMessage st = (Ok r, st') ->
  (res_toolRounds r < roundBudget (agent st))%Z ->
  exists events,
    trace st' = trace st ++ events ++ [EvEmit (ChunkDone (res_totalUsage r))].
Proof.
  unfold executeStream. intros H Hlt. rewrite bind_isAborted in H.
  destruct (nextAbort st).
  { cbn in H. inversion H; subst. simpl. eexists [_]. rewrite <- app_assoc. reflexivity. }
  bind_in H as tools st1 E1; try discriminate H.
  destruct (prepareTurn_spent rt userMessage true (afterAbortCheck "" st)) as [ev1 [T1 _]].
  rewrite E1 in T1. simpl in T1.
  apply prepareTurn_rounds in E1. destruct E1 as [C1 [R1 _]].
  rewrite bind_getEnv in H.
  bind_in H as flow st2 E2; try discriminate H.
  destruct flow as [[] | r0].
  - exfalso.
    pose proof (@streamRounds_continue _ _ _ _ E2) as B.
    apply streamRounds_bound in E2;
      [ | lia | rewrite R1; unfold budgetBound; lia ].
    destruct E2 as [C2 _].
    apply forcedStream_rounds in H. destruct H as [[C3 R3 _ _] [_ F3]].
    destruct (F3 r eq_refl) as [Rr _].
    unfold roundBudget in *. simpl in C1. rewrite C2, C1 in B.
    rewrite Rr, R3 in Hlt. lia.
  - inversion H; subst r0 st2.
    pose proof (closing_streamRounds (S (List.length (streamScript (env st1)))) tools st1)
      as K.
    rewrite E2 in K. simpl in K. destruct K as [before K].
    destruct (@streamRounds_spent rt _ _ _ _ _ E2) as [ev2 [T2 _]].
    assert (T : exists e0, trace st' = trace st ++ (e0 :: ev1 ++ ev2)).
    { eexists. rewrite T2, T1. unfold afterAbortCheck. simpl.
      rewrite <- !app_assoc. reflexivity. }
    destruct T as [e0 T].
    destruct (exists_last (l := e0 :: ev1 ++ ev2)) as [front [x Ex]]; [ discriminate |].
    rewrite Ex in T. rewrite T, app_assoc in K.
    apply app_inj_tail in K. destruct K as [_ ->].
    exists front. exact T.
Qed.

End ClosingCode.

Lemma stream_result_ends_with_done_witness :
  let st := freshState None
              (withStreamScript
                 [streamed [delta "At nine."; stopDelta (Some (tokens 3 4))]] quietEnv) in
  exists r st',
    executeStream nodeRuntime "hi" st = (Ok r, st')
    /\ res_totalUsage r = tokens 3 4
    /\ exists events, trace st' = [] ++ events ++ [EvEmit (ChunkDone (tokens 3 4))].
Proof.
  intro st.
  destruct (executeStream nodeRuntime "hi" st) as [o st'] eqn:E.
  assert (O : exists r, o = Ok r /\ res_totalUsage r = tokens 3 4
                        /\ res_toolRounds r = 0%Z).
  { vm_compute in E. injection E as <- <-. eexists. repeat split. }
  destruct O as [r [-> [U R]]].
  exists r, st'. split; [ reflexivity |]. split; [ exact U |].
  rewrite <- U.
  apply (@stream_result_ends_with_done nodeRuntime "hi" st st' r E).
  rewrite R. reflexivity.
Defined.

(** ** The text before a tool-call marker *)

Lemma find_lower (p x : string) :
  Js.toLowerCase p = p -> Js.find p (Js.toLowerCase x) = None -> Js.find p x = None.
Proof.
  intros Lp H. destruct (Js.find p x) as [i |] eqn:F; [ | reflexivity ]. exfalso.
  destruct (@find_some _ _ _ F) as [A [B _]].
  apply startsWith_toLowerCase in A. rewrite Lp, toLowerCase_drop in A.
  rewrite <- (toLowerCase_length x) in B.
  destruct (@find_first _ _ _ A B) as [k [_ K]]. congruence.
Qed.

Lemma slice_middle (a b c : string) :
  Js.slice (a ++ b ++ c) (Js.len a) (Js.len (a ++ b)) = b.
Proof.
  unfold Js.slice, Js.sliceIndex, Js.len. rewrite !length_app_s.
  replace (Z.of_nat (String.length a) <? 0)%Z with false by (symmetry; apply Z.ltb_ge; lia).
  replace (Z.of_nat (String.length a + String.length b) <? 0)%Z with false
    by (symmetry; apply Z.ltb_ge; lia).
  rewrite !Z.min_l by lia.
  destruct (Z.ltb_spec (Z.of_nat (String.length a))
                       (Z.of_nat (String.length a + String.length b))) as [L | L].
  - replace (Z.to_nat (Z.of_nat (String.length a + String.length b)
                       - Z.of_nat (String.length a)))
      with (String.length b) by lia.
    rewrite Nat2Z.id, drop_app. apply take_app.
  - destruct b; [ reflexivity | simpl in L; lia ].
Qed.

Lemma slice_prefix (a c : string) : Js.slice (a ++ c) 0 (Js.len a) = a.
Proof. apply (slice_middle "" a c). Qed.

Section ToolMarker.

Variable rt : Runtime.

(** X21.  the letter case of a tool-call marker decides what happens to the
    text before it.  The scanner looks for the marker without regard to
    case but takes its position from a case-sensitive search: before the
    marker [<tool_call>] as written the text of the delta is forwarded;
    before a marker in another letter case nothing is forwarded, and since
    buffering is now on, nothing more is forwarded in this round. *)
Theorem tool_marker_case_decides_forwarding (s : Scan) (st : St) :
  settled s ->
  (forall pre post,
      Js.nonEmpty pre = true ->
      Js.testCI "<think>" (accumulatedContent s ++ pre ++ "<tool_call>" ++ post) = false ->
      Js.testCI "<tool_call>" (accumulatedContent s ++ pre) = false ->
      scanDelta (pre ++ "<tool_call>" ++ post) s st
      = (Ok ({| accumulatedContent := accumulatedContent s ++ pre ++ "<tool_call>" ++ post;
                displayedContent := accumulatedContent s ++ pre;
                toolCalls := toolCalls s;
                isBufferingToolCall := true;
                isBufferingThink := false |}, false),
         {| agent := agent st; env := env st;
            trace := trace st ++ [EvEmit (ChunkContent pre)] |}))
  /\ (forall text,
         Js.testCI "<think>" (accumulatedContent s ++ text) = false ->
         Js.testCI "<tool_call>" (accumulatedContent s ++ text) = true ->
         Js.find "<tool_call>" (accumulatedContent s ++ text) = None ->
         scanDelta text s st
         = (Ok ({| accumulatedContent := accumulatedContent s ++ text;
                   displayedContent := displayedContent s;
                   toolCalls := toolCalls s;
                   isBufferingToolCall := true;
                   isBufferingThink := false |}, false), st)).
Proof.
  intros [D [Bt Bc]]. split.
  - intros pre post Ne Ht Hc.
    set (acc := accumulatedContent s) in *.
    assert (Ex : Js.find "<tool_call>" (acc ++ pre) = None).
    { apply find_lower; [ reflexivity |]. now apply testCI_false in Hc. }
    assert (F : Js.find "<tool_call>" (acc ++ pre ++ "<tool_call>" ++ post)
                = Some (String.length (acc ++ pre))).
    { rewrite <- app_assoc_s. apply (@find_marker "<" "tool_call>"); auto. }
    assert (T : Js.testCI "<tool_call>" (acc ++ pre ++ "<tool_call>" ++ post) = true).
    { unfold Js.testCI, Js.findCI. rewrite <- app_assoc_s.
      rewrite (toLowerCase_app (acc ++ pre)), (toLowerCase_app "<tool_call>").
      change (Js.toLowerCase "<tool_call>") with "<tool_call>".
      pose proof (@find_in_app "<tool_call>" (Js.toLowerCase (acc ++ pre))
                    (Js.toLowerCase post)) as N.
      destruct (Js.find "<tool_call>"
                  (Js.toLowerCase (acc ++ pre) ++ "<tool_call>" ++ Js.toLowerCase post));
        [ reflexivity | congruence ]. }
    unfold scanDelta. cbv zeta.
    unfold scanThinkOpen. cbn [isBufferingThink accumulatedContent withAccumulated].
    fold acc. rewrite Bt, Ht. cbn [negb andb]. rewrite bind_ret.
    unfold scanThinkClose. cbn [isBufferingThink accumulatedContent withAccumulated].
    rewrite Bt. cbn [andb].
    unfold scanToolCall.
    cbn [isBufferingToolCall isBufferingThink accumulatedContent displayedContent
         withAccumulated].
    fold acc. rewrite Bc, T. cbn [negb]. cbv zeta.
    unfold forwardBefore.
    cbn [isBufferingToolCall isBufferingThink accumulatedContent displayedContent
         withAccumulated withBufferingToolCall].
    fold acc. unfold Js.indexOf. rewrite F, D. fold acc.
    change (Z.of_nat (String.length (acc ++ pre))) with (Js.len (acc ++ pre)).
    assert (L : (Js.len acc <? Js.len (acc ++ pre))%Z = true).
    { apply Z.ltb_lt. unfold Js.len. rewrite length_app_s.
      destruct pre; [ discriminate Ne | simpl; lia ]. }
    rewrite L, slice_middle, Ne.
    rewrite <- (app_assoc_s acc pre), slice_prefix.
    rewrite Bt. cbn -[String.append].
    unfold ret, withDisplayed, withBufferingToolCall, withAccumulated.
    cbn [accumulatedContent displayedContent toolCalls isBufferingToolCall
         isBufferingThink].
    rewrite Bt. reflexivity.
  - intros text Ht T F.
    unfold scanDelta. cbv zeta.
    unfold scanThinkOpen. cbn [isBufferingThink accumulatedContent withAccumulated].
    rewrite Bt, Ht. cbn [negb andb]. rewrite bind_ret.
    unfold scanThinkClose. cbn [isBufferingThink accumulatedContent withAccumulated].
    rewrite Bt. cbn [andb].
    unfold scanToolCall.
    cbn [isBufferingToolCall isBufferingThink accumulatedContent displayedContent
         withAccumulated].
    rewrite Bc, T. cbn [negb]. cbv zeta.
    unfold forwardBefore.
    cbn [isBufferingToolCall isBufferingThink accumulatedContent displayedContent
         withAccumulated withBufferingToolCall].
    unfold Js.indexOf. rewrite F.
    replace (Js.len (displayedContent s) <? -1)%Z with false
      by (symmetry; apply Z.ltb_ge; unfold Js.len; lia).
    rewrite Bt. cbn -[String.append].
    unfold ret, withDisplayed, withBufferingToolCall, withAccumulated.
    cbn [accumulatedContent displayedContent toolCalls isBufferingToolCall
         isBufferingThink].
    rewrite Bt. reflexivity.
Qed.

End ToolMarker.

Lemma tool_marker_case_decides_forwarding_witness :
  forwarded (trace (snd (scanDelta ("Sure. " ++ "<tool_call>" ++ "{}") scanStart
                           (freshState None quietEnv))))
  = ["Sure. "]
  /\ forwarded (trace (snd (scanDelta "Sure. <TOOL_CALL>{}" scanStart
                              (freshState None quietEnv))))
     = [].
Proof.
  destruct (@tool_marker_case_decides_forwarding scanStart (freshState None quietEnv))
    as [A B]; [ repeat split |].
  split.
  - rewrite (A "Sure. " "{}"); reflexivity.
  - rewrite (B "Sure. <TOOL_CALL>{}"); reflexivity.
Defined.
